(** * FastSurferCNN.data_loader.data_utils: label-space remapping

    A shallow embedding of the label remapping functions of
    [FastSurferCNN/data_loader/data_utils.py] and the properties that
    hold of them.

    Conventions of the embedding.
    - A numpy volume is its shape together with its flat buffer in C
      order ([ndarray]); voxel values are integers ([Z]).
    - numpy arrays are mutable objects shared between caller and callee:
      the functions that write into their argument run in a store of
      arrays ([heap]) addressed by locations ([loc]), inside a state and
      exception monad [M].  An exception leaves the store as it is at the
      point of the raise.
    - Python exceptions are values of [exn].
    - [scipy.ndimage.gaussian_filter] computes in floating point; it is a
      parameter of the embedding (blurred values are rationals). *)

From Stdlib Require Import ZArith QArith String Ascii List Bool Lia.
From stdpp Require Import base tactics option list numbers.

Local Open Scope nat_scope.

(** ** Exceptions *)

(** The [assert] statements of the module, named by what they check. *)
Inductive assertion : Type :=
| CCClassesStillExist      (* "Error: CC classes (251-255) still exist in aseg" *)
| NoCorticalMarker         (* "Error: no cortical marker detected" *)
| ClassesNotInLabels       (* "Error: segmentation image contains classes not listed in the labels" *)
| LutNotDefined.           (* "lut is not defined!" *)

Inductive exn : Type :=
| AssertionError (a : assertion)
| IndexError
| KeyError
| ValueError
| TypeError
| Unbound.  (* a location outside the store; no Python program reaches it *)

Inductive result (A : Type) : Type :=
| Ok (a : A)
| Raise (e : exn).
Arguments Ok {A} a.
Arguments Raise {A} e.

Definition rbind {A B} (r : result A) (k : A -> result B) : result B :=
  match r with
  | Ok a => k a
  | Raise e => Raise e
  end.

Fixpoint rmapM {A B} (f : A -> result B) (l : list A) : result (list B) :=
  match l with
  | [] => Ok []
  | x :: l' => rbind (f x) (fun y => rbind (rmapM f l') (fun ys => Ok (y :: ys)))
  end.

(** ** Arrays *)

Record ndarray (A : Type) : Type := NDArray {
  shape : nat * nat * nat;
  data : list A
}.
Arguments NDArray {A} shape data.
Arguments shape {A} n.
Arguments data {A} n.

Definition shape_eqb (s t : nat * nat * nat) : bool :=
  let '(h, w, d) := s in
  let '(h', w', d') := t in
  (h =? h') && (w =? w') && (d =? d').

(** Element-wise operation: same shape, mapped buffer. *)
Definition amap {A B} (f : A -> B) (a : ndarray A) : ndarray B :=
  NDArray (shape a) (map f (data a)).

(** [a == v] *)
Definition np_eq (a : ndarray Z) (v : Z) : ndarray bool :=
  amap (fun x => (x =? v)%Z) a.

(** [np.any(mask)] *)
Definition np_any (m : ndarray bool) : bool := existsb id (data m).

(** Values of [xs] at the positions where the mask is true ([xs[mask]]
    on flat buffers). *)
Fixpoint gather {A} (m : list bool) (xs : list A) : list A :=
  match m, xs with
  | b :: m', x :: xs' => if b then x :: gather m' xs' else gather m' xs'
  | _, _ => []
  end.

(** [xs[mask] = vals] on flat buffers: the values are written, in order,
    at the positions where the mask is true. *)
Fixpoint scatter {A} (m : list bool) (vals : list A) (xs : list A) {struct xs} : list A :=
  match xs with
  | [] => []
  | x :: xs' =>
      match m with
      | [] => x :: xs'
      | true :: m' =>
          match vals with
          | v :: vs => v :: scatter m' vs xs'
          | [] => x :: scatter m' [] xs'
          end
      | false :: m' => x :: scatter m' vals xs'
      end
  end.

Definition count_true (m : list bool) : nat := length (filter (fun b => b = true) m).

(** [a[mask]] with a boolean mask: the mask must have the shape of [a]. *)
Definition getitem_mask {A} (a : ndarray A) (m : ndarray bool) : result (list A) :=
  if shape_eqb (shape a) (shape m) then Ok (gather (data m) (data a))
  else Raise IndexError.

(** [np.unique] of a flat buffer: the distinct values in ascending order. *)
Fixpoint insert_unique (x : Z) (l : list Z) : list Z :=
  match l with
  | [] => [x]
  | y :: l' =>
      if (x <? y)%Z then x :: y :: l'
      else if (x =? y)%Z then y :: l'
      else y :: insert_unique x l'
  end.

Definition np_unique (l : list Z) : list Z := foldr insert_unique [] l.

(** Integer indexing of an axis of length [n]: negative indices count
    from the end, anything else out of range is an [IndexError]. *)
Definition np_index (n : nat) (i : Z) : result nat :=
  if ((0 <=? i) && (i <? Z.of_nat n))%Z then Ok (Z.to_nat i)
  else if ((- Z.of_nat n <=? i) && (i <? 0))%Z then Ok (Z.to_nat (Z.of_nat n + i))
  else Raise IndexError.

(** ** The store of arrays and its monad *)

Abbreviation loc := nat (only parsing).
Abbreviation heap := (list (ndarray Z)) (only parsing).

Definition M (A : Type) : Type := heap -> result A * heap.

Definition ret {A} (a : A) : M A := fun h => (Ok a, h).

Definition raise {A} (e : exn) : M A := fun h => (Raise e, h).

Definition bind {A B} (c : M A) (k : A -> M B) : M B :=
  fun h =>
    match c h with
    | (Ok a, h') => k a h'
    | (Raise e, h') => (Raise e, h')
    end.

Notation "x <- c ;; k" := (bind c (fun x => k))
  (at level 100, c at next level, right associativity).
Notation "c ;;; k" := (bind c (fun _ => k))
  (at level 100, right associativity).

Definition lift {A} (r : result A) : M A := fun h => (r, h).

Definition load (l : loc) : M (ndarray Z) :=
  fun h =>
    match h !! l with
    | Some a => (Ok a, h)
    | None => (Raise Unbound, h)
    end.

(** Overwrite the buffer of the array at [l] (its shape is kept). *)
Definition store_data (l : loc) (xs : list Z) : M unit :=
  fun h =>
    match h !! l with
    | Some a => (Ok tt, <[l := NDArray (shape a) xs]> h)
    | None => (Raise Unbound, h)
    end.

(** [a.copy()]: a fresh array. *)
Definition np_copy (l : loc) : M loc :=
  fun h =>
    match h !! l with
    | Some a => (Ok (length h), h ++ [a])
    | None => (Raise Unbound, h)
    end.

(** [tgt[mask] = vals] *)
Definition setitem_mask (tgt : loc) (m : ndarray bool) (vals : list Z) : M unit :=
  t <- load tgt ;;
  if negb (shape_eqb (shape t) (shape m)) then raise IndexError
  else if negb (length vals =? count_true (data m)) then raise ValueError
  else store_data tgt (scatter (data m) vals (data t)).

(** [tgt[mask] = w] for a scalar [w] *)
Definition setitem_mask_scalar (tgt : loc) (m : ndarray bool) (w : Z) : M unit :=
  t <- load tgt ;;
  if negb (shape_eqb (shape t) (shape m)) then raise IndexError
  else store_data tgt (scatter (data m) (repeat w (count_true (data m))) (data t)).

(** [tgt[src == v] = w] *)
Definition setitem_eq (tgt src : loc) (v w : Z) : M unit :=
  s <- load src ;;
  setitem_mask_scalar tgt (np_eq s v) w.

(** ** Cortex clean-up *)

Definition clean_cortex_labels (aparc : loc) : M loc :=
  setitem_eq aparc aparc 80 77 ;;;   (* Hypointensities Class *)
  setitem_eq aparc aparc 85 0 ;;;    (* Optic Chiasma to BKG *)
  setitem_eq aparc aparc 62 41 ;;;   (* Right Vessel to Right WM *)
  setitem_eq aparc aparc 30 2 ;;;    (* Left Vessel to Left WM *)
  setitem_eq aparc aparc 72 24 ;;;   (* 5th Ventricle to CSF *)
  setitem_eq aparc aparc 29 0 ;;;    (* left-undetermined to 0 *)
  setitem_eq aparc aparc 61 0 ;;;    (* right-undetermined to 0 *)
  setitem_eq aparc aparc 3 0 ;;;     (* Map Remaining Cortical labels to background *)
  setitem_eq aparc aparc 42 0 ;;;
  ret aparc.

(** ** Geometry of a volume *)

Definition coord : Type := (Z * Z * Z)%type.

(** Flat index to (row, column, slice) and back, C order. *)
Definition unravel (s : nat * nat * nat) (p : nat) : coord :=
  let '(h, w, d) := s in
  (Z.of_nat (p / (w * d)), Z.of_nat ((p / d) mod w), Z.of_nat (p mod d)).

Definition ravel (s : nat * nat * nat) (c : coord) : nat :=
  let '(h, w, d) := s in
  let '(i, j, k) := c in
  Z.to_nat ((i * Z.of_nat w + j) * Z.of_nat d + k).

Definition in_bounds (s : nat * nat * nat) (c : coord) : bool :=
  let '(h, w, d) := s in
  let '(i, j, k) := c in
  ((0 <=? i) && (i <? Z.of_nat h) && (0 <=? j) && (j <? Z.of_nat w)
   && (0 <=? k) && (k <? Z.of_nat d))%Z.

Definition shift (c o : coord) : coord :=
  let '(i, j, k) := c in
  let '(di, dj, dk) := o in
  (i + di, j + dj, k + dk)%Z.

(** The 27 offsets of a 3x3x3 structuring element. *)
Definition offsets3 : list coord :=
  di ← [-1; 0; 1]%Z; dj ← [-1; 0; 1]%Z; dk ← [-1; 0; 1]%Z; [(di, dj, dk)].

(** [scipy.ndimage.generate_binary_structure(3, connectivity)]: the
    offsets whose city-block distance to the centre is at most
    [connectivity]. *)
Definition generate_binary_structure (connectivity : Z) : list coord :=
  filter (fun o : coord => let '(di, dj, dk) := o in
                   (Z.abs di + Z.abs dj + Z.abs dk <= connectivity)%Z) offsets3.

(** The in-bounds neighbours of voxel [p] under the offsets [offs]. *)
Definition neighbours (s : nat * nat * nat) (offs : list coord) (p : nat) : list nat :=
  map (ravel s) (filter (fun c => Is_true (in_bounds s c)) (map (shift (unravel s p)) offs)).

(** [scipy.ndimage.binary_dilation(input, structure)], one iteration,
    voxels outside the volume counting as false. *)
Definition binary_dilation (input : ndarray bool) (structure : list coord) : ndarray bool :=
  NDArray (shape input)
    (map (fun p => existsb (fun q => nth q (data input) false)
                     (neighbours (shape input) structure p))
       (seq 0 (length (data input)))).

(** [m1 ^ m2] on boolean arrays of one shape. *)
Definition np_xor (m1 m2 : ndarray bool) : ndarray bool :=
  NDArray (shape m1) (zip_with xorb (data m1) (data m2)).

(** [np.argmax] of a one-dimensional float array: the first position of
    the maximum. *)
Fixpoint argmax_from (best_i : nat) (best : Q) (i : nat) (l : list Q) : nat :=
  match l with
  | [] => best_i
  | x :: l' =>
      if Qle_bool x best then argmax_from best_i best (S i) l'
      else argmax_from i x (S i) l'
  end.

Definition argmax (l : list Q) : nat :=
  match l with
  | [] => 0
  | x :: l' => argmax_from 0 x 1 l'
  end.

(** [np.argmax(stack, axis=3)] where [stack] holds one volume of [n]
    voxels per entry of the last axis: a [ValueError] when that axis is
    empty. *)
Definition np_argmax_axis3 (n : nat) (stack : list (ndarray Q)) : result (list nat) :=
  match stack with
  | [] => Raise ValueError
  | _ => Ok (map (fun p => argmax (map (fun b => nth p (data b) 0%Q) stack)) (seq 0 n))
  end.

(** ** Filling the unknown cortex label and fusing the hemispheres *)

Section WithGaussianFilter.

(** [scipy.ndimage.filters.gaussian_filter(input, sigma)] *)
Variable gaussian_filter : ndarray Q -> Q -> ndarray Q.

(** The first half of [fill_unknown_labels_per_hemi]: the parcels that
    touch the unknown region (the [list_parcels] of the source), kept
    when they lie strictly between [unknown_label] and [cortex_stop]. *)
Definition closest_parcels (g : ndarray Z) (unknown_label cortex_stop : Z)
  : result (list Z) :=
  (* Define shape of image and dilation element *)
  let struct1 := generate_binary_structure 2 in
  (* Get indices of unknown labels, dilate them to get closest surrounding parcels *)
  let unknown := np_eq g unknown_label in
  let unknown := np_xor (binary_dilation unknown struct1) unknown in
  rbind (getitem_mask g unknown) (fun gt_unknown =>
  let list_parcels := np_unique gt_unknown in
  (* Mask all subcortical structures *)
  Ok (filter (fun p => Is_true ((unknown_label <? p) && (p <? cortex_stop))%Z)
        list_parcels)).

Definition fill_unknown_labels_per_hemi (gt : loc) (unknown_label cortex_stop : Z) : M loc :=
  g <- load gt ;;
  list_parcels <- lift (closest_parcels g unknown_label cortex_stop) ;;
  (* For each closest parcel, blur label with gaussian filter *)
  let blur_vals :=
    map (fun parcel =>
           gaussian_filter
             (amap (fun b : bool => (1000 * (if b then 1 else 0))%Q) (np_eq g parcel)) 5%Q)
      list_parcels in
  (* Get for each position parcel with maximum value after blurring *)
  unknown <- lift (np_argmax_axis3 (length (data g)) blur_vals) ;;
  let unknown := NDArray (shape g) (map (fun i => nth i list_parcels 0%Z) unknown) in
  (* Assign the determined closest parcel to the unknown class *)
  let mask := np_eq g unknown_label in
  vals <- lift (getitem_mask unknown mask) ;;
  setitem_mask gt mask vals ;;;
  ret gt.

(** [aparc[(aparc >= 2000) & (aparc <= 2999)] -= 1000] as the source
    writes it: read under the mask, subtract, write under the mask. *)
Definition delateralize (aparc : loc) : M unit :=
  a <- load aparc ;;
  let cortical_label_mask := amap (fun x => (2000 <=? x) && (x <=? 2999))%Z a in
  vals <- lift (getitem_mask a cortical_label_mask) ;;
  setitem_mask aparc cortical_label_mask (map (fun x => x - 1000)%Z vals).

Definition fuse_cortex_labels (aparc : loc) : M loc :=
  aparc_temp <- np_copy aparc ;;
  (* Map undetermined classes *)
  aparc <- clean_cortex_labels aparc ;;
  (* Fill label unknown *)
  a <- load aparc ;;
  aparc <- (if np_any (np_eq a 1000) then fill_unknown_labels_per_hemi aparc 1000 2000
            else ret aparc) ;;
  a <- load aparc ;;
  aparc <- (if np_any (np_eq a 2000) then fill_unknown_labels_per_hemi aparc 2000 3000
            else ret aparc) ;;
  (* De-lateralize parcels *)
  delateralize aparc ;;;
  (* Re-lateralize Cortical parcels in close proximity *)
  setitem_eq aparc aparc_temp 2014 2014 ;;;
  setitem_eq aparc aparc_temp 2028 2028 ;;;
  setitem_eq aparc aparc_temp 2012 2012 ;;;
  setitem_eq aparc aparc_temp 2016 2016 ;;;
  setitem_eq aparc aparc_temp 2002 2002 ;;;
  setitem_eq aparc aparc_temp 2023 2023 ;;;
  setitem_eq aparc aparc_temp 2017 2017 ;;;
  setitem_eq aparc aparc_temp 2024 2024 ;;;
  setitem_eq aparc aparc_temp 2010 2010 ;;;
  setitem_eq aparc aparc_temp 2013 2013 ;;;
  setitem_eq aparc aparc_temp 2025 2025 ;;;
  setitem_eq aparc aparc_temp 2022 2022 ;;;
  setitem_eq aparc aparc_temp 2021 2021 ;;;
  setitem_eq aparc aparc_temp 2005 2005 ;;;
  ret aparc.

(** ** Mapping a segmentation to the label space *)

Definition assert_ (b : bool) (a : assertion) : M unit :=
  if b then ret tt else raise (AssertionError a).

(** [max(labels)]: a [ValueError] on an empty sequence. *)
Definition py_max (l : list Z) : result Z :=
  match l with
  | [] => Raise ValueError
  | x :: l' => Ok (foldl Z.max x l')
  end.

(** [np.zeros(n, dtype="int")]: a negative length is a [ValueError]. *)
Definition np_zeros (n : Z) : result (list Z) :=
  if (n <? 0)%Z then Raise ValueError else Ok (repeat 0%Z (Z.to_nat n)).

(** [for idx, value in enumerate(labels): lut_aseg[value] = idx],
    started at position [idx]. *)
Fixpoint fill_lut (lut : list Z) (idx : nat) (labels : list Z) : result (list Z) :=
  match labels with
  | [] => Ok lut
  | value :: rest =>
      rbind (np_index (length lut) value)
        (fun i => fill_lut (<[i := Z.of_nat idx]> lut) (S idx) rest)
  end.

(** [lut[aseg.ravel()]] *)
Definition np_take (lut : list Z) (idxs : list Z) : result (list Z) :=
  rmapM (fun v => rbind (np_index (length lut) v) (fun i => Ok (nth i lut 0%Z))) idxs.

(** The look-up table mapping, written twice in the source (once per
    label list): build the table over [labels], then read it at every
    voxel of [aseg]. *)
Definition lut_mapping (labels : list Z) (aseg : ndarray Z) : result (ndarray Z) :=
  rbind (py_max labels) (fun m =>
  rbind (np_zeros (m + 1)) (fun lut_aseg =>
  rbind (fill_lut lut_aseg 0 labels) (fun lut_aseg =>
  rbind (np_take lut_aseg (data aseg)) (fun mapped_aseg =>
  Ok (NDArray (shape aseg) mapped_aseg))))).

(** [set(labels).issuperset(np.unique(aseg))] *)
Definition issuperset (labels : list Z) (a : ndarray Z) : bool :=
  forallb (fun v => existsb (Z.eqb v) labels) (np_unique (data a)).

(** [for left, right in sagittal_lut_dict.items(): aseg[aseg == left] = right] *)
Fixpoint map_sagittal_labels (aseg : loc) (items : list (Z * Z)) : M unit :=
  match items with
  | [] => ret tt
  | (left_, right_) :: rest =>
      setitem_eq aseg aseg left_ right_ ;;;
      map_sagittal_labels aseg rest
  end.

(** The part of [map_aparc_aseg2label] before the check of the labels:
    the corpus callosum override and the processing of the chosen mode
    (source lines 957-981). *)
Definition preprocess_aseg (aseg : loc) (aseg_nocc : option loc) (processing : string)
  : M loc :=
  (* If corpus callosum is not removed yet, do it now *)
  match aseg_nocc with
  | Some aseg_nocc =>
      a <- load aseg ;;
      n <- load aseg_nocc ;;
      let cc_mask := amap (fun x => (251 <=? x) && (x <=? 255))%Z a in
      vals <- lift (getitem_mask n cc_mask) ;;
      setitem_mask aseg cc_mask vals
  | None => ret tt
  end ;;;
  if String.eqb processing "aparc" then
    fuse_cortex_labels aseg
  else if String.eqb processing "aseg" then
    setitem_eq aseg aseg 1000 3 ;;;   (* Map unknown to cortex *)
    setitem_eq aseg aseg 2000 42 ;;;
    setitem_eq aseg aseg 80 77 ;;;    (* Hypointensities Class *)
    setitem_eq aseg aseg 85 0 ;;;     (* Optic Chiasma to BKG *)
    setitem_eq aseg aseg 62 41 ;;;    (* Right Vessel to Right WM *)
    setitem_eq aseg aseg 30 2 ;;;     (* Left Vessel to Left WM *)
    setitem_eq aseg aseg 72 24 ;;;    (* 5th Ventricle to CSF *)
    a <- load aseg ;;
    assert_ (negb (np_any (amap (fun x => (251 <=? x)%Z) a))) CCClassesStillExist ;;;
    assert_ (np_any (np_eq a 3) && np_any (np_eq a 42)) NoCorticalMarker ;;;
    ret aseg
  else ret aseg.

Definition map_aparc_aseg2label (aseg : loc) (labels labels_sag : list Z)
  (sagittal_lut_dict : list (Z * Z)) (aseg_nocc : option loc) (processing : string)
  : M (ndarray Z * ndarray Z) :=
  aseg <- preprocess_aseg aseg aseg_nocc processing ;;
  a <- load aseg ;;
  assert_ (issuperset labels a) ClassesNotInLabels ;;;
  (* Remap Label Classes - Perform LUT Mapping - Coronal, Axial *)
  mapped_aseg <- lift (lut_mapping labels a) ;;
  (if String.eqb processing "aparc" then delateralize aseg else ret tt) ;;;
  (* Map Sagittal Labels *)
  map_sagittal_labels aseg sagittal_lut_dict ;;;
  a <- load aseg ;;
  mapped_aseg_sag <- lift (lut_mapping labels_sag a) ;;
  ret (mapped_aseg, mapped_aseg_sag).

End WithGaussianFilter.

(** ** Look-up tables (LUT) *)

(** A row of a FreeSurfer-like LUT: [ID LabelName R G B A]. *)
Record lut_row : Type := LutRow {
  ID : Z;
  LabelName : string;
  RGBA : Z * Z * Z * Z
}.

Definition DataFrame : Type := list lut_row.

(** A Python [dict] with insertion order: looking up a missing key is a
    [KeyError]; setting an existing key keeps its place. *)
Fixpoint dict_getitem {K V} (eqb : K -> K -> bool) (d : list (K * V)) (k : K) : result V :=
  match d with
  | [] => Raise KeyError
  | (k', v) :: d' => if eqb k' k then Ok v else dict_getitem eqb d' k
  end.

Fixpoint dict_setitem {K V} (eqb : K -> K -> bool) (d : list (K * V)) (k : K) (v : V)
  : list (K * V) :=
  match d with
  | [] => [(k, v)]
  | (k', v') :: d' =>
      if eqb k' k then (k, v) :: d' else (k', v') :: dict_setitem eqb d' k v
  end.

Definition tab : string := String (ascii_of_nat 9) EmptyString.

(** [s[-3:]] *)
Definition last3 (s : string) : string :=
  substring (String.length s - 3) 3 s.

(** [s.startswith(prefix)] and [s.removeprefix(prefix)] *)
Definition startswith (s pre : string) : bool := String.prefix pre s.

Definition removeprefix (s pre : string) : string :=
  if startswith s pre then substring (String.length pre) (String.length s - String.length pre) s
  else s.

Section WithReadCsv.

(** [pd.read_csv(file, sep=...)]: reading and parsing the file is left to
    pandas. *)
Variable read_csv : string -> string -> result DataFrame.

Definition read_classes_from_lut (lut_file : string) : result DataFrame :=
  (* Read in file *)
  let separator := [("tsv", tab); ("csv", ","); ("txt", " ")]%string in
  rbind (dict_getitem String.eqb separator (last3 lut_file)) (fun sep =>
  read_csv lut_file sep).

(** The [lut] argument: [Union[str, pd.DataFrame]]. *)
Inductive lut_arg : Type :=
| LutFile (path : string)
| LutFrame (df : DataFrame).

Definition load_lut (lut : lut_arg) : result DataFrame :=
  match lut with
  | LutFile path => read_classes_from_lut path
  | LutFrame df => Ok df
  end.

(** [left.merge(right, on="LabelName")], reduced to the two ID columns:
    one row per pair of a left and a right row of the same name. *)
Definition merge_on_name (left_ right_ : list (Z * string)) : list (Z * Z) :=
  '(id_x, name_x) ← left_;
  '(id_y, name_y) ← right_;
  if String.eqb name_x name_y then [(id_x, id_y)] else [].

Definition unify_lateralized_labels (lut : lut_arg) (combi : string * string)
  : result (list (Z * Z)) :=
  rbind (load_lut lut) (fun lut =>
  let select pre :=
    map (fun r => (ID r, removeprefix (LabelName r) pre))
      (filter (fun r => Is_true (startswith (LabelName r) pre)) lut) in
  let left_ := select (fst combi) in
  let right_ := select (snd combi) in
  let mapp := merge_on_name left_ right_ in
  (* pd.Series(mapp.ID_y.values, index=mapp.ID_x).to_dict() *)
  Ok (foldl (fun d '(x, y) => dict_setitem Z.eqb d x y) [] mapp)).

Definition get_labels_from_lut (lut : lut_arg) (label_extract : string * string)
  : result (list Z * list Z) :=
  rbind (load_lut lut) (fun lut =>
  let mask r := startswith (LabelName r) (fst label_extract)
                || startswith (LabelName r) (snd label_extract) in
  Ok (map ID lut, map ID (filter (fun r => Is_true (negb (mask r))) lut))).

(** ** Sagittal to full label space *)

Definition sagittal_coronal_remap_lookup (x : Z) : result Z :=
  dict_getitem Z.eqb
    [(2, 41); (3, 42); (4, 43); (5, 44); (7, 46); (8, 47); (10, 49); (11, 50);
     (12, 51); (13, 52); (17, 53); (18, 54); (26, 58); (28, 60); (31, 63)]%Z x.

(** The Python values that the names [labels] and [labels_sag] of
    [infer_mapping_from_lut] can be bound to: an integer (a key of a
    dictionary of IDs) or an array of IDs. *)
Inductive pyval : Type :=
| PyInt (z : Z)
| PyArray (a : list Z).

(** [len(v)]: an integer has no length. *)
Definition py_len (v : pyval) : result nat :=
  match v with
  | PyInt _ => Raise TypeError
  | PyArray a => Ok (length a)
  end.

(** [v[i]] for [i] in [range(len(v))] *)
Definition py_getitem (v : pyval) (i : nat) : result Z :=
  match v with
  | PyInt _ => Raise TypeError
  | PyArray a => match a !! i with Some x => Ok x | None => Raise IndexError end
  end.

(** [a, b = d]: unpacking iterates over the keys of the dictionary [d];
    any number of keys other than two is a [ValueError]. *)
Definition unpack2 {V} (d : list (Z * V)) : result (pyval * pyval) :=
  match d with
  | [(a, _); (b, _)] => Ok (PyInt a, PyInt b)
  | _ => Raise ValueError
  end.

(** [np.where(arr == x)[0]] *)
Definition np_where_eq (arr : pyval) (x : Z) : result (list nat) :=
  match arr with
  | PyInt _ => Raise TypeError
  | PyArray a => Ok (filter (fun i => nth i a 0%Z = x) (seq 0 (length a)))
  end.

(** A value stored in an [np.int16] array. *)
Definition int16 (z : Z) : Z := ((z + 32768) mod 65536 - 32768)%Z.

(** [idx_list[idx] = idx_in_sag]: an array is stored in one element only
    when it has exactly one entry. *)
Definition setitem_from_array (idx_list : list Z) (idx : nat) (idx_in_sag : list nat)
  : result (list Z) :=
  match idx_in_sag with
  | [i] =>
      if idx <? length idx_list then Ok (<[idx := int16 (Z.of_nat i)]> idx_list)
      else Raise IndexError
  | _ => Raise ValueError
  end.

(** The body of the loop of [infer_mapping_from_lut] for one [idx]. *)
Definition infer_mapping_step (labels labels_sag : pyval) (idx_list : list Z) (idx : nat)
  : result (list Z) :=
  rbind (py_getitem labels idx) (fun label =>
  rbind (np_where_eq labels_sag label) (fun idx_in_sag =>
  rbind (if (length idx_in_sag =? 0)  (* Empty not subcortical *)
         then np_where_eq labels_sag (label - 1000)%Z
         else Ok idx_in_sag) (fun idx_in_sag =>
  rbind (if (length idx_in_sag =? 0)
         then rbind (sagittal_coronal_remap_lookup label) (fun current_label_sag =>
              np_where_eq labels_sag current_label_sag)
         else Ok idx_in_sag) (fun idx_in_sag =>
  setitem_from_array idx_list idx idx_in_sag)))).

Fixpoint infer_mapping_loop (labels labels_sag : pyval) (idx_list : list Z)
  (idxs : list nat) : result (list Z) :=
  match idxs with
  | [] => Ok idx_list
  | idx :: rest =>
      rbind (infer_mapping_step labels labels_sag idx_list idx) (fun idx_list =>
      infer_mapping_loop labels labels_sag idx_list rest)
  end.

(** The array [np.ndarray(shape=(num_classes_full,), dtype=np.int16)] is
    not initialised by numpy; its entries start here as zeros. *)
Definition infer_mapping_from_lut (num_classes_full : nat) (lut : lut_arg)
  : result (list Z) :=
  rbind (unify_lateralized_labels lut ("Left-", "Right-")%string) (fun d =>
  rbind (unpack2 d) (fun '(labels, labels_sag) =>
  let idx_list := repeat 0%Z num_classes_full in
  rbind (py_len labels) (fun n =>
  infer_mapping_loop labels labels_sag idx_list (seq 0 n)))).

(** A prediction of the sagittal network: per sample of the batch, one
    slab of type [T] per class.  [n_classes] is the length of the class
    axis. *)
Record prediction (T : Type) : Type := Prediction {
  n_classes : nat;
  samples : list (list T)
}.
#[global] Arguments Prediction {T} n_classes samples.
#[global] Arguments n_classes {T} p.
#[global] Arguments samples {T} p.

(** [prediction[:, idx_list, :, :]] *)
Definition take_classes {T} (p : prediction T) (idx_list : list Z) : result (prediction T) :=
  rbind (rmapM (np_index (n_classes p)) idx_list) (fun idxs =>
  rbind (rmapM (fun s : list T =>
                  rmapM (fun i => match s !! i with
                                  | Some x => Ok x
                                  | None => Raise IndexError
                                  end) idxs) (samples p)) (fun ss =>
  Ok (Prediction (length idx_list) ss))).

Definition idx_list_96 : list Z :=
  [0; 5; 6; 7; 8; 9; 10; 11; 12; 13; 1; 2; 3; 14; 15; 4; 16; 17; 18;
   5; 6; 7; 8; 9; 10; 11; 12; 13; 14; 15; 16; 17; 18; 19; 20; 21; 22; 23; 24;
   25; 26; 27; 28; 29; 30; 31; 32; 33; 34; 35; 36; 37; 38; 39; 40; 41; 42; 43;
   44; 45; 46; 47; 48; 49; 50;
   20; 21; 22; 23; 24; 25; 26; 27; 28; 29; 30; 31; 32; 33; 34; 35; 36; 37; 38;
   39; 40; 41; 42; 43; 44; 45; 46; 47; 48; 49; 50]%Z.

Definition idx_list_51 : list Z :=
  [0; 5; 6; 7; 8; 9; 10; 11; 12; 13; 1; 2; 3; 14; 15; 4; 16; 17; 18;
   5; 6; 7; 8; 9; 10; 11; 12; 13; 14; 15; 16; 17; 18; 19; 20; 21; 22; 23; 24;
   25; 26; 27; 28; 29; 30; 31; 32; 33; 34; 35; 36; 37; 38; 39; 40; 41; 42; 43;
   44; 45; 46; 47; 48; 49; 50;
   20; 22; 27; 29; 30; 31; 33; 34; 38; 39; 40; 41; 42; 45]%Z.

Definition idx_list_21 : list Z :=
  [0; 5; 6; 7; 8; 9; 10; 11; 12; 13; 14; 1; 2; 3; 15; 16; 4; 17; 18; 19;
   5; 6; 7; 8; 9; 10; 11; 12; 13; 14; 15; 16; 17; 18; 19; 20]%Z.

Definition map_prediction_sagittal2full {T} (prediction_sag : prediction T)
  (num_classes : nat) (lut : option lut_arg) : result (prediction T) :=
  rbind (if num_classes =? 96 then Ok idx_list_96
         else if num_classes =? 51 then Ok idx_list_51
         else if num_classes =? 21 then Ok idx_list_21
         else match lut with
              | None => Raise (AssertionError LutNotDefined)
              | Some lut => infer_mapping_from_lut num_classes lut
              end) (fun idx_list =>
  take_classes prediction_sag idx_list).

End WithReadCsv.

(** ** Bounding box *)

(** [img[i, j, k]] *)
Definition voxel (img : ndarray Z) (i j k : nat) : Z :=
  let '(h, w, d) := shape img in
  nth ((i * w + j) * d + k) (data img) 0%Z.

Definition nonzero (img : ndarray Z) (i j k : nat) : bool :=
  negb (voxel img i j k =? 0)%Z.

(** [np.any(img, axis=(1, 2))], [np.any(img, axis=(0, 2))] and
    [np.any(img, axis=(0, 1))] *)
Definition any_axis12 (img : ndarray Z) : list bool :=
  let '(h, w, d) := shape img in
  map (fun i => existsb (fun j => existsb (fun k => nonzero img i j k) (seq 0 d)) (seq 0 w))
    (seq 0 h).

Definition any_axis02 (img : ndarray Z) : list bool :=
  let '(h, w, d) := shape img in
  map (fun j => existsb (fun i => existsb (fun k => nonzero img i j k) (seq 0 d)) (seq 0 h))
    (seq 0 w).

Definition any_axis01 (img : ndarray Z) : list bool :=
  let '(h, w, d) := shape img in
  map (fun k => existsb (fun i => existsb (fun j => nonzero img i j k) (seq 0 w)) (seq 0 h))
    (seq 0 d).

(** [np.where(r)[0]]: the positions of the true entries, ascending. *)
Definition np_where (r : list bool) : list nat :=
  filter (fun i => nth i r false = true) (seq 0 (length r)).

(** [idx[[0, -1]]]: the first and the last entry; an [IndexError] on an
    empty array. *)
Definition first_last (idx : list nat) : result (nat * nat) :=
  match idx with
  | [] => Raise IndexError
  | x :: _ => Ok (x, List.last idx x)
  end.

Definition bbox_3d (img : ndarray Z) : result (nat * nat * nat * nat * nat * nat) :=
  let r := any_axis12 img in
  let c := any_axis02 img in
  let z := any_axis01 img in
  rbind (first_last (np_where r)) (fun '(rmin, rmax) =>
  rbind (first_last (np_where c)) (fun '(cmin, cmax) =>
  rbind (first_last (np_where z)) (fun '(zmin, zmax) =>
  Ok (rmin, rmax, cmin, cmax, zmin, zmax)))).

(** ** Largest connected component *)

(** One round of label propagation: every voxel takes the smallest
    provisional label among itself and its neighbours of the same value. *)
Definition label_step (seg : ndarray Z) (offs : list coord) (prov : list nat) : list nat :=
  map (fun p =>
         foldr Nat.min (nth p prov p)
           (map (fun q => nth q prov q)
              (filter (fun q => nth q (data seg) 0%Z = nth p (data seg) 0%Z)
                 (neighbours (shape seg) offs p))))
    (seq 0 (length (data seg))).

(** [skimage.measure.label(seg, connectivity=c, background=bg)]: voxels
    of the background value get label 0; the connected components of
    equal-valued voxels are numbered from 1 in the order in which a
    raster scan first meets them.  A component is named by its first
    voxel in raster order (its root), found by propagating the smallest
    flat index through the component. *)
Definition label (seg : ndarray Z) (connectivity background : Z) : ndarray Z :=
  let n := length (data seg) in
  let offs := generate_binary_structure connectivity in
  let prov := Nat.iter n (label_step seg offs) (seq 0 n) in
  let roots :=
    filter (fun p => nth p prov p = p ∧ nth p (data seg) 0%Z ≠ background) (seq 0 n) in
  NDArray (shape seg)
    (map (fun p =>
            if (nth p (data seg) 0 =? background)%Z then 0%Z
            else Z.of_nat (S (length (filter (fun r => r < nth p prov p) roots))))
       (seq 0 n)).

(** [np.bincount] of a buffer of non-negative integers. *)
Definition np_bincount (l : list Z) : list Z :=
  match l with
  | [] => []
  | x :: l' =>
      map (fun v => Z.of_nat (length (filter (fun y => y = Z.of_nat v) l)))
        (seq 0 (S (Z.to_nat (foldl Z.max x l'))))
  end.

(** [np.argmax] of a one-dimensional integer array. *)
Fixpoint argmax_int_from (best_i : nat) (best : Z) (i : nat) (l : list Z) : nat :=
  match l with
  | [] => best_i
  | x :: l' =>
      if (x <=? best)%Z then argmax_int_from best_i best (S i) l'
      else argmax_int_from i x (S i) l'
  end.

Definition np_argmax_int (l : list Z) : result nat :=
  match l with
  | [] => Raise ValueError
  | x :: l' => Ok (argmax_int_from 0 x 1 l')
  end.

Definition get_largest_cc (segmentation : ndarray Z) : result (ndarray bool) :=
  let labels := label segmentation 3 0 in
  let bincount := np_bincount (data labels) in
  rbind (np_argmax_int bincount) (fun background =>
  let bincount := <[background := (-1)%Z]> bincount in
  rbind (np_argmax_int bincount) (fun largest =>
  let largest_cc := np_eq labels (Z.of_nat largest) in
  Ok largest_cc)).

(** ** From the label space back to LUT IDs *)

(** [labels[mapped_aseg]]: the tensor of labels indexed by the tensor of
    positions. *)
Definition map_label2aparc_aseg (mapped_aseg : ndarray Z) (labels : list Z)
  : result (ndarray Z) :=
  rbind (np_take labels (data mapped_aseg)) (fun d =>
  Ok (NDArray (shape mapped_aseg) d)).

(** ** Building arrays voxel by voxel *)

(** The flat position of voxel [(i, j, k)] in C order, and back. *)
Definition flat_index (s : nat * nat * nat) (i j k : nat) : nat :=
  let '(h, w, d) := s in (i * w + j) * d + k.

Definition unflat_index (s : nat * nat * nat) (p : nat) : nat * nat * nat :=
  let '(h, w, d) := s in (p / (w * d), (p / d) mod w, p mod d).

Definition size3 (s : nat * nat * nat) : nat :=
  let '(h, w, d) := s in h * w * d.

(** [a[i, j, k]] for an array of any element type, with the value read
    outside the buffer. *)
Definition voxel_at {A} (dflt : A) (a : ndarray A) (i j k : nat) : A :=
  nth (flat_index (shape a) i j k) (data a) dflt.

(** The array of shape [s] whose voxel [(i, j, k)] is [f i j k]. *)
Definition np_build {A} (s : nat * nat * nat) (f : nat -> nat -> nat -> A) : ndarray A :=
  NDArray s (map (fun p => let '(i, j, k) := unflat_index s p in f i j k)
               (seq 0 (size3 s))).

(** ** Axis transforms *)

(** [sorted(pairs)] for pairs of axes. *)
Fixpoint insert_pair (x : nat * nat) (l : list (nat * nat)) : list (nat * nat) :=
  match l with
  | [] => [x]
  | y :: l' =>
      if (fst x <? fst y) || ((fst x =? fst y) && (snd x <=? snd y))
      then x :: y :: l'
      else y :: insert_pair x l'
  end.

Definition sort_pairs (l : list (nat * nat)) : list (nat * nat) :=
  foldr insert_pair [] l.

(** The axes order that [np.moveaxis] hands to [transpose]: the axes
    that do not move, then [order.insert(dest, src)] for the pairs of
    [sorted(zip(destination, source))]. *)
Definition moveaxis_order (ndim : nat) (source destination : list nat) : list nat :=
  foldl (fun order '(dest, src) => take dest order ++ src :: drop dest order)
    (filter (fun n => n ∉ source) (seq 0 ndim))
    (sort_pairs (zip destination source)).

Definition axis_len (s : nat * nat * nat) (n : nat) : nat :=
  let '(h, w, d) := s in
  match n with
  | 0 => h
  | 1 => w
  | _ => d
  end.

(** [vol.transpose(order)]: axis [n] of the result is axis [order[n]] of
    [vol]. *)
Definition np_transpose (vol : ndarray Z) (order : list nat) : ndarray Z :=
  let o n := nth n order 0 in
  let s := shape vol in
  np_build (axis_len s (o 0), axis_len s (o 1), axis_len s (o 2))
    (fun r0 r1 r2 =>
       let src m := if o 0 =? m then r0 else if o 1 =? m then r1 else r2 in
       voxel vol (src 0) (src 1) (src 2)).

(** [np.moveaxis(vol, source, destination)] of a volume. *)
Definition np_moveaxis (vol : ndarray Z) (source destination : list nat) : ndarray Z :=
  np_transpose vol (moveaxis_order 3 source destination).

Definition transform_axial (vol : ndarray Z) (coronal2axial : bool) : ndarray Z :=
  if coronal2axial then np_moveaxis vol [0; 1; 2] [1; 2; 0]
  else np_moveaxis vol [0; 1; 2] [2; 0; 1].

Definition transform_sagittal (vol : ndarray Z) (coronal2sagittal : bool) : ndarray Z :=
  if coronal2sagittal then np_moveaxis vol [0; 1; 2] [2; 1; 0]
  else np_moveaxis vol [0; 1; 2] [2; 1; 0].

(** ** Thick slices and blank slices *)

(** [np.pad(a, ((0, 0), (0, 0), (t, t)), mode="edge")]: a negative
    width is refused, and an empty last axis cannot be extended. *)
Definition np_pad_edge_axis2 (a : ndarray Z) (t : Z) : result (ndarray Z) :=
  let '(h, w, d) := shape a in
  if (t <? 0)%Z then Raise ValueError
  else if (d =? 0) && negb (t =? 0)%Z then Raise ValueError
  else Ok (np_build (h, w, d + 2 * Z.to_nat t)
             (fun i j k => voxel a i j (Nat.min (k - Z.to_nat t) (d - 1)))).

(** [sliding_window_view(a, window, axis=2)]: the windows along the last
    axis, one list of [window] values per voxel of the result; the window
    must not be negative nor longer than the axis. *)
Definition sliding_window_view_axis2 (a : ndarray Z) (window : Z)
  : result (ndarray (list Z)) :=
  let '(h, w, d) := shape a in
  if (window <? 0)%Z then Raise ValueError
  else if d <? Z.to_nat window then Raise ValueError
  else Ok (np_build (h, w, d - Z.to_nat window + 1)
             (fun i j k => map (fun m => voxel a i j (k + m)) (seq 0 (Z.to_nat window)))).

Definition get_thick_slices (img_data : ndarray Z) (slice_thickness : Z)
  : result (ndarray (list Z)) :=
  rbind (np_pad_edge_axis2 img_data slice_thickness) (fun img_data_pad =>
  sliding_window_view_axis2 img_data_pad (2 * slice_thickness + 1)).

(** [np.sum(a, axis=(0, 1))] *)
Definition np_sum_axis01 (a : ndarray Z) : list Z :=
  let '(h, w, d) := shape a in
  map (fun k =>
         foldr Z.add 0%Z
           (map (fun i => foldr Z.add 0%Z (map (fun j => voxel a i j k) (seq 0 w))) (seq 0 h)))
    (seq 0 d).

(** [a[:, :, select]] (and [a[:, :, select, :]] on thick slices) with a
    boolean [select]: its length must be that of the axis. *)
Definition select_axis2 {A} (dflt : A) (a : ndarray A) (select : list bool)
  : result (ndarray A) :=
  let '(h, w, d) := shape a in
  if length select =? d
  then Ok (np_build (h, w, length (np_where select))
             (fun i j n => voxel_at dflt a i j (nth n (np_where select) 0)))
  else Raise IndexError.

Definition filter_blank_slices_thick (img_vol : ndarray (list Z)) (label_vol : ndarray Z)
  (weight_vol : ndarray Q) (threshold : Z)
  : result (ndarray (list Z) * ndarray Z * ndarray Q) :=
  (* Get indices of all slices with more than threshold labels/pixels *)
  let select_slices := map (fun s => (threshold <? s)%Z) (np_sum_axis01 label_vol) in
  (* Retain only slices with more than threshold labels/pixels *)
  rbind (select_axis2 [] img_vol select_slices) (fun img_vol =>
  rbind (select_axis2 0%Z label_vol select_slices) (fun label_vol =>
  rbind (select_axis2 0%Q weight_vol select_slices) (fun weight_vol =>
  Ok (img_vol, label_vol, weight_vol)))).

(** ** Cortex border *)

(** [scipy.ndimage.binary_erosion(input, structure)], one iteration,
    voxels outside the volume counting as false. *)
Definition binary_erosion (input : ndarray bool) (structure : list coord) : ndarray bool :=
  NDArray (shape input)
    (map (fun p =>
            forallb (fun o =>
                       let c := shift (unravel (shape input) p) o in
                       in_bounds (shape input) c
                       && nth (ravel (shape input) c) (data input) false)
              structure)
       (seq 0 (length (data input)))).

(** [np.clip(a, a_min, a_max)] *)
Definition np_clip (a : ndarray Z) (a_min a_max : Z) : ndarray Z :=
  amap (fun x => Z.min a_max (Z.max a_min x)) a.

(** The truth value of an integer array. *)
Definition np_truth (a : ndarray Z) : ndarray bool :=
  amap (fun x => negb (x =? 0)%Z) a.

Definition cortex_border_mask (label : ndarray Z) (structure : list coord) (ctx_thresh : Z)
  : ndarray bool :=
  (* create aseg brainmask, erode it and subtract from itself *)
  let bm := np_clip label 0 1 in
  let eroded := binary_erosion (np_truth bm) structure in
  let diff_im := np_xor eroded (np_truth bm) in
  (* only keep values associated with the cortex *)
  let mask := amap (fun x => (x <=? ctx_thresh)%Z) label in
  NDArray (shape diff_im)
    (scatter (data mask) (repeat false (count_true (data mask))) (data diff_im)).

(** ** Splitting the cortex labels into hemispheres *)

(** [m1 | m2] and [np.logical_and(m1, m2)] on boolean arrays of one
    shape. *)
Definition np_or (m1 m2 : ndarray bool) : ndarray bool :=
  NDArray (shape m1) (zip_with orb (data m1) (data m2)).

Definition np_and (m1 m2 : ndarray bool) : ndarray bool :=
  NDArray (shape m1) (zip_with andb (data m1) (data m2)).

(** A boolean mask read as integers. *)
Definition as_int (m : ndarray bool) : ndarray Z :=
  amap (fun b : bool => if b then 1%Z else 0%Z) m.

(** [regionprops(label_img)]: one region per positive label of the
    image, in ascending order of the labels; a region is named by its
    label. *)
Definition regionprops (label_img : ndarray Z) : list Z :=
  filter (fun r => (0 < r)%Z) (np_unique (data label_img)).

Section WithRegionProps.

(** [scipy.ndimage.filters.gaussian_filter(input, sigma)] *)
Variable gaussian_filter : ndarray Q -> Q -> ndarray Q.

(** The centroid of a region of a label image (a tuple of floats), and
    the test [np.linalg.norm(c - a) < np.linalg.norm(c - b)]. *)
Variable point : Type.
Variable centroid : ndarray Z -> Z -> point.
Variable closer : point -> point -> point -> bool.

(** [regionprops(label_img)[0].centroid] *)
Definition first_centroid (label_img : ndarray Z) : result point :=
  match regionprops label_img with
  | [] => Raise IndexError
  | region :: _ => Ok (centroid label_img region)
  end.

(** [for region in regionprops(label_img): ...] *)
Fixpoint split_regions (aparc : loc) (label_img : ndarray Z) (label_current : Z)
  (centroid_rh centroid_lh : point) (regions : list Z) : M unit :=
  match regions with
  | [] => ret tt
  | region :: rest =>
      (if negb (region =? 0)%Z then   (* To avoid background *)
         if closer (centroid label_img region) centroid_rh centroid_lh then
           let mask := np_eq label_img region in
           setitem_mask_scalar aparc mask (label_current + 1000)
         else ret tt
       else ret tt) ;;;
      split_regions aparc label_img label_current centroid_rh centroid_lh rest
  end.

(** [for label_current in labels_list: ...] *)
Fixpoint split_labels (aparc : loc) (centroid_rh centroid_lh : point)
  (labels_list : list Z) : M unit :=
  match labels_list with
  | [] => ret tt
  | label_current :: rest =>
      a <- load aparc ;;
      let label_img := label (as_int (np_eq a label_current)) 3 0 in
      split_regions aparc label_img label_current centroid_rh centroid_lh
        (regionprops label_img) ;;;
      split_labels aparc centroid_rh centroid_lh rest
  end.

(** [for prob_class_lh in [1011, 1019, 1026, 1029]: ...] *)
Fixpoint split_prob_classes (aparc : loc) (lh_rh_split : ndarray nat)
  (classes : list Z) : M unit :=
  match classes with
  | [] => ret tt
  | prob_class_lh :: rest =>
      let prob_class_rh := (prob_class_lh + 1000)%Z in
      a <- load aparc ;;
      let mask_prob_class := np_or (np_eq a prob_class_lh) (np_eq a prob_class_rh) in
      let mask_lh := np_and mask_prob_class (amap (fun i => i =? 0) lh_rh_split) in
      let mask_rh := np_and mask_prob_class (amap (fun i => i =? 1) lh_rh_split) in
      setitem_mask_scalar aparc mask_lh prob_class_lh ;;;
      setitem_mask_scalar aparc mask_rh prob_class_rh ;;;
      split_prob_classes aparc lh_rh_split rest
  end.

Definition labels_list : list Z :=
  [1003; 1006; 1007; 1008; 1009; 1011; 1015; 1018; 1019; 1020; 1025; 1026; 1027;
   1028; 1029; 1030; 1031; 1034; 1035]%Z.

Definition split_cortex_labels (aparc : loc) : M loc :=
  (* Post processing - Splitting classes *)
  a <- load aparc ;;
  rh_wm <- lift (get_largest_cc (as_int (np_eq a 41))) ;;
  lh_wm <- lift (get_largest_cc (as_int (np_eq a 2))) ;;
  let rh_wm := label (as_int rh_wm) 3 0 in
  let lh_wm := label (as_int lh_wm) 3 0 in
  centroid_rh <- lift (first_centroid rh_wm) ;;
  centroid_lh <- lift (first_centroid lh_wm) ;;
  split_labels aparc centroid_rh centroid_lh labels_list ;;;
  (* Quick Fixes for overlapping classes *)
  a <- load aparc ;;
  let aseg_lh :=
    gaussian_filter (amap (fun b : bool => (1000 * (if b then 1 else 0))%Q) (np_eq a 2)) 3%Q in
  let aseg_rh :=
    gaussian_filter (amap (fun b : bool => (1000 * (if b then 1 else 0))%Q) (np_eq a 41)) 3%Q in
  lh_rh_split <- lift (np_argmax_axis3 (length (data a)) [aseg_lh; aseg_rh]) ;;
  let lh_rh_split := NDArray (shape a) lh_rh_split in
  (* Problematic classes: 1026, 1011, 1029, 1019 *)
  split_prob_classes aparc lh_rh_split [1011; 1019; 1026; 1029]%Z ;;;
  ret aparc.

End WithRegionProps.

(** ** Deep sulci and white-matter strands *)

(** The offset on the other side of the centre. *)
Definition reflect (o : coord) : coord :=
  let '(di, dj, dk) := o in (- di, - dj, - dk)%Z.

Section WithClosingUntilStable.

(** [scipy.ndimage.binary_closing(input, structure, iterations)] for
    [iterations < 1]: the dilation, then the erosion, each repeated until
    the result no longer changes. *)
Variable binary_closing_until_stable : ndarray bool -> list coord -> ndarray bool.

(** [scipy.ndimage.binary_closing(input, structure, iterations)]:
    [iterations] dilations with the reflected structuring element, then
    [iterations] erosions. *)
Definition binary_closing (input : ndarray bool) (structure : list coord) (iterations : Z)
  : ndarray bool :=
  if (iterations <? 1)%Z then binary_closing_until_stable input structure
  else
    let n := Z.to_nat iterations in
    let tmp := Nat.iter n (fun a => binary_dilation a (map reflect structure)) input in
    Nat.iter n (fun a => binary_erosion a structure) tmp.

Definition deep_sulci_and_wm_strand_mask (volume : ndarray Z) (structure : list coord)
  (iteration : Z) (ctx_thresh : Z) : ndarray bool :=
  (* Binarize label image (cortex = 1, everything else = 0) *)
  let empty_im := amap (fun x => (ctx_thresh <? x)%Z) volume in
  (* Erode the image *)
  let eroded := binary_closing empty_im structure iteration in
  (* Get difference between eroded and original image *)
  let diff_image := np_xor empty_im eroded in
  diff_image.

End WithClosingUntilStable.

(** * Vocabulary of the properties

    The relations and example volumes in which the properties below are
    stated. *)

(** [a[a == v] = w] rewrites the value [v] to [w]. *)
Definition relabel (v w x : Z) : Z := if (x =? v)%Z then w else x.

(** What [clean_cortex_labels] does to one voxel: the nine rewrites in
    the order of the source. *)
Definition clean_voxel (x : Z) : Z :=
  relabel 42 0 (relabel 3 0 (relabel 61 0 (relabel 29 0 (relabel 72 24
    (relabel 30 2 (relabel 62 41 (relabel 85 0 (relabel 80 77 x)))))))).

(** [writes_only l c]: whatever its outcome, [c] changes no array of the
    store other than the one at [l]; it may allocate new ones. *)
Definition writes_only {A} (l : loc) (c : M A) : Prop :=
  forall h r h', c h = (r, h') ->
    length h <= length h' /\ forall k, k <> l -> k < length h -> h' !! k = h !! k.

(** [returns c a]: when [c] returns, it returns [a]. *)
Definition returns {A} (c : M A) (a : A) : Prop :=
  forall h r h', c h = (Ok r, h') -> r = a.

(** How one voxel fares: kept when it is not [ul], one of the parcels
    [ps] when it is. *)
Definition filled (ul : Z) (ps : list Z) (v y : Z) : Prop :=
  (v <> ul -> y = v) /\ (v = ul -> y ∈ ps).

(** A stand-in for the Gaussian filter in examples: it returns its
    input. *)
Definition ident_filter : ndarray Q -> Q -> ndarray Q := fun a _ => a.

Definition unknown_row : ndarray Z := NDArray (1, 1, 3) [1000; 1003; 17]%Z.

Definition delat_voxel (x : Z) : Z :=
  if ((2000 <=? x) && (x <=? 2999))%Z then (x - 1000)%Z else x.

(** The fourteen right-hemisphere parcels that [fuse_cortex_labels]
    restores after the shift. *)
Definition relateralized : list Z :=
  [2014; 2028; 2012; 2016; 2002; 2023; 2017; 2024; 2010; 2013; 2025; 2022; 2021; 2005]%Z.

(** What [fuse_cortex_labels] does to one voxel, in terms of its
    original value [v] and its final value [y]. *)
Definition fused (v y : Z) : Prop :=
  (v ∈ relateralized -> y = v)
  /\ (v ∉ relateralized -> (2001 <= v <= 2999)%Z -> y = (v - 1000)%Z)
  /\ (v = 2000%Z -> (1001 <= y <= 1999)%Z).

Definition cortex_row : ndarray Z := NDArray (1, 1, 4) [2003; 2014; 2000; 5]%Z.

(** [raises_in E c]: every exception that [c] raises satisfies [E]. *)
Definition raises_in {A} (E : exn -> Prop) (c : M A) : Prop :=
  forall h e h', c h = (Raise e, h') -> E e.

(** The exceptions other than the failed check of the labels. *)
Definition not_label_check (e : exn) : Prop := e <> AssertionError ClassesNotInLabels.

Definition aparc_aseg_row : ndarray Z := NDArray (1, 2, 3) [85; 2; 41; 2003; 2014; 0]%Z.

Definition aparc_aseg_fused : ndarray Z := NDArray (1, 2, 3) [0; 2; 41; 1003; 2014; 0]%Z.

(** A batch of one sample that is [hot] at class [c] and [cold] at the
    other classes. *)
Definition one_hot {T} (n c : nat) (hot cold : T) : prediction T :=
  Prediction n [map (fun k => if k =? c then hot else cold) (seq 0 n)].

Definition lut_example : lut_arg :=
  LutFrame [LutRow 0 "Unknown" (0, 0, 0, 0)%Z;
            LutRow 2 "Left-Cerebral-White-Matter" (245, 245, 245, 0)%Z;
            LutRow 41 "Right-Cerebral-White-Matter" (0, 225, 0, 0)%Z].

(** The voxel [(i, j, k)] lies inside the volume. *)
Definition in_volume (img : ndarray Z) (i j k : nat) : Prop :=
  let '(h, w, d) := shape img in i < h /\ j < w /\ k < d.

Definition two_blobs_tight : ndarray Z :=
  NDArray (1, 1, 61) (repeat 1%Z 50 ++ [0%Z] ++ repeat 1%Z 10).

Definition two_blobs_wide : ndarray Z :=
  NDArray (1, 1, 121) (repeat 1%Z 10 ++ repeat 0%Z 61 ++ repeat 1%Z 50).

(** The nine IDs that [clean_cortex_labels] rewrites. *)
Definition noise_labels : list Z := [80; 85; 62; 30; 72; 29; 61; 3; 42]%Z.

(** A candidate voxel: it carries an ID strictly between [ul] and [cs]
    and one of its neighbours under the dilation element is unknown. *)
Definition candidate_voxel (g : ndarray Z) (ul cs : Z) (i : nat) (p : Z) : Prop :=
  data g !! i = Some p /\ (ul < p < cs)%Z /\
  exists q, q ∈ neighbours (shape g) (generate_binary_structure 2) i
            /\ data g !! q = Some ul.

(** The path of one voxel through [fuse_cortex_labels]: cleaned, filled
    when it is the left unknown 1000, filled when it is the right
    unknown 2000, shifted, and restored when it was allow-listed. *)
Definition fuse_trace (v y : Z) : Prop :=
  exists v2 v3,
    ((clean_voxel v <> 1000%Z -> v2 = clean_voxel v)
     /\ (clean_voxel v = 1000%Z -> (1000 < v2 < 2000)%Z))
    /\ ((v2 <> 2000%Z -> v3 = v2) /\ (v2 = 2000%Z -> (2000 < v3 < 3000)%Z))
    /\ (v ∈ relateralized -> y = v)
    /\ (v ∉ relateralized -> y = delat_voxel v3).

(** What the statements between the two look-ups do to one voxel of the
    preprocessed volume: the shift of the right cortex in [aparc] mode,
    then the rewrites [aseg[aseg == left] = right] in the order of the
    dictionary. *)
Definition sagittal_voxel (processing : string) (sagittal_lut_dict : list (Z * Z)) (v : Z)
  : Z :=
  foldl (fun x '(left_, right_) => relabel left_ right_ x)
    (if String.eqb processing "aparc" then delat_voxel v else v) sagittal_lut_dict.

Definition sagittal_gap_row : ndarray Z := NDArray (1, 1, 3) [0; 2; 17]%Z.

(** An array whose buffer has the size of its shape. *)
Definition well_shaped {A} (a : ndarray A) : Prop :=
  length (data a) = size3 (shape a).

(** The position [c] lies inside the volume and holds a label of the
    brain mask (a positive value). *)
Definition labelled_at (label : ndarray Z) (c : coord) : Prop :=
  in_bounds (shape label) c = true
  /\ exists u, data label !! ravel (shape label) c = Some u /\ (1 <= u)%Z.

(** A 3x3x3 structuring element, given by its offsets. *)
Definition within_3x3x3 (structure : list coord) : Prop :=
  forall di dj dk, (di, dj, dk) ∈ structure ->
    (-1 <= di <= 1)%Z /\ (-1 <= dj <= 1)%Z /\ (-1 <= dk <= 1)%Z.

(** A block of cortex with one voxel missing in the middle. *)
Definition sulcus_block : ndarray Z :=
  NDArray (3, 3, 5) (repeat 40%Z 20 ++ [40; 40; 0; 40; 40]%Z ++ repeat 40%Z 20).

(** [runs_from l t c P]: started in a store that holds [t] at [l], the
    code [c] returns, has written at most the array at [l], and the array
    it leaves there satisfies [P]. *)
Definition runs_from (l : loc) (t : ndarray Z) (c : M unit) (P : ndarray Z -> Prop) : Prop :=
  forall h : heap, h !! l = Some t -> exists t', c h = (Ok tt, <[l := t']> h) /\ P t'.

(** [pointwise R a t]: [t] has the shape and size of [a], and at every
    position [p] the values of [a] and [t] are related by [R p]. *)
Definition pointwise (R : nat -> Z -> Z -> Prop) (a t : ndarray Z) : Prop :=
  shape t = shape a /\ length (data t) = length (data a)
  /\ forall p v c, data a !! p = Some v -> data t !! p = Some c -> R p v c.

(** What the first loop of [split_cortex_labels] may do to a voxel. *)
Definition moved_right (v c : Z) : Prop :=
  c = v \/ (v ∈ labels_list /\ c = (v + 1000)%Z).

(** One round of the second loop on a voxel: [i] is the side chosen by
    the smoothed white matter. *)
Definition resplit (k : Z) (i : nat) (c : Z) : Z :=
  if ((c =? k) || (c =? k + 1000))%Z
  then (if i =? 0 then k else if i =? 1 then (k + 1000)%Z else c)
  else c.

(** The value of a voxel after [split_cortex_labels], from its value [v]
    before and the smoothed left and right white matter at the voxel. *)
Definition split_voxel (lh rh : Q) (v v' : Z) : Prop :=
  match find (fun k => ((v =? k) || (v =? k + 1000))%Z) [1011; 1019; 1026; 1029]%Z with
  | Some k => v' = if Qle_bool rh lh then k else (k + 1000)%Z
  | None => (v ∈ labels_list -> v' = v \/ v' = (v + 1000)%Z)
            /\ (v ∉ labels_list -> v' = v)
  end.

(** * Properties *)

(** ** The monad *)

Lemma bind_ok {A B} (c : M A) (k : A -> M B) h a h' :
  c h = (Ok a, h') -> bind c k h = k a h'.
Proof. unfold bind. intros ->. reflexivity. Qed.

Lemma bind_raise {A B} (c : M A) (k : A -> M B) h e h' :
  c h = (Raise e, h') -> bind c k h = (Raise e, h').
Proof. unfold bind. intros ->. reflexivity. Qed.

Lemma load_ok h l a : h !! l = Some a -> load l h = (Ok a, h).
Proof. unfold load. intros ->. reflexivity. Qed.

Lemma store_data_ok h l a xs :
  h !! l = Some a -> store_data l xs h = (Ok tt, <[l := NDArray (shape a) xs]> h).
Proof. unfold store_data. intros ->. reflexivity. Qed.

Lemma shape_eqb_refl s : shape_eqb s s = true.
Proof. destruct s as [[h w] d]. simpl. rewrite !Nat.eqb_refl. reflexivity. Qed.

Lemma shape_eqb_eq s t : shape_eqb s t = true -> s = t.
Proof.
  destruct s as [[h w] d], t as [[h' w'] d']. simpl.
  rewrite !andb_true_iff, !Nat.eqb_eq. intros [[-> ->] ->]. reflexivity.
Qed.

Lemma lookup_map {A B} (f : A -> B) (l : list A) i : map f l !! i = f <$> (l !! i).
Proof. exact (list_lookup_fmap f l i). Qed.

(** ** Masked reads and writes on flat buffers *)

Lemma count_true_cons b m :
  count_true (b :: m) = if b then S (count_true m) else count_true m.
Proof. destruct b; reflexivity. Qed.

Lemma length_scatter {A} m vals (xs : list A) : length (scatter m vals xs) = length xs.
Proof.
  revert m vals. induction xs as [|x xs IH]; intros m vals; [reflexivity|].
  destruct m as [|[] m]; simpl; [reflexivity| |].
  - destruct vals; simpl; rewrite IH; reflexivity.
  - rewrite IH. reflexivity.
Qed.

Lemma length_gather {A} m (xs : list A) :
  length m = length xs -> length (gather m xs) = count_true m.
Proof.
  revert xs. induction m as [|b m IH]; intros [|x xs] Hlen; try discriminate; [reflexivity|].
  rewrite count_true_cons. simpl in *. destruct b; simpl; rewrite IH by lia; reflexivity.
Qed.

Lemma gather_map {A B} (f : A -> B) m xs : gather m (map f xs) = map f (gather m xs).
Proof.
  revert xs. induction m as [|b m IH]; intros [|x xs]; simpl; try reflexivity.
  destruct b; simpl; rewrite IH; reflexivity.
Qed.

(** Writing a scalar under a mask computed from a buffer [ts] of the
    same length: position by position, [w] where the test holds. *)
Lemma scatter_scalar (P : Z -> bool) w (ts xs : list Z) (R : Z -> Z -> Prop) :
  Forall2 R ts xs ->
  Forall2 (fun t y => exists x, R t x /\ y = if P t then w else x) ts
    (scatter (map P ts) (repeat w (count_true (map P ts))) xs).
Proof.
  induction 1 as [|t x ts xs Hr _ IH]; [constructor|].
  cbn [map]. rewrite count_true_cons. destruct (P t) eqn:HP; simpl.
  - constructor; [exists x; rewrite HP; auto | exact IH].
  - constructor; [exists x; rewrite HP; auto | exact IH].
Qed.

Lemma scatter_scalar_self (P : Z -> bool) w (xs : list Z) :
  scatter (map P xs) (repeat w (count_true (map P xs))) xs
  = map (fun x => if P x then w else x) xs.
Proof.
  induction xs as [|x xs IH]; [reflexivity|].
  cbn [map]. rewrite count_true_cons. destruct (P x); simpl; rewrite IH; reflexivity.
Qed.

(** Writing back, under a mask computed from [ts], the values read under
    the same mask from [ys]. *)
Lemma scatter_gather (P : Z -> bool) (ts ys xs : list Z) (R : Z -> Z -> Prop)
  (S : Z -> Z -> Prop) :
  Forall2 R ts xs -> Forall2 S ts ys ->
  Forall2 (fun t z => exists x y, R t x /\ S t y /\ z = if P t then y else x) ts
    (scatter (map P ts) (gather (map P ts) ys) xs).
Proof.
  intros H. revert ys. induction H as [|t x ts xs Hr _ IH]; intros ys Hs.
  - constructor.
  - inversion Hs as [|t' y ts' ys' Hy Hs']; subst.
    cbn [map gather]. destruct (P t) eqn:HP; simpl.
    + constructor; [exists x, y; rewrite HP; auto | apply IH; assumption].
    + constructor; [exists x, y; rewrite HP; auto | apply IH; assumption].
Qed.

Lemma Forall2_eq_refl {A} (l : list A) : Forall2 eq l l.
Proof. induction l; constructor; auto. Qed.

Lemma Forall2_map_r {A B} (f : A -> B) (l : list A) : Forall2 (fun x y => y = f x) l (map f l).
Proof. induction l; constructor; auto. Qed.

(** ** Running the array statements *)

Lemma setitem_mask_scalar_ok h tgt t m w :
  h !! tgt = Some t -> shape m = shape t ->
  setitem_mask_scalar tgt m w h
  = (Ok tt, <[tgt := NDArray (shape t)
                       (scatter (data m) (repeat w (count_true (data m))) (data t))]> h).
Proof.
  intros Ht Hs. unfold setitem_mask_scalar.
  rewrite (bind_ok _ _ _ _ _ (load_ok _ _ _ Ht)).
  rewrite Hs, shape_eqb_refl. simpl. apply store_data_ok, Ht.
Qed.

Lemma setitem_eq_ok h tgt src t s v w :
  h !! tgt = Some t -> h !! src = Some s -> shape s = shape t ->
  setitem_eq tgt src v w h
  = (Ok tt, <[tgt := NDArray (shape t)
                       (scatter (map (fun x => (x =? v)%Z) (data s))
                          (repeat w (count_true (map (fun x => (x =? v)%Z) (data s))))
                          (data t))]> h).
Proof.
  intros Ht Hsrc Hs. unfold setitem_eq.
  rewrite (bind_ok _ _ _ _ _ (load_ok _ _ _ Hsrc)).
  apply (setitem_mask_scalar_ok h tgt t (np_eq s v) w Ht). exact Hs.
Qed.

Lemma setitem_eq_self h l a v w :
  h !! l = Some a ->
  setitem_eq l l v w h = (Ok tt, <[l := amap (relabel v w) a]> h).
Proof.
  intros Ha. rewrite (setitem_eq_ok h l l a a v w Ha Ha eq_refl).
  rewrite scatter_scalar_self. reflexivity.
Qed.

Lemma setitem_eq_unbound h l v w :
  h !! l = None -> setitem_eq l l v w h = (Raise Unbound, h).
Proof. intros Hl. unfold setitem_eq, bind, load. rewrite Hl. reflexivity. Qed.

Lemma insert_lookup_eq (h : heap) l a x :
  h !! l = Some a -> <[l := x]> h !! l = Some x.
Proof. intros Ha. apply list_lookup_insert_eq. eapply lookup_lt_Some, Ha. Qed.

(** A chain of rewrites of one array collapses to a single write. *)
Lemma setitem_eq_self_then {A} h l a v w (k : M A) :
  h !! l = Some a ->
  (setitem_eq l l v w ;;; k) h = k (<[l := amap (relabel v w) a]> h).
Proof.
  intros Ha. exact (bind_ok _ (fun _ => k) h tt _ (setitem_eq_self h l a v w Ha)).
Qed.

Lemma amap_amap {A B C} (f : A -> B) (g : B -> C) (a : ndarray A) :
  amap g (amap f a) = amap (fun x => g (f x)) a.
Proof. unfold amap. simpl. rewrite map_map. reflexivity. Qed.

(** ** clean_cortex_labels *)

Lemma clean_cortex_labels_ok h l a :
  h !! l = Some a ->
  clean_cortex_labels l h = (Ok l, <[l := amap clean_voxel a]> h).
Proof.
  intros Ha. unfold clean_cortex_labels.
  rewrite (setitem_eq_self_then h l a) by exact Ha.
  do 8 (erewrite setitem_eq_self_then by (eapply insert_lookup_eq, Ha);
        rewrite list_insert_insert_eq, amap_amap).
  reflexivity.
Qed.

Lemma clean_cortex_labels_unbound h l :
  h !! l = None -> clean_cortex_labels l h = (Raise Unbound, h).
Proof.
  intros Hl. unfold clean_cortex_labels.
  apply bind_raise, setitem_eq_unbound, Hl.
Qed.

Lemma relabel_ne v w x : x <> v -> relabel v w x = x.
Proof. unfold relabel. intros H. destruct (Z.eqb_spec x v); [contradiction|reflexivity]. Qed.

(** A voxel is either left alone or sent to one of the five targets. *)
Lemma clean_voxel_cases x :
  clean_voxel x = x \/
  (clean_voxel x = 77 \/ clean_voxel x = 0 \/ clean_voxel x = 41
   \/ clean_voxel x = 2 \/ clean_voxel x = 24)%Z.
Proof.
  unfold clean_voxel.
  repeat match goal with
         | |- context [relabel ?v ?w x] =>
             destruct (Z.eq_dec x v) as [->|?];
             [right; vm_compute; auto 10 | rewrite (relabel_ne v w x) by assumption]
         end.
  left. reflexivity.
Qed.

Lemma clean_voxel_idem x : clean_voxel (clean_voxel x) = clean_voxel x.
Proof.
  destruct (clean_voxel_cases x) as [H|[H|[H|[H|[H|H]]]]]; rewrite H;
    first [exact H | reflexivity].
Qed.

(** C5. [clean_cortex_labels] is idempotent: in every store, and for
    every array of it, cleaning the array that a first cleaning returns
    leaves the store and the returned array as the first cleaning left
    them. *)
Theorem clean_cortex_labels_idempotent (h : heap) (aparc : loc) :
  (aparc' <- clean_cortex_labels aparc ;; clean_cortex_labels aparc') h
  = clean_cortex_labels aparc h.
Proof.
  destruct (h !! aparc) as [a|] eqn:Ha.
  - rewrite (bind_ok _ _ _ _ _ (clean_cortex_labels_ok h aparc a Ha)).
    rewrite (clean_cortex_labels_ok _ aparc (amap clean_voxel a))
      by (eapply insert_lookup_eq, Ha).
    rewrite (clean_cortex_labels_ok h aparc a Ha).
    rewrite list_insert_insert_eq, amap_amap. unfold amap. simpl.
    do 3 f_equal. apply map_ext. intros x. apply clean_voxel_idem.
  - rewrite (clean_cortex_labels_unbound h aparc Ha).
    apply bind_raise, clean_cortex_labels_unbound, Ha.
Qed.

(** ** What a statement may write *)

Lemma writes_only_ret {A} l (a : A) : writes_only l (ret a).
Proof. intros h r h' [= <- <-]. auto. Qed.

Lemma writes_only_raise {A} l e : writes_only l (@raise A e).
Proof. intros h r h' [= <- <-]. auto. Qed.

Lemma writes_only_lift {A} l (x : result A) : writes_only l (lift x).
Proof. intros h r h' [= <- <-]. auto. Qed.

Lemma writes_only_load l l' : writes_only l (load l').
Proof. intros h r h'. unfold load. destruct (h !! l'); intros [= <- <-]; auto. Qed.

Lemma writes_only_store_data l xs : writes_only l (store_data l xs).
Proof.
  intros h r h'. unfold store_data. destruct (h !! l); intros [= <- <-]; [|auto].
  rewrite length_insert. split; [lia|]. intros k Hk _. apply list_lookup_insert_ne. auto.
Qed.

Lemma writes_only_np_copy l l' : writes_only l (np_copy l').
Proof.
  intros h r h'. unfold np_copy. destruct (h !! l'); intros [= <- <-]; [|auto].
  rewrite length_app. split; [lia|]. intros k _ Hk. apply lookup_app_l, Hk.
Qed.

Lemma writes_only_bind {A B} l (c : M A) (k : A -> M B) :
  writes_only l c -> (forall a, writes_only l (k a)) -> writes_only l (bind c k).
Proof.
  intros Hc Hk h r h'. unfold bind. destruct (c h) as [[a|e] h1] eqn:E.
  - intros E'. destruct (Hc _ _ _ E) as [Hlen Hfr], (Hk a _ _ _ E') as [Hlen' Hfr'].
    split; [lia|]. intros k0 Hne Hlt. rewrite Hfr' by (auto; lia). auto.
  - intros [= <- <-]. exact (Hc _ _ _ E).
Qed.

Lemma writes_only_assert l b a : writes_only l (assert_ b a).
Proof. unfold assert_. destruct b; [apply writes_only_ret | apply writes_only_raise]. Qed.

Ltac frame_step :=
  first
    [ apply writes_only_bind; [|intros ?]
    | apply writes_only_ret
    | apply writes_only_raise
    | apply writes_only_lift
    | apply writes_only_load
    | apply writes_only_store_data
    | apply writes_only_np_copy
    | apply writes_only_assert
    | match goal with
      | |- writes_only _ (if ?b then _ else _) => destruct b
      | |- writes_only _ (match ?x with _ => _ end) => destruct x
      end ].

Ltac frame := repeat frame_step.

Lemma writes_only_setitem_mask l m vals : writes_only l (setitem_mask l m vals).
Proof. unfold setitem_mask. frame. Qed.

Lemma writes_only_setitem_eq l src v w : writes_only l (setitem_eq l src v w).
Proof. unfold setitem_eq, setitem_mask_scalar. frame. Qed.

Lemma writes_only_clean l : writes_only l (clean_cortex_labels l).
Proof. unfold clean_cortex_labels. repeat first [apply writes_only_setitem_eq | frame_step]. Qed.

Lemma returns_ret {A} (a : A) : returns (ret a) a.
Proof. intros h r h' [= <- _]. reflexivity. Qed.

Lemma returns_raise {A} e (a : A) : returns (raise e) a.
Proof. intros h r h'. discriminate. Qed.

Lemma returns_bind {A B} (c : M A) (k : A -> M B) b :
  (forall a, returns (k a) b) -> returns (bind c k) b.
Proof.
  intros Hk h r h'. unfold bind. destruct (c h) as [[a|e] h1]; [apply Hk|discriminate].
Qed.

Lemma returns_bind_val {A B} (c : M A) (k : A -> M B) a b :
  returns c a -> returns (k a) b -> returns (bind c k) b.
Proof.
  intros Hc Hk h r h'. unfold bind. destruct (c h) as [[a'|e] h1] eqn:E; [|discriminate].
  rewrite (Hc _ _ _ E). apply Hk.
Qed.

Lemma writes_only_bind_val {A B} l (c : M A) (k : A -> M B) a :
  writes_only l c -> returns c a -> writes_only l (k a) -> writes_only l (bind c k).
Proof.
  intros Hc Hr Hk h r h'. unfold bind. destruct (c h) as [[a'|e] h1] eqn:E.
  - rewrite (Hr _ _ _ E). intros E'.
    destruct (Hc _ _ _ E) as [Hlen Hfr], (Hk _ _ _ E') as [Hlen' Hfr'].
    split; [lia|]. intros k0 Hne Hlt. rewrite Hfr' by (auto; lia). auto.
  - intros [= <- <-]. exact (Hc _ _ _ E).
Qed.

Lemma returns_clean l : returns (clean_cortex_labels l) l.
Proof. unfold clean_cortex_labels. repeat (apply returns_bind; intros ?). apply returns_ret. Qed.

(** ** np.unique, np.any and the argmax *)

Lemma elem_of_insert_unique x y l : x ∈ insert_unique y l <-> x = y \/ x ∈ l.
Proof.
  induction l as [|z l IH]; simpl.
  - rewrite list_elem_of_singleton. split; [auto|]. intros [H|H]; [auto|]. inversion H.
  - destruct (Z.ltb_spec y z); [rewrite !elem_of_cons; tauto|].
    destruct (Z.eqb_spec y z) as [->|Hne].
    + rewrite !elem_of_cons. tauto.
    + rewrite !elem_of_cons, IH. tauto.
Qed.

Lemma elem_of_np_unique x l : x ∈ np_unique l <-> x ∈ l.
Proof.
  unfold np_unique. induction l as [|y l IH]; simpl; [reflexivity|].
  rewrite elem_of_insert_unique, IH, elem_of_cons. reflexivity.
Qed.

Lemma elem_of_gather {A} (x : A) m xs : x ∈ gather m xs -> x ∈ xs.
Proof.
  revert xs. induction m as [|b m IH]; intros [|y xs]; simpl; try (intros H; inversion H; fail).
  destruct b; rewrite ?elem_of_cons; intros H; [destruct H|]; auto.
Qed.

Lemma np_any_eq_false g v :
  np_any (np_eq g v) = false -> Forall (fun x => x <> v) (data g).
Proof.
  unfold np_any, np_eq, amap. simpl. induction (data g) as [|x xs IH]; simpl; [constructor|].
  unfold id at 1. destruct (Z.eqb_spec x v); [discriminate|]. intros H. constructor; auto.
Qed.

Lemma argmax_from_lt bi b i l : bi < i -> argmax_from bi b i l < i + length l.
Proof.
  revert bi b i. induction l as [|x l IH]; intros bi b i Hlt; simpl; [lia|].
  destruct (Qle_bool x b).
  - specialize (IH bi b (S i)). lia.
  - specialize (IH i x (S i)). lia.
Qed.

Lemma argmax_lt l : l <> [] -> argmax l < length l.
Proof.
  destruct l as [|x l]; [congruence|]. intros _. simpl.
  pose proof (argmax_from_lt 0 x 1 l). lia.
Qed.

(** ** fill_unknown_labels_per_hemi *)

Lemma closest_parcels_ok g ul cs :
  exists ps, closest_parcels g ul cs = Ok ps
             /\ forall p, p ∈ ps -> (ul < p < cs)%Z /\ p ∈ data g.
Proof.
  unfold closest_parcels, getitem_mask. simpl. rewrite shape_eqb_refl. simpl.
  eexists. split; [reflexivity|]. intros p Hp.
  apply list_elem_of_filter in Hp as [Hr Hp]. split.
  - apply Is_true_true, andb_true_iff in Hr as [H1 H2]. lia.
  - apply (proj1 (elem_of_np_unique _ _)) in Hp. eapply elem_of_gather, Hp.
Qed.

Lemma setitem_mask_ok h tgt t m vals :
  h !! tgt = Some t -> shape m = shape t -> length vals = count_true (data m) ->
  setitem_mask tgt m vals h
  = (Ok tt, <[tgt := NDArray (shape t) (scatter (data m) vals (data t))]> h).
Proof.
  intros Ht Hs Hlen. unfold setitem_mask.
  rewrite (bind_ok _ _ _ _ _ (load_ok _ _ _ Ht)).
  rewrite Hs, shape_eqb_refl, Hlen, Nat.eqb_refl. simpl. apply store_data_ok, Ht.
Qed.

Section Fill.

Variable gaussian_filter : ndarray Q -> Q -> ndarray Q.

(** The two ways [fill_unknown_labels_per_hemi] ends: with no parcel
    around the unknown region the argmax over an empty axis raises, and
    the array is untouched; otherwise the array is rewritten in place. *)
Lemma fill_unknown_run h l g ul cs :
  h !! l = Some g ->
  exists ps, closest_parcels g ul cs = Ok ps /\
    ((ps = [] /\ fill_unknown_labels_per_hemi gaussian_filter l ul cs h = (Raise ValueError, h))
     \/ (ps <> [] /\ exists g',
           fill_unknown_labels_per_hemi gaussian_filter l ul cs h = (Ok l, <[l := g']> h)
           /\ shape g' = shape g /\ Forall2 (filled ul ps) (data g) (data g'))).
Proof.
  intros Hg. destruct (closest_parcels_ok g ul cs) as (ps & Hps & _).
  exists ps. split; [exact Hps|].
  unfold fill_unknown_labels_per_hemi.
  rewrite (bind_ok _ _ _ _ _ (load_ok _ _ _ Hg)).
  rewrite (bind_ok _ _ h ps h) by (unfold lift; rewrite Hps; reflexivity).
  destruct ps as [|p0 ps'] eqn:Eps; [left; split; reflexivity|].
  right. split; [discriminate|]. rewrite <- Eps in *. clear Hps.
  set (blur := map _ ps).
  assert (Hblur : blur <> []) by (unfold blur; rewrite Eps; discriminate).
  assert (Hbl : length blur = length ps) by (unfold blur; apply length_map).
  unfold np_argmax_axis3. destruct blur as [|b0 blur'] eqn:Eb; [congruence|].
  rewrite <- Eb in *.
  set (um := map _ (seq 0 (length (data g)))).
  erewrite bind_ok by reflexivity.
  unfold getitem_mask. simpl. rewrite shape_eqb_refl.
  erewrite bind_ok by reflexivity.
  assert (Hlen : length (map (fun i => nth i ps 0%Z) um) = length (data g)).
  { unfold um. rewrite !length_map, length_seq. reflexivity. }
  erewrite (bind_ok _ _ h tt); cycle 1.
  { apply (setitem_mask_ok h l g (np_eq g ul)); [exact Hg|reflexivity|].
    simpl. apply length_gather. rewrite length_map. symmetry. exact Hlen. }
  eexists. split; [reflexivity|]. split; [reflexivity|]. simpl.
  assert (Hin : Forall2 (fun _ y => y ∈ ps) (data g) (map (fun i => nth i ps 0%Z) um)).
  { apply Forall2_same_length_lookup_2; [symmetry; exact Hlen|].
    intros i x y _ Hy. rewrite lookup_map in Hy.
    destruct (um !! i) as [j|] eqn:Hj; [|discriminate]. injection Hy as <-.
    unfold um in Hj. rewrite lookup_map in Hj.
    destruct (seq 0 (length (data g)) !! i) as [p|]; [|discriminate]. injection Hj as <-.
    apply list_elem_of_In, nth_In. rewrite <- Hbl.
    rewrite <- (length_map (fun b => nth p (data b) 0%Q) blur).
    apply argmax_lt. rewrite Eb. discriminate. }
  pose proof (scatter_gather (fun x => (x =? ul)%Z) (data g) _ (data g) eq _
                (Forall2_eq_refl (data g)) Hin) as HF.
  revert HF. apply Forall2_impl.
  - intros t z (x & y & -> & Hy & ->). split.
    + intros Hne. destruct (Z.eqb_spec x ul); [contradiction|reflexivity].
    + intros ->. rewrite Z.eqb_refl. exact Hy.
Qed.

Lemma writes_only_fill l ul cs :
  writes_only l (fill_unknown_labels_per_hemi gaussian_filter l ul cs).
Proof.
  unfold fill_unknown_labels_per_hemi.
  repeat first [apply writes_only_setitem_mask | frame_step].
Qed.

Lemma returns_fill l ul cs :
  returns (fill_unknown_labels_per_hemi gaussian_filter l ul cs) l.
Proof.
  unfold fill_unknown_labels_per_hemi.
  repeat (apply returns_bind; intros ?). apply returns_ret.
Qed.

End Fill.

(** C10. [fill_unknown_labels_per_hemi] changes only voxels equal to
    [unknown_label]: whenever it returns, it returns the array it was
    given, rewritten in place with its shape kept; every voxel whose
    value differs from [unknown_label] has its value unchanged, and every
    voxel that was [unknown_label] holds one of the candidate parcels
    ([closest_parcels]), each of which lies strictly between
    [unknown_label] and [cortex_stop]. *)
Theorem fill_unknown_labels_per_hemi_frame
  (gaussian_filter : ndarray Q -> Q -> ndarray Q) (h h' : heap) (gt r : loc)
  (g : ndarray Z) (unknown_label cortex_stop : Z) :
  h !! gt = Some g ->
  fill_unknown_labels_per_hemi gaussian_filter gt unknown_label cortex_stop h = (Ok r, h') ->
  r = gt /\
  exists g' list_parcels,
    h' = <[gt := g']> h /\ shape g' = shape g /\ length (data g') = length (data g) /\
    closest_parcels g unknown_label cortex_stop = Ok list_parcels /\
    forall i v, data g !! i = Some v ->
      exists y, data g' !! i = Some y /\
        (v <> unknown_label -> y = v) /\
        (v = unknown_label ->
           y ∈ list_parcels /\ (unknown_label < y < cortex_stop)%Z).
Proof.
  intros Hg Hrun.
  destruct (closest_parcels_ok g unknown_label cortex_stop) as (ps' & Hps' & Hrange).
  destruct (fill_unknown_run gaussian_filter h gt g unknown_label cortex_stop Hg)
    as (ps & Hps & [[_ Hraise]|(_ & g' & Hok & Hshape & HF)]).
  - rewrite Hraise in Hrun. discriminate.
  - rewrite Hok in Hrun. injection Hrun as <- <-. split; [reflexivity|].
    assert (ps' = ps) as -> by congruence.
    exists g', ps. repeat split; auto.
    + symmetry. eapply Forall2_length, HF.
    + intros i v Hv. destruct (Forall2_lookup_l _ _ _ _ _ HF Hv) as (y & Hy & Hf1 & Hf2).
      exists y. repeat split; auto; apply Hrange; auto.
Qed.

Lemma fill_unknown_labels_per_hemi_frame_witness :
  0 = 0 /\
  exists g' list_parcels,
    [NDArray (1, 1, 3) [1003; 1003; 17]%Z] = <[0 := g']> [unknown_row] /\
    shape g' = shape unknown_row /\ length (data g') = length (data unknown_row) /\
    closest_parcels unknown_row 1000 2000 = Ok list_parcels /\
    forall i v, data unknown_row !! i = Some v ->
      exists y, data g' !! i = Some y /\
        (v <> 1000%Z -> y = v) /\
        (v = 1000%Z -> y ∈ list_parcels /\ (1000 < y < 2000)%Z).
Proof.
  exact (fill_unknown_labels_per_hemi_frame ident_filter [unknown_row]
           [NDArray (1, 1, 3) [1003; 1003; 17]%Z] 0 0 unknown_row 1000 2000
           eq_refl eq_refl).
Defined.

(** ** delateralize and fuse_cortex_labels *)

Lemma scatter_gather_self (P : Z -> bool) (f : Z -> Z) (xs : list Z) :
  scatter (map P xs) (map f (gather (map P xs) xs)) xs
  = map (fun x => if P x then f x else x) xs.
Proof.
  induction xs as [|x xs IH]; [reflexivity|].
  cbn [map gather]. destruct (P x); simpl; rewrite IH; reflexivity.
Qed.

Lemma delateralize_ok h l x :
  h !! l = Some x -> delateralize l h = (Ok tt, <[l := amap delat_voxel x]> h).
Proof.
  intros Hx. unfold delateralize.
  rewrite (bind_ok _ _ _ _ _ (load_ok _ _ _ Hx)).
  unfold getitem_mask. simpl. rewrite shape_eqb_refl.
  erewrite bind_ok by reflexivity.
  rewrite (setitem_mask_ok h l x); [| exact Hx | reflexivity |].
  - simpl. rewrite scatter_gather_self. reflexivity.
  - simpl. rewrite length_map. apply length_gather. rewrite length_map. reflexivity.
Qed.

Lemma writes_only_delateralize l : writes_only l (delateralize l).
Proof. unfold delateralize. repeat first [apply writes_only_setitem_mask | frame_step]. Qed.

Lemma clean_voxel_big x : (85 < x)%Z -> clean_voxel x = x.
Proof.
  intros Hx. unfold clean_voxel.
  rewrite (relabel_ne 80), (relabel_ne 85), (relabel_ne 62), (relabel_ne 30),
    (relabel_ne 72), (relabel_ne 29), (relabel_ne 61), (relabel_ne 3), (relabel_ne 42)
    by lia.
  reflexivity.
Qed.

Section Fuse.

Variable gaussian_filter : ndarray Q -> Q -> ndarray Q.

(** The guarded fill of [fuse_cortex_labels]. *)
Lemma guarded_fill_run h l g ul cs :
  h !! l = Some g ->
  let c := if np_any (np_eq g ul)
           then fill_unknown_labels_per_hemi gaussian_filter l ul cs
           else ret l in
  c h = (Raise ValueError, h)
  \/ exists g', c h = (Ok l, <[l := g']> h) /\ shape g' = shape g
                /\ Forall2 (fun v y => (v <> ul -> y = v) /\ (v = ul -> (ul < y < cs)%Z))
                     (data g) (data g').
Proof.
  intros Hg c. subst c. destruct (np_any (np_eq g ul)) eqn:Hany.
  - destruct (closest_parcels_ok g ul cs) as (ps' & Hps' & Hrange).
    destruct (fill_unknown_run gaussian_filter h l g ul cs Hg)
      as (ps & Hps & [[_ Hr]|(_ & g' & Hok & Hs & HF)]); [left; exact Hr|].
    right. exists g'. repeat split; auto.
    assert (ps' = ps) as -> by congruence.
    revert HF. apply Forall2_impl. intros v y [H1 H2]. split; [exact H1|].
    intros Hv. apply Hrange, H2, Hv.
  - right. exists g. rewrite (list_insert_id _ _ _ Hg). repeat split; auto.
    apply np_any_eq_false in Hany.
    apply Forall2_same_length_lookup_2; [reflexivity|].
    intros i x y Hx Hy. assert (x = y) as <- by congruence.
    split; [reflexivity|]. intros ->.
    exfalso. exact (Forall_lookup_1 _ _ _ _ Hany Hx eq_refl).
Qed.

(** One re-lateralizing statement, [aparc[aparc_temp == v] = v], run
    while [aparc] holds [x] and [aparc_temp] holds the original [a]. *)
Lemma relateralize_step {A} (k : M A) h0 l temp a x v (Rel : Z -> Z -> Prop) :
  l < length h0 -> l <> temp -> h0 !! temp = Some a ->
  shape x = shape a -> Forall2 Rel (data a) (data x) ->
  exists x',
    (setitem_eq l temp v v ;;; k) (<[l := x]> h0) = k (<[l := x']> h0)
    /\ shape x' = shape a
    /\ Forall2 (fun t y => exists x0, Rel t x0 /\ y = if (t =? v)%Z then v else x0)
         (data a) (data x').
Proof.
  intros Hl Hne Ht Hs HF.
  eexists. split; [|split].
  - erewrite (bind_ok _ _ _ tt); [reflexivity|].
    rewrite (setitem_eq_ok _ l temp x a v v).
    + rewrite list_insert_insert_eq. reflexivity.
    + apply list_lookup_insert_eq, Hl.
    + rewrite list_lookup_insert_ne by exact Hne. exact Ht.
    + symmetry. exact Hs.
  - simpl. exact Hs.
  - simpl. apply scatter_scalar. exact HF.
Qed.

Lemma fuse_cortex_labels_ok h l a r h' :
  h !! l = Some a ->
  fuse_cortex_labels gaussian_filter l h = (Ok r, h') ->
  r = l /\ exists a', h' = <[l := a']> (h ++ [a]) /\ shape a' = shape a
                      /\ Forall2 fused (data a) (data a').
Proof.
  intros Ha. unfold fuse_cortex_labels.
  assert (Hl : l < length (h ++ [a])).
  { rewrite length_app. apply lookup_lt_Some in Ha. lia. }
  assert (Hne : l <> length h) by (apply lookup_lt_Some in Ha; lia).
  assert (Ht : (h ++ [a]) !! length h = Some a) by apply list_lookup_middle, eq_refl.
  assert (Ha1 : (h ++ [a]) !! l = Some a).
  { rewrite lookup_app_l by (eapply lookup_lt_Some, Ha). exact Ha. }
  erewrite bind_ok by (unfold np_copy; rewrite Ha; reflexivity).
  set (h0 := h ++ [a]) in *.
  rewrite (bind_ok _ _ _ _ _ (clean_cortex_labels_ok h0 l a Ha1)).
  set (a1 := amap clean_voxel a).
  assert (H1 : <[l := a1]> h0 !! l = Some a1) by apply list_lookup_insert_eq, Hl.
  rewrite (bind_ok _ _ _ _ _ (load_ok _ _ _ H1)).
  destruct (guarded_fill_run _ l a1 1000 2000 H1) as [Hr|(a2 & Hr & Hs2 & HF2)]; simpl in Hr.
  { rewrite (bind_raise _ _ _ _ _ Hr). discriminate. }
  rewrite (bind_ok _ _ _ _ _ Hr). rewrite list_insert_insert_eq. clear Hr H1.
  assert (H2 : <[l := a2]> h0 !! l = Some a2) by apply list_lookup_insert_eq, Hl.
  rewrite (bind_ok _ _ _ _ _ (load_ok _ _ _ H2)).
  destruct (guarded_fill_run _ l a2 2000 3000 H2) as [Hr|(a3 & Hr & Hs3 & HF3)]; simpl in Hr.
  { rewrite (bind_raise _ _ _ _ _ Hr). discriminate. }
  rewrite (bind_ok _ _ _ _ _ Hr). rewrite list_insert_insert_eq. clear Hr H2.
  assert (H3 : <[l := a3]> h0 !! l = Some a3) by apply list_lookup_insert_eq, Hl.
  rewrite (bind_ok _ _ _ tt _ (delateralize_ok _ l a3 H3)).
  rewrite list_insert_insert_eq. clear H3.
  (* the relation between the original and the de-lateralized volume *)
  assert (HF : Forall2 (fun v y => exists v1 v2, v1 = clean_voxel v
                 /\ ((v1 <> 1000 -> v2 = v1) /\ (v1 = 1000 -> 1000 < v2 < 2000))
                 /\ exists v3, ((v2 <> 2000 -> v3 = v2) /\ (v2 = 2000 -> 2000 < v3 < 3000))
                 /\ y = delat_voxel v3)%Z (data a) (data (amap delat_voxel a3))).
  { apply Forall2_same_length_lookup_2.
    - assert (Hlen3 := HF3). apply Forall2_length in Hlen3.
      assert (Hlen2 := HF2). apply Forall2_length in Hlen2.
      simpl. rewrite length_map, <- Hlen3, <- Hlen2.
      unfold a1. simpl. rewrite length_map. reflexivity.
    - intros i v y Hv Hy. simpl in Hy. rewrite lookup_map in Hy.
      destruct (data a3 !! i) as [v3|] eqn:Hv3; [|discriminate]. injection Hy as <-.
      destruct (Forall2_lookup_r _ _ _ _ _ HF3 Hv3) as (v2 & Hv2 & Hf3).
      destruct (Forall2_lookup_r _ _ _ _ _ HF2 Hv2) as (v1 & Hv1 & Hf2).
      unfold a1 in Hv1. simpl in Hv1. rewrite lookup_map, Hv in Hv1. injection Hv1 as <-.
      exists (clean_voxel v), v2. split; [reflexivity|]. split; [exact Hf2|].
      exists v3. split; [exact Hf3|reflexivity]. }
  assert (Hs : shape (amap delat_voxel a3) = shape a).
  { simpl. rewrite Hs3, Hs2. reflexivity. }
  revert HF Hs. generalize (amap delat_voxel a3). clear - Hl Hne Ht.
  intros x HF Hs.
  repeat match goal with
         | HF : Forall2 ?Rel (data a) (data ?x), Hs : shape ?x = shape a
           |- context [bind (setitem_eq l _ ?v ?v) (fun _ => ?k) (<[l := ?x]> h0)] =>
             let x' := fresh "x" in
             let Heq := fresh "Heq" in
             let HF' := fresh "HF" in
             let Hs' := fresh "Hs" in
             destruct (relateralize_step k h0 l (length h) a x v Rel Hl Hne Ht Hs HF)
               as (x' & Heq & Hs' & HF');
             rewrite Heq; clear Heq HF Hs; try clear x
         end.
  unfold ret. intros [= <- <-]. split; [reflexivity|].
  match goal with
  | HF : Forall2 _ (data a) (data ?x), Hs : shape ?x = shape a |- _ =>
      exists x; split; [reflexivity|]; split; [exact Hs|]; revert HF
  end.
  apply Forall2_impl. clear.
  intros v y H.
  repeat match goal with
         | H : exists _, _ |- _ => destruct H
         | H : _ /\ _ |- _ => destruct H
         end.
  subst. unfold fused. split; [|split].
  - intros Hin. apply list_elem_of_In in Hin. simpl in Hin.
    repeat (destruct Hin as [<-|Hin]; [reflexivity|]). contradiction.
  - intros Hnin Hrange.
    repeat match goal with
           | |- context [(v =? ?c)%Z] =>
               destruct (Z.eqb_spec v c) as [->|_];
               [exfalso; apply Hnin, list_elem_of_In; simpl; tauto|]
           end.
    rewrite (clean_voxel_big v) in * by lia.
    unfold delat_voxel.
    match goal with |- context [if ?b then _ else _] => destruct b eqn:E end; lia.
  - intros ->. change (clean_voxel 2000) with 2000%Z in *. cbn [Z.eqb Pos.eqb].
    unfold delat_voxel.
    match goal with |- context [if ?b then _ else _] => destruct b eqn:E end; lia.
Qed.

Lemma returns_fuse l : returns (fuse_cortex_labels gaussian_filter l) l.
Proof.
  unfold fuse_cortex_labels.
  apply returns_bind. intros temp.
  apply (returns_bind_val _ _ l); [apply returns_clean|].
  apply returns_bind. intros a1.
  apply (returns_bind_val _ _ l); [destruct (np_any _); [apply returns_fill|apply returns_ret]|].
  apply returns_bind. intros a2.
  apply (returns_bind_val _ _ l); [destruct (np_any _); [apply returns_fill|apply returns_ret]|].
  repeat (apply returns_bind; intros ?). apply returns_ret.
Qed.

Lemma writes_only_fuse l : writes_only l (fuse_cortex_labels gaussian_filter l).
Proof.
  unfold fuse_cortex_labels.
  apply writes_only_bind; [apply writes_only_np_copy|]. intros temp.
  apply (writes_only_bind_val l _ _ l); [apply writes_only_clean|apply returns_clean|].
  apply writes_only_bind; [apply writes_only_load|]. intros a1.
  apply (writes_only_bind_val l _ _ l).
  { destruct (np_any _); [apply writes_only_fill|apply writes_only_ret]. }
  { destruct (np_any _); [apply returns_fill|apply returns_ret]. }
  apply writes_only_bind; [apply writes_only_load|]. intros a2.
  apply (writes_only_bind_val l _ _ l).
  { destruct (np_any _); [apply writes_only_fill|apply writes_only_ret]. }
  { destruct (np_any _); [apply returns_fill|apply returns_ret]. }
  repeat first [apply writes_only_delateralize | apply writes_only_setitem_eq | frame_step].
Qed.

End Fuse.

(** C4 (as stated, refuted). A voxel whose original value is 2000, the
    right-hemisphere "unknown" label, lies in [2000, 2999] and outside
    the allow-list, yet it does not end as 1000: it is first filled with
    a neighbouring parcel (here 2003), and that parcel is what gets
    shifted. *)
Lemma fuse_cortex_labels_unknown_counterexample :
  (forall gaussian_filter,
      fuse_cortex_labels gaussian_filter 0 [NDArray (1, 1, 2) [2000; 2003]%Z]
      = (Ok 0, [NDArray (1, 1, 2) [1003; 1003]%Z; NDArray (1, 1, 2) [2000; 2003]%Z]))
  /\ (2000 <= 2000 <= 2999)%Z /\ (2000%Z ∉ relateralized) /\ (1003 <> 2000 - 1000)%Z.
Proof.
  split; [intros gf; vm_compute; reflexivity|].
  split; [lia|]. split; [|lia].
  intros H. apply list_elem_of_In in H. simpl in H. intuition discriminate.
Qed.

(** ** The look-up table mapping *)

Lemma foldl_max_ge x l : (x <= foldl Z.max x l)%Z /\ Forall (fun v => v <= foldl Z.max x l)%Z l.
Proof.
  revert x. induction l as [|y l IH]; intros x; simpl; [split; [lia|constructor]|].
  destruct (IH (Z.max x y)) as [H1 H2]. split; [lia|]. constructor; [lia|exact H2].
Qed.

Lemma py_max_ge l m : py_max l = Ok m -> Forall (fun v => v <= m)%Z l.
Proof.
  destruct l as [|x l]; [discriminate|]. intros [= <-].
  destruct (foldl_max_ge x l) as [H1 H2]. constructor; assumption.
Qed.

Lemma np_index_nonneg n v :
  (0 <= v < Z.of_nat n)%Z -> np_index n v = Ok (Z.to_nat v).
Proof.
  intros Hv. unfold np_index.
  destruct (Z.leb_spec 0 v); [|lia]. destruct (Z.ltb_spec v (Z.of_nat n)); [|lia].
  reflexivity.
Qed.

(** After the loop over [enumerate(labels)], the table holds at every
    listed value a position of that value in the list (the last one),
    and is unchanged elsewhere. *)
Lemma fill_lut_spec labels : forall lut idx,
  Forall (fun v => 0 <= v < Z.of_nat (length lut))%Z labels ->
  exists lut', fill_lut lut idx labels = Ok lut' /\ length lut' = length lut /\
    forall v, (0 <= v)%Z ->
      (v ∈ labels -> exists j, labels !! j = Some v
                               /\ lut' !! Z.to_nat v = Some (Z.of_nat (idx + j)))
      /\ (v ∉ labels -> lut' !! Z.to_nat v = lut !! Z.to_nat v).
Proof.
  induction labels as [|value rest IH]; intros lut idx Hall.
  - exists lut. split; [reflexivity|]. split; [reflexivity|]. intros v _. split.
    + intros H. inversion H.
    + reflexivity.
  - inversion Hall as [|? ? Hvalue Hrest]; subst. simpl.
    rewrite (np_index_nonneg _ _ Hvalue). simpl.
    destruct (IH (<[Z.to_nat value := Z.of_nat idx]> lut) (S idx)) as (lut' & -> & Hlen & Hspec).
    { rewrite length_insert. exact Hrest. }
    exists lut'. split; [reflexivity|]. rewrite length_insert in Hlen. split; [exact Hlen|].
    intros v Hv. destruct (Hspec v Hv) as [Hin Hnin].
    destruct (decide (v ∈ rest)) as [Hr|Hr].
    + split; [|intros Hn; exfalso; apply Hn; right; exact Hr].
      intros _. destruct (Hin Hr) as (j & Hj & Hl). exists (S j). split; [exact Hj|].
      rewrite Hl. f_equal. lia.
    + rewrite (Hnin Hr). split.
      * intros Hc. apply elem_of_cons in Hc as [->|Hc]; [|contradiction].
        exists 0. split; [reflexivity|].
        rewrite list_lookup_insert_eq by lia. f_equal. lia.
      * intros Hc. apply list_lookup_insert_ne. intros Heq.
        apply Hc, elem_of_cons. left. lia.
Qed.

Lemma np_take_spec lut (labels idxs : list Z) :
  (forall v, v ∈ idxs -> (0 <= v < Z.of_nat (length lut))%Z
                         /\ exists j, labels !! j = Some v
                                      /\ lut !! Z.to_nat v = Some (Z.of_nat j)) ->
  exists out, np_take lut idxs = Ok out
              /\ Forall2 (fun v y => exists j, y = Z.of_nat j /\ labels !! j = Some v) idxs out.
Proof.
  unfold np_take. induction idxs as [|v idxs IH]; intros Hall.
  - exists []. split; [reflexivity|constructor].
  - destruct IH as (out & Hout & HF).
    { intros v' Hv'. apply Hall. right. exact Hv'. }
    destruct (Hall v) as (Hr & j & Hj & Hl); [apply elem_of_cons; left; reflexivity|].
    simpl. rewrite (np_index_nonneg _ _ Hr). simpl. rewrite Hout. simpl.
    eexists. split; [reflexivity|]. constructor; [|exact HF].
    exists j. split; [|exact Hj]. apply nth_lookup_Some with (d := 0%Z) in Hl. exact Hl.
Qed.

(** With non-negative labels, and every value of the volume listed, the
    mapping succeeds and sends every voxel to a position of its value. *)
Lemma lut_mapping_ok labels a :
  labels <> [] -> Forall (fun v => 0 <= v)%Z labels ->
  (forall v, v ∈ data a -> v ∈ labels) ->
  exists m, lut_mapping labels a = Ok m /\ shape m = shape a /\
    Forall2 (fun v y => exists j, y = Z.of_nat j /\ labels !! j = Some v) (data a) (data m).
Proof.
  intros Hne Hpos Hin. unfold lut_mapping.
  destruct (py_max labels) as [m|] eqn:Hmax; [|destruct labels; [congruence|discriminate]].
  pose proof (py_max_ge _ _ Hmax) as Hle. simpl.
  assert (Hm : (0 <= m)%Z).
  { destruct labels as [|x l]; [congruence|].
    inversion Hpos; subst. inversion Hle; subst. lia. }
  unfold np_zeros. destruct (Z.ltb_spec (m + 1) 0); [lia|]. simpl.
  destruct (fill_lut_spec labels (repeat 0%Z (Z.to_nat (m + 1))) 0) as (lut & -> & Hlen & Hspec).
  { rewrite repeat_length. rewrite Forall_forall in Hpos, Hle |- *.
    intros v Hv. specialize (Hpos v Hv). specialize (Hle v Hv). lia. }
  simpl. rewrite repeat_length in Hlen.
  destruct (np_take_spec lut labels (data a)) as (out & -> & HF).
  { intros v Hv. apply Hin in Hv. rewrite Forall_forall in Hpos, Hle.
    specialize (Hpos v (proj1 (list_elem_of_In _ _) Hv)).
    specialize (Hle v (proj1 (list_elem_of_In _ _) Hv)). split; [lia|].
    destruct (Hspec v Hpos) as [H1 _]. destruct (H1 Hv) as (j & Hj & Hl).
    exists j. split; [exact Hj|exact Hl]. }
  simpl. eexists. split; [reflexivity|]. split; [reflexivity|exact HF].
Qed.

Lemma np_index_raises n v e : np_index n v = Raise e -> e = IndexError.
Proof. unfold np_index. repeat case_match; congruence. Qed.

Lemma fill_lut_raises labels : forall lut idx e,
  fill_lut lut idx labels = Raise e -> e = IndexError.
Proof.
  induction labels as [|v rest IH]; intros lut idx e; simpl; [discriminate|].
  destruct (np_index _ v) eqn:E; simpl; [apply IH|].
  intros [= <-]. eapply np_index_raises, E.
Qed.

Lemma np_take_raises lut idxs e : np_take lut idxs = Raise e -> e = IndexError.
Proof.
  unfold np_take. induction idxs as [|v idxs IH]; simpl; [discriminate|].
  destruct (np_index _ v) eqn:E; simpl.
  - destruct (rmapM _ idxs); simpl; [discriminate|]. intros [= <-]. apply IH. reflexivity.
  - intros [= <-]. eapply np_index_raises, E.
Qed.

Lemma lut_mapping_raises labels a e :
  lut_mapping labels a = Raise e -> e = ValueError \/ e = IndexError.
Proof.
  unfold lut_mapping.
  destruct (py_max labels) as [m|e0] eqn:Hmax; simpl.
  2:{ destruct labels; [|discriminate]. injection Hmax as <-. intros [= <-]. auto. }
  unfold np_zeros. destruct (m + 1 <? 0)%Z; simpl; [intros [= <-]; auto|].
  destruct (fill_lut _ 0 labels) as [lut|e1] eqn:Hf; simpl.
  2:{ intros [= <-]. right. eapply fill_lut_raises, Hf. }
  destruct (np_take lut (data a)) as [out|e2] eqn:Ht; simpl; [discriminate|].
  intros [= <-]. right. eapply np_take_raises, Ht.
Qed.

Lemma issuperset_spec labels a :
  issuperset labels a = true <-> forall v, v ∈ data a -> v ∈ labels.
Proof.
  unfold issuperset. rewrite forallb_forall. split.
  - intros H v Hv. apply elem_of_np_unique, list_elem_of_In, H in Hv.
    apply existsb_exists in Hv as (x & Hx & Heq). apply Z.eqb_eq in Heq. subst.
    apply list_elem_of_In, Hx.
  - intros H v Hv. apply list_elem_of_In, elem_of_np_unique, H in Hv.
    apply existsb_exists. exists v. split; [apply list_elem_of_In, Hv|apply Z.eqb_refl].
Qed.

(** ** Which exceptions a statement may raise *)

Lemma raises_ret {A} E (a : A) : raises_in E (ret a).
Proof. intros h e h'. discriminate. Qed.

Lemma raises_raise {A} (E : exn -> Prop) e : E e -> raises_in E (@raise A e).
Proof. intros He h e' h' [= <- _]. exact He. Qed.

Lemma raises_lift {A} (E : exn -> Prop) (r : result A) :
  (forall e, r = Raise e -> E e) -> raises_in E (lift r).
Proof. intros Hr h e h' [= -> _]. apply Hr. reflexivity. Qed.

Lemma raises_load (E : exn -> Prop) l : E Unbound -> raises_in E (load l).
Proof. intros He h e h'. unfold load. destruct (h !! l); intros [= <- _]. exact He. Qed.

Lemma raises_store_data (E : exn -> Prop) l xs : E Unbound -> raises_in E (store_data l xs).
Proof. intros He h e h'. unfold store_data. destruct (h !! l); intros [= <- _]. exact He. Qed.

Lemma raises_np_copy (E : exn -> Prop) l : E Unbound -> raises_in E (np_copy l).
Proof. intros He h e h'. unfold np_copy. destruct (h !! l); intros [= <- _]. exact He. Qed.

Lemma raises_bind {A B} E (c : M A) (k : A -> M B) :
  raises_in E c -> (forall a, raises_in E (k a)) -> raises_in E (bind c k).
Proof.
  intros Hc Hk h e h'. unfold bind. destruct (c h) as [[a|e0] h1] eqn:Hr.
  - apply Hk.
  - intros [= <- _]. eapply Hc, Hr.
Qed.

Lemma raises_assert (E : exn -> Prop) b a :
  E (AssertionError a) -> raises_in E (assert_ b a).
Proof. intros He. unfold assert_. destruct b; [apply raises_ret|apply raises_raise, He]. Qed.

Lemma getitem_mask_raises {A} (a : ndarray A) m e :
  getitem_mask a m = Raise e -> e = IndexError.
Proof. unfold getitem_mask. destruct (shape_eqb _ _); congruence. Qed.

Ltac other_exn := unfold not_label_check; discriminate.

Ltac raises_step :=
  first
    [ apply raises_bind; [|intros ?]
    | apply raises_ret
    | apply raises_raise; other_exn
    | apply raises_load; other_exn
    | apply raises_store_data; other_exn
    | apply raises_np_copy; other_exn
    | apply raises_assert; other_exn
    | apply raises_lift;
      let e := fresh "e" in
      let H := fresh "H" in
      intros e H;
      first [ apply getitem_mask_raises in H; subst e; other_exn ]
    | match goal with
      | |- raises_in _ (if ?b then _ else _) => destruct b
      | |- raises_in _ (match ?x with _ => _ end) => destruct x
      end ].

Lemma raises_setitem_mask l m vals : raises_in not_label_check (setitem_mask l m vals).
Proof. unfold setitem_mask. repeat raises_step. Qed.

Lemma raises_setitem_eq l src v w : raises_in not_label_check (setitem_eq l src v w).
Proof. unfold setitem_eq, setitem_mask_scalar. repeat raises_step. Qed.

Lemma raises_clean l : raises_in not_label_check (clean_cortex_labels l).
Proof. unfold clean_cortex_labels. repeat first [apply raises_setitem_eq | raises_step]. Qed.

Lemma raises_delateralize l : raises_in not_label_check (delateralize l).
Proof. unfold delateralize. repeat first [apply raises_setitem_mask | raises_step]. Qed.

Lemma raises_map_sagittal_labels l items :
  raises_in not_label_check (map_sagittal_labels l items).
Proof.
  induction items as [|[x y] items IH]; simpl; [apply raises_ret|].
  apply raises_bind; [apply raises_setitem_eq|intros _; exact IH].
Qed.

Lemma writes_only_map_sagittal_labels l items : writes_only l (map_sagittal_labels l items).
Proof.
  induction items as [|[x y] items IH]; simpl; [apply writes_only_ret|].
  apply writes_only_bind; [apply writes_only_setitem_eq|intros _; exact IH].
Qed.

Lemma map_sagittal_labels_ok items : forall h l x,
  h !! l = Some x ->
  exists x', map_sagittal_labels l items h = (Ok tt, <[l := x']> h).
Proof.
  induction items as [|[v w] items IH]; intros h l x Hx; simpl.
  - exists x. rewrite (list_insert_id _ _ _ Hx). reflexivity.
  - rewrite (setitem_eq_self_then h l x v w _ Hx).
    destruct (IH (<[l := amap (relabel v w) x]> h) l (amap (relabel v w) x)) as (x' & ->).
    { eapply insert_lookup_eq, Hx. }
    exists x'. rewrite list_insert_insert_eq. reflexivity.
Qed.

Section MapAparcAseg.

Variable gaussian_filter : ndarray Q -> Q -> ndarray Q.

Lemma raises_fill l ul cs :
  raises_in not_label_check (fill_unknown_labels_per_hemi gaussian_filter l ul cs).
Proof.
  unfold fill_unknown_labels_per_hemi.
  apply raises_bind; [raises_step|intros g].
  apply raises_bind.
  { apply raises_lift. intros e H.
    destruct (closest_parcels_ok g ul cs) as (ps & Hps & _). congruence. }
  intros ps. apply raises_bind.
  { apply raises_lift. intros e. unfold np_argmax_axis3.
    destruct (map _ ps); [intros [= <-]; other_exn|discriminate]. }
  intros um. repeat first [apply raises_setitem_mask | raises_step].
Qed.

Lemma raises_fuse l : raises_in not_label_check (fuse_cortex_labels gaussian_filter l).
Proof.
  unfold fuse_cortex_labels.
  repeat first [ apply raises_clean | apply raises_fill | apply raises_delateralize
               | apply raises_setitem_eq | raises_step ].
Qed.

Lemma raises_preprocess aseg nocc processing :
  raises_in not_label_check (preprocess_aseg gaussian_filter aseg nocc processing).
Proof.
  unfold preprocess_aseg.
  repeat first [ apply raises_fuse | apply raises_setitem_mask
               | apply raises_setitem_eq | raises_step ].
Qed.

Lemma returns_preprocess aseg nocc processing :
  returns (preprocess_aseg gaussian_filter aseg nocc processing) aseg.
Proof.
  unfold preprocess_aseg. apply returns_bind. intros _.
  destruct (String.eqb processing "aparc"); [apply returns_fuse|].
  destruct (String.eqb processing "aseg"); [|apply returns_ret].
  repeat (apply returns_bind; intros ?). apply returns_ret.
Qed.

Lemma writes_only_preprocess aseg nocc processing :
  writes_only aseg (preprocess_aseg gaussian_filter aseg nocc processing).
Proof.
  unfold preprocess_aseg.
  repeat first [ apply writes_only_fuse | apply writes_only_setitem_mask
               | apply writes_only_setitem_eq | frame_step ].
Qed.

(** The statements of [map_aparc_aseg2label] after the full-space
    mapping: they cannot fail before the sagittal look-up. *)
Lemma sagittal_tail_run h aseg a1 (processing : string) dict labels_sag (mapped : ndarray Z) :
  h !! aseg = Some a1 ->
  exists a2,
    ((if String.eqb processing "aparc" then delateralize aseg else ret tt) ;;;
     map_sagittal_labels aseg dict ;;;
     a <- load aseg ;;
     mapped_aseg_sag <- lift (lut_mapping labels_sag a) ;;
     ret (mapped, mapped_aseg_sag)) h
    = (rbind (lut_mapping labels_sag a2) (fun ms => Ok (mapped, ms)), <[aseg := a2]> h).
Proof.
  intros Ha1.
  assert (exists a', (if String.eqb processing "aparc" then delateralize aseg else ret tt) h
                     = (Ok tt, <[aseg := a']> h)) as (a' & Hd).
  { destruct (String.eqb processing "aparc").
    - eexists. apply delateralize_ok, Ha1.
    - exists a1. rewrite (list_insert_id _ _ _ Ha1). reflexivity. }
  rewrite (bind_ok _ _ _ tt _ Hd).
  destruct (map_sagittal_labels_ok dict (<[aseg := a']> h) aseg a') as (a2 & Hm).
  { eapply insert_lookup_eq, Ha1. }
  rewrite (bind_ok _ _ _ tt _ Hm). rewrite list_insert_insert_eq.
  exists a2.
  erewrite bind_ok by (apply load_ok; eapply insert_lookup_eq, Ha1).
  unfold bind, lift, ret. destruct (lut_mapping labels_sag a2); reflexivity.
Qed.

(** The ways [map_aparc_aseg2label] ends once the preprocessing has
    returned. *)
Lemma map_aparc_aseg2label_run h h1 aseg l1 a1 labels labels_sag dict nocc processing :
  preprocess_aseg gaussian_filter aseg nocc processing h = (Ok l1, h1) ->
  h1 !! aseg = Some a1 ->
  let run := map_aparc_aseg2label gaussian_filter aseg labels labels_sag dict nocc processing h in
  (issuperset labels a1 = false /\ run = (Raise (AssertionError ClassesNotInLabels), h1))
  \/ (issuperset labels a1 = true /\
      ((exists e, lut_mapping labels a1 = Raise e /\ run = (Raise e, h1))
       \/ (exists mapped a2, lut_mapping labels a1 = Ok mapped /\
             run = (rbind (lut_mapping labels_sag a2) (fun ms => Ok (mapped, ms)),
                    <[aseg := a2]> h1)))).
Proof.
  intros Hpre Ha1 run. subst run. unfold map_aparc_aseg2label.
  assert (l1 = aseg) as -> by (eapply returns_preprocess, Hpre).
  rewrite (bind_ok _ _ _ _ _ Hpre).
  rewrite (bind_ok _ _ _ _ _ (load_ok _ _ _ Ha1)).
  destruct (issuperset labels a1) eqn:Hsup; [right|left].
  - split; [reflexivity|]. erewrite (bind_ok _ _ _ tt) by reflexivity.
    destruct (lut_mapping labels a1) as [mapped|e] eqn:Hmap.
    + right. erewrite bind_ok by reflexivity.
      destruct (sagittal_tail_run h1 aseg a1 processing dict labels_sag mapped Ha1)
        as (a2 & ->).
      exists mapped, a2. split; reflexivity.
    + left. exists e. split; [reflexivity|].
      apply bind_raise. reflexivity.
  - split; [reflexivity|]. apply bind_raise. reflexivity.
Qed.

End MapAparcAseg.

Lemma issuperset_false labels a :
  issuperset labels a = false -> exists v, v ∈ data a /\ v ∉ labels.
Proof.
  unfold issuperset. intros H.
  assert (exists v, v ∈ np_unique (data a) /\ existsb (Z.eqb v) labels = false)
    as (v & Hv & Hex).
  { induction (np_unique (data a)) as [|x l IH]; simpl in H; [discriminate|].
    destruct (existsb (Z.eqb x) labels) eqn:E.
    - destruct (IH H) as (v & Hv & Hex). exists v. split; [right; exact Hv|exact Hex].
    - exists x. split; [left|exact E]. }
  exists v. split; [apply elem_of_np_unique, Hv|].
  intros Hin. apply list_elem_of_In in Hin.
  assert (existsb (Z.eqb v) labels = true); [|congruence].
  apply existsb_exists. exists v. split; [exact Hin|apply Z.eqb_refl].
Qed.

(** C1 (as stated, refuted). In "aseg" mode a volume whose only value 7
    is not in the label list fails, but with the assertion on the
    cortical markers, not with the check of the labels; and with every
    value of the volume in the label list the call can still fail, in
    the sagittal look-up, which is not guarded by any check. *)
Lemma map_aparc_aseg2label_counterexample :
  (forall gaussian_filter,
      map_aparc_aseg2label gaussian_filter 0 [0%Z] [0%Z] [] None "aseg"
        [NDArray (1, 1, 1) [7%Z]]
      = (Raise (AssertionError NoCorticalMarker), [NDArray (1, 1, 1) [7%Z]]))
  /\ (7%Z ∉ [0%Z])
  /\ (forall gaussian_filter,
        map_aparc_aseg2label gaussian_filter 0 [0; 5000]%Z [0%Z] [] None "aparc"
          [NDArray (1, 1, 1) [5000%Z]]
        = (Raise IndexError, [NDArray (1, 1, 1) [5000%Z]; NDArray (1, 1, 1) [5000%Z]]))
  /\ (5000%Z ∈ [0; 5000]%Z).
Proof.
  split; [intros gf; vm_compute; reflexivity|].
  split; [intros H; apply list_elem_of_In in H; simpl in H; intuition discriminate|].
  split; [intros gf; vm_compute; reflexivity|].
  apply list_elem_of_In. simpl. auto.
Qed.

(** C1 (amended). Once the preprocessing of [map_aparc_aseg2label] (the
    corpus callosum override and the rewrites of the chosen mode, with
    their own assertions) has returned, leaving the volume [a1]:
    the call fails with the check of the labels if and only if [a1]
    holds a value that is not in [labels]; and when every value of [a1]
    is in [labels] (a non-empty list of non-negative IDs), the full-space
    look-up succeeds with a volume of the same shape whose every voxel
    is a position of that voxel's value in [labels], and the call returns
    that volume unless the sagittal look-up raises. *)
Theorem map_aparc_aseg2label_label_check
  (gaussian_filter : ndarray Q -> Q -> ndarray Q) (h h1 : heap) (aseg l1 : loc)
  (a : ndarray Z) (labels labels_sag : list Z) (sagittal_lut_dict : list (Z * Z))
  (aseg_nocc : option loc) (processing : string) :
  h !! aseg = Some a ->
  preprocess_aseg gaussian_filter aseg aseg_nocc processing h = (Ok l1, h1) ->
  l1 = aseg /\
  exists a1, h1 !! aseg = Some a1 /\
    ((map_aparc_aseg2label gaussian_filter aseg labels labels_sag sagittal_lut_dict
        aseg_nocc processing h).1 = Raise (AssertionError ClassesNotInLabels)
     <-> exists v, v ∈ data a1 /\ v ∉ labels) /\
    (labels <> [] -> Forall (fun v => 0 <= v)%Z labels ->
     (forall v, v ∈ data a1 -> v ∈ labels) ->
     exists mapped a2,
       shape mapped = shape a1 /\
       (forall i v, data a1 !! i = Some v ->
          exists j, data mapped !! i = Some (Z.of_nat j) /\ labels !! j = Some v) /\
       map_aparc_aseg2label gaussian_filter aseg labels labels_sag sagittal_lut_dict
         aseg_nocc processing h
       = (rbind (lut_mapping labels_sag a2) (fun ms => Ok (mapped, ms)),
          <[aseg := a2]> h1)).
Proof.
  intros Ha Hpre.
  assert (l1 = aseg) as -> by (eapply returns_preprocess, Hpre).
  split; [reflexivity|].
  destruct (writes_only_preprocess gaussian_filter aseg aseg_nocc processing _ _ _ Hpre)
    as [Hlen _].
  destruct (lookup_lt_is_Some_2 h1 aseg) as [a1 Ha1].
  { apply lookup_lt_Some in Ha. lia. }
  exists a1. split; [exact Ha1|].
  pose proof (map_aparc_aseg2label_run gaussian_filter h h1 aseg aseg a1 labels labels_sag
                sagittal_lut_dict aseg_nocc processing Hpre Ha1) as Hrun.
  simpl in Hrun. split.
  - split.
    + intros Hfail.
      destruct Hrun as [[Hsup _]|[_ [(e & Hmap & Hr)|(mapped & a2 & _ & Hr)]]].
      * apply issuperset_false, Hsup.
      * rewrite Hr in Hfail. simpl in Hfail. injection Hfail as ->.
        destruct (lut_mapping_raises _ _ _ Hmap); discriminate.
      * rewrite Hr in Hfail. simpl in Hfail.
        destruct (lut_mapping labels_sag a2) as [ms|e] eqn:Hsag; [discriminate|].
        simpl in Hfail. injection Hfail as ->.
        destruct (lut_mapping_raises _ _ _ Hsag); discriminate.
    + intros (v & Hv & Hnin).
      destruct Hrun as [[_ ->]|[Hsup _]]; [reflexivity|].
      exfalso. apply Hnin. apply (proj1 (issuperset_spec labels a1) Hsup), Hv.
  - intros Hne Hpos Hin.
    destruct (lut_mapping_ok labels a1 Hne Hpos Hin) as (m & Hm & Hs & HF).
    destruct Hrun as [[Hsup _]|[_ [(e & Hmap & _)|(mapped & a2 & Hmap & Hr)]]].
    + apply issuperset_spec in Hin. congruence.
    + congruence.
    + assert (mapped = m) as -> by congruence.
      exists m, a2. split; [exact Hs|]. split; [|exact Hr].
      intros i v Hv. destruct (Forall2_lookup_l _ _ _ _ _ HF Hv) as (y & Hy & j & -> & Hj).
      exists j. split; assumption.
Qed.

Lemma map_aparc_aseg2label_label_check_witness :
  ([aparc_aseg_row] !! 0 = Some aparc_aseg_row /\
   preprocess_aseg ident_filter 0 None "aparc" [aparc_aseg_row]
   = (Ok 0, [aparc_aseg_fused; aparc_aseg_row])) /\
  map_aparc_aseg2label ident_filter 0 [0; 2; 41; 1003; 2014]%Z [0; 41; 1003; 1014]%Z
    [(2, 41)]%Z None "aparc" [aparc_aseg_row]
  = (Ok (NDArray (1, 2, 3) [0; 1; 2; 3; 4; 0]%Z, NDArray (1, 2, 3) [0; 1; 1; 2; 3; 0]%Z),
     [NDArray (1, 2, 3) [0; 41; 41; 1003; 1014; 0]%Z; aparc_aseg_row]) /\
  0 = 0 /\
  exists a1, [aparc_aseg_fused; aparc_aseg_row] !! 0 = Some a1 /\
    ((map_aparc_aseg2label ident_filter 0 [0; 2; 41; 1003; 2014]%Z [0; 41; 1003; 1014]%Z
        [(2, 41)]%Z None "aparc" [aparc_aseg_row]).1
     = Raise (AssertionError ClassesNotInLabels)
     <-> exists v, v ∈ data a1 /\ v ∉ [0; 2; 41; 1003; 2014]%Z) /\
    ([0; 2; 41; 1003; 2014]%Z <> [] ->
     Forall (fun v => 0 <= v)%Z [0; 2; 41; 1003; 2014]%Z ->
     (forall v, v ∈ data a1 -> v ∈ [0; 2; 41; 1003; 2014]%Z) ->
     exists mapped a2,
       shape mapped = shape a1 /\
       (forall i v, data a1 !! i = Some v ->
          exists j, data mapped !! i = Some (Z.of_nat j)
                    /\ [0; 2; 41; 1003; 2014]%Z !! j = Some v) /\
       map_aparc_aseg2label ident_filter 0 [0; 2; 41; 1003; 2014]%Z [0; 41; 1003; 1014]%Z
         [(2, 41)]%Z None "aparc" [aparc_aseg_row]
       = (rbind (lut_mapping [0; 41; 1003; 1014]%Z a2) (fun ms => Ok (mapped, ms)),
          <[0 := a2]> [aparc_aseg_fused; aparc_aseg_row])).
Proof.
  split; [split; reflexivity|]. split; [vm_compute; reflexivity|].
  exact (map_aparc_aseg2label_label_check ident_filter [aparc_aseg_row]
           [aparc_aseg_fused; aparc_aseg_row] 0 0 aparc_aseg_row
           [0; 2; 41; 1003; 2014]%Z [0; 41; 1003; 1014]%Z [(2, 41)]%Z None "aparc"
           eq_refl eq_refl).
Defined.

(** C8 (as stated, refuted). The call below fails with the check of the
    labels (4 is not listed), and the input volume, [251; 85] before the
    call, holds [4; 0] after it: the corpus callosum override and the
    cortex clean-up stay visible to the caller. *)
Lemma map_aparc_aseg2label_not_atomic_counterexample :
  (forall gaussian_filter,
      map_aparc_aseg2label gaussian_filter 0 [0%Z] [0%Z] [] (Some 1) "aparc"
        [NDArray (1, 1, 2) [251; 85]%Z; NDArray (1, 1, 2) [4; 4]%Z]
      = (Raise (AssertionError ClassesNotInLabels),
         [NDArray (1, 1, 2) [4; 0]%Z; NDArray (1, 1, 2) [4; 4]%Z;
          NDArray (1, 1, 2) [4; 85]%Z]))
  /\ NDArray (1, 1, 2) [4; 0]%Z <> NDArray (1, 1, 2) [251; 85]%Z.
Proof.
  split; [intros gf; vm_compute; reflexivity|discriminate].
Qed.

(** C8 (amended). When [map_aparc_aseg2label] fails with the check of
    the labels, the store is the one the preprocessing left: the input
    segmentation holds the overridden, cleaned, filled and de-lateralized
    values, and every other array of the caller ([aseg_nocc] when it is
    a different array) is as it was before the call. *)
Theorem map_aparc_aseg2label_store_on_error
  (gaussian_filter : ndarray Q -> Q -> ndarray Q) (h h' : heap) (aseg : loc)
  (labels labels_sag : list Z) (sagittal_lut_dict : list (Z * Z))
  (aseg_nocc : option loc) (processing : string) :
  map_aparc_aseg2label gaussian_filter aseg labels labels_sag sagittal_lut_dict
    aseg_nocc processing h = (Raise (AssertionError ClassesNotInLabels), h') ->
  preprocess_aseg gaussian_filter aseg aseg_nocc processing h = (Ok aseg, h')
  /\ forall k, k <> aseg -> k < length h -> h' !! k = h !! k.
Proof.
  intros Hrun.
  destruct (preprocess_aseg gaussian_filter aseg aseg_nocc processing h)
    as [[l1|e] h1] eqn:Hpre.
  - assert (l1 = aseg) as -> by (eapply returns_preprocess, Hpre).
    pose proof (writes_only_preprocess gaussian_filter aseg aseg_nocc processing _ _ _ Hpre)
      as [Hlen Hframe].
    destruct (h1 !! aseg) as [a1|] eqn:Ha1.
    + pose proof (map_aparc_aseg2label_run gaussian_filter h h1 aseg aseg a1 labels
                    labels_sag sagittal_lut_dict aseg_nocc processing Hpre Ha1) as Hcases.
      simpl in Hcases.
      destruct Hcases as [[_ Hr]|[_ [(e & Hmap & Hr)|(mapped & a2 & _ & Hr)]]];
        rewrite Hr in Hrun.
      * injection Hrun as <-. split; [reflexivity|exact Hframe].
      * injection Hrun as -> _. destruct (lut_mapping_raises _ _ _ Hmap); discriminate.
      * destruct (lut_mapping labels_sag a2) as [ms|e] eqn:Hsag; [discriminate|].
        simpl in Hrun. injection Hrun as -> _.
        destruct (lut_mapping_raises _ _ _ Hsag); discriminate.
    + exfalso. unfold map_aparc_aseg2label in Hrun.
      rewrite (bind_ok _ _ _ _ _ Hpre) in Hrun.
      erewrite bind_raise in Hrun by (unfold load; rewrite Ha1; reflexivity).
      discriminate.
  - exfalso. unfold map_aparc_aseg2label in Hrun.
    rewrite (bind_raise _ _ _ _ _ Hpre) in Hrun. injection Hrun as -> _.
    exact (raises_preprocess gaussian_filter aseg aseg_nocc processing _ _ _ Hpre eq_refl).
Qed.

Lemma map_aparc_aseg2label_store_on_error_witness :
  map_aparc_aseg2label ident_filter 0 [0%Z] [0%Z] [] (Some 1) "aparc"
    [NDArray (1, 1, 2) [251; 85]%Z; NDArray (1, 1, 2) [4; 4]%Z]
  = (Raise (AssertionError ClassesNotInLabels),
     [NDArray (1, 1, 2) [4; 0]%Z; NDArray (1, 1, 2) [4; 4]%Z;
      NDArray (1, 1, 2) [4; 85]%Z])
  /\ preprocess_aseg ident_filter 0 (Some 1) "aparc"
    [NDArray (1, 1, 2) [251; 85]%Z; NDArray (1, 1, 2) [4; 4]%Z]
  = (Ok 0, [NDArray (1, 1, 2) [4; 0]%Z; NDArray (1, 1, 2) [4; 4]%Z;
            NDArray (1, 1, 2) [4; 85]%Z])
  /\ forall k, k <> 0 -> k < 2 ->
       [NDArray (1, 1, 2) [4; 0]%Z; NDArray (1, 1, 2) [4; 4]%Z;
        NDArray (1, 1, 2) [4; 85]%Z] !! k
       = [NDArray (1, 1, 2) [251; 85]%Z; NDArray (1, 1, 2) [4; 4]%Z] !! k.
Proof.
  split; [reflexivity|].
  exact (map_aparc_aseg2label_store_on_error ident_filter
           [NDArray (1, 1, 2) [251; 85]%Z; NDArray (1, 1, 2) [4; 4]%Z]
           [NDArray (1, 1, 2) [4; 0]%Z; NDArray (1, 1, 2) [4; 4]%Z;
            NDArray (1, 1, 2) [4; 85]%Z]
           0 [0%Z] [0%Z] [] (Some 1) "aparc" eq_refl).
Defined.

(** ** read_classes_from_lut *)

Lemma last3_append (stem ext : string) :
  String.length ext = 3 -> last3 (stem ++ ext) = ext.
Proof.
  intros Hext. unfold last3.
  assert (Hlen : String.length (stem ++ ext) = String.length stem + 3).
  { rewrite <- Hext. induction stem as [|c stem IH]; simpl; [reflexivity|].
    rewrite IH. reflexivity. }
  rewrite Hlen, Nat.add_sub. clear Hlen.
  induction stem as [|c stem IH]; simpl; [|exact IH].
  destruct ext as [|c1 [|c2 [|c3 [|c4 ext]]]]; try discriminate. reflexivity.
Qed.

(** C9 (as stated, refuted). For a file name that ends in neither
    "tsv", "csv" nor "txt", no separator is chosen (the space is not a
    default) and pandas is not called: the look-up in the separator
    dictionary raises a [KeyError]. *)
Lemma read_classes_from_lut_counterexample :
  (forall read_csv, read_classes_from_lut read_csv "lut.dat" = Raise KeyError)
  /\ last3 "lut.dat" = "dat"%string
  /\ (forall read_csv,
        read_classes_from_lut read_csv "lut.dat" <> read_csv "lut.dat"%string " "%string
        \/ read_csv "lut.dat"%string " "%string = Raise KeyError).
Proof.
  split; [intros rc; reflexivity|]. split; [reflexivity|].
  intros rc. destruct (rc "lut.dat"%string " "%string) as [df|e] eqn:E.
  - left. change (read_classes_from_lut rc "lut.dat") with (@Raise DataFrame KeyError).
    discriminate.
  - change (read_classes_from_lut rc "lut.dat") with (@Raise DataFrame KeyError).
    destruct e; first [right; reflexivity | left; discriminate].
Qed.

(** C9 (amended). [read_classes_from_lut] selects the separator from
    the last three characters of the file name: tab for "tsv", comma for
    "csv", space for "txt"; the file is then read by pandas with that
    separator.  For every other ending the call fails with a [KeyError]
    before anything is read. *)
Theorem read_classes_from_lut_separator
  (read_csv : string -> string -> result DataFrame) :
  (forall stem, read_classes_from_lut read_csv (stem ++ "tsv")
                = read_csv (stem ++ "tsv")%string tab)
  /\ (forall stem, read_classes_from_lut read_csv (stem ++ "csv")
                   = read_csv (stem ++ "csv")%string ","%string)
  /\ (forall stem, read_classes_from_lut read_csv (stem ++ "txt")
                   = read_csv (stem ++ "txt")%string " "%string)
  /\ (forall lut_file,
        last3 lut_file <> "tsv"%string -> last3 lut_file <> "csv"%string ->
        last3 lut_file <> "txt"%string ->
        read_classes_from_lut read_csv lut_file = Raise KeyError).
Proof.
  unfold read_classes_from_lut.
  repeat split; try (intros stem; rewrite last3_append by reflexivity; reflexivity).
  intros f H1 H2 H3. revert H1 H2 H3. generalize (last3 f). intros s H1 H2 H3.
  cbn [dict_getitem].
  destruct (String.eqb_spec "tsv" s); [congruence|].
  destruct (String.eqb_spec "csv" s); [congruence|].
  destruct (String.eqb_spec "txt" s); [congruence|].
  reflexivity.
Qed.

(** ** map_prediction_sagittal2full *)

Lemma rmapM_Forall2 {X Y} (f : X -> result Y) (P : X -> Y -> Prop) l out :
  (forall x y, f x = Ok y -> P x y) -> rmapM f l = Ok out -> Forall2 P l out.
Proof.
  intros Hf. revert out. induction l as [|x l IH]; simpl; intros out.
  - intros [= <-]. constructor.
  - destruct (f x) as [y|] eqn:E; simpl; [|discriminate].
    destruct (rmapM f l) as [ys|]; simpl; [|discriminate].
    intros [= <-]. constructor; [apply Hf, E|apply IH; reflexivity].
Qed.

Lemma rmapM_ok {X Y} (f : X -> result Y) l :
  (forall x, x ∈ l -> exists y, f x = Ok y) -> exists out, rmapM f l = Ok out.
Proof.
  induction l as [|x l IH]; intros Hf; simpl; [eexists; reflexivity|].
  destruct (Hf x) as (y & ->); [left|]. simpl.
  destruct IH as (ys & ->); [intros x' Hx'; apply Hf; right; exact Hx'|].
  simpl. eexists. reflexivity.
Qed.

(** What the gather along the class axis yields: class [f] of the
    result is class [idx_list[f]] of the argument, in every sample. *)
Lemma take_classes_spec {T} (p q : prediction T) idx_list :
  take_classes p idx_list = Ok q ->
  n_classes q = length idx_list /\
  Forall2 (fun s s' : list T =>
             forall f c, idx_list !! f = Some (Z.of_nat c) ->
                         is_Some (s !! c) /\ s' !! f = s !! c)
    (samples p) (samples q).
Proof.
  unfold take_classes.
  destruct (rmapM (np_index (n_classes p)) idx_list) as [idxs|] eqn:Hidx; simpl; [|discriminate].
  destruct (rmapM _ (samples p)) as [ss|] eqn:Hss; simpl; [|discriminate].
  intros [= <-]. simpl. split; [reflexivity|].
  eapply rmapM_Forall2; [|exact Hss].
  intros s s' Hs f c Hf. simpl in Hs.
  pose proof (rmapM_Forall2 _ (fun i k => np_index (n_classes p) i = Ok k) _ _
                (fun _ _ H => H) Hidx) as HF1.
  assert (HF2 : Forall2 (fun (k : nat) (x : T) => s !! k = Some x) idxs s').
  { eapply rmapM_Forall2; [|exact Hs].
    intros k x. simpl. destruct (s !! k); intros [= ->]; reflexivity. }
  destruct (Forall2_lookup_l _ _ _ _ _ HF1 Hf) as (k & Hk & Hnp).
  destruct (Forall2_lookup_l _ _ _ _ _ HF2 Hk) as (x & Hx & Hsx).
  assert (k = c) as ->.
  { unfold np_index in Hnp. repeat case_match; try discriminate; injection Hnp as <-; lia. }
  rewrite Hx, Hsx. split; [eexists|]; reflexivity.
Qed.

Lemma take_classes_ok {T} (p : prediction T) idx_list :
  Forall (fun s => length s = n_classes p) (samples p) ->
  Forall (fun i => 0 <= i < Z.of_nat (n_classes p))%Z idx_list ->
  exists q, take_classes p idx_list = Ok q.
Proof.
  intros Hwf Hidx. unfold take_classes.
  destruct (rmapM_ok (np_index (n_classes p)) idx_list) as (idxs & Hi).
  { intros i Hi. rewrite Forall_forall in Hidx.
    rewrite np_index_nonneg by (apply Hidx, list_elem_of_In, Hi). eexists. reflexivity. }
  rewrite Hi. simpl.
  pose proof (rmapM_Forall2 _ (fun i k => np_index (n_classes p) i = Ok k) _ _
                (fun _ _ H => H) Hi) as HF.
  match goal with |- context [rmapM ?f (samples p)] => destruct (rmapM_ok f (samples p)) as (ss & ->) end.
  - intros s Hs. apply rmapM_ok. intros k Hk.
    apply list_elem_of_lookup in Hk as (j & Hj).
    destruct (Forall2_lookup_r _ _ _ _ _ HF Hj) as (i & Hij & Hnp).
    rewrite Forall_forall in Hidx, Hwf.
    assert (Hr : (0 <= i < Z.of_nat (n_classes p))%Z).
    { apply Hidx, list_elem_of_In. eapply list_elem_of_lookup_2, Hij. }
    rewrite np_index_nonneg in Hnp by exact Hr. injection Hnp as <-.
    destruct (lookup_lt_is_Some_2 s (Z.to_nat i)) as (x & ->).
    { rewrite (Hwf s) by (apply list_elem_of_In, Hs). lia. }
    eexists. reflexivity.
  - simpl. eexists. reflexivity.
Qed.

(** C2 (as stated, refuted). A one-hot prediction at sagittal class 5
    (hot 1, cold 0) is remapped to a volume that is hot at the full-space
    classes 1 and 20; class 10 is cold. *)
Lemma map_prediction_sagittal2full_21_counterexample :
  exists out,
    (forall read_csv lut,
        map_prediction_sagittal2full read_csv (one_hot 21 5 1%Z 0%Z) 21 lut
        = Ok (Prediction 36 [out]))
    /\ out !! 10 = Some 0%Z /\ out !! 1 = Some 1%Z /\ out !! 20 = Some 1%Z.
Proof.
  eexists. split; [intros rc lut; vm_compute; reflexivity|].
  repeat split; reflexivity.
Qed.

(** C2 (amended). For [num_classes = 21], [map_prediction_sagittal2full]
    gathers the class axis with the hardcoded table of 36 entries: class
    [f] of the result is class [idx_list_21[f]] of the argument in every
    sample, and the call succeeds on every prediction with at least 21
    classes.  In that table the sagittal class 5 is read by the
    full-space classes 1 and 20 and by no other (full class 10 reads the
    sagittal class 14), full class 0 reads 0 and full class 35 reads 20;
    so a one-hot volume at sagittal class 5 becomes hot exactly at the
    full classes 1 and 20. *)
Theorem map_prediction_sagittal2full_21
  (read_csv : string -> string -> result DataFrame) (T : Type)
  (prediction_sag : prediction T) (lut : option lut_arg) :
  map_prediction_sagittal2full read_csv prediction_sag 21 lut
  = take_classes prediction_sag idx_list_21
  /\ length idx_list_21 = 36
  /\ (forall q, take_classes prediction_sag idx_list_21 = Ok q ->
        n_classes q = 36 /\
        Forall2 (fun s s' : list T =>
                   forall f c, idx_list_21 !! f = Some (Z.of_nat c) ->
                               is_Some (s !! c) /\ s' !! f = s !! c)
          (samples prediction_sag) (samples q))
  /\ (Forall (fun s => length s = n_classes prediction_sag) (samples prediction_sag) ->
      21 <= n_classes prediction_sag ->
      exists q, take_classes prediction_sag idx_list_21 = Ok q)
  /\ (forall f, idx_list_21 !! f = Some 5%Z <-> f = 1 \/ f = 20)
  /\ idx_list_21 !! 10 = Some 14%Z
  /\ idx_list_21 !! 0 = Some 0%Z
  /\ idx_list_21 !! 35 = Some 20%Z
  /\ (forall hot cold : T,
        map_prediction_sagittal2full read_csv (one_hot 21 5 hot cold) 21 lut
        = Ok (Prediction 36
                [map (fun f => if (f =? 1) || (f =? 20) then hot else cold) (seq 0 36)])).
Proof.
  split; [reflexivity|]. split; [reflexivity|]. split; [|split; [|split]].
  - intros q Hq. destruct (take_classes_spec _ _ _ Hq) as [Hn HF].
    split; [exact Hn|exact HF].
  - intros Hwf Hn. apply take_classes_ok; [exact Hwf|].
    apply Forall_forall. intros i Hi. simpl in Hi.
    repeat (destruct Hi as [<-|Hi]; [lia|]). contradiction.
  - intros f.
    do 36 (destruct f as [|f]; [simpl; split; [intros [=]; auto | intros [?|?]; first [reflexivity|lia]]|]).
    simpl. split; [discriminate|lia].
  - repeat split; try reflexivity.
Qed.

(** ** infer_mapping_from_lut *)

(** On a LUT of three rows the search that the loop of
    [infer_mapping_from_lut] performs, run on the label lists that
    [get_labels_from_lut] extracts, finds the table [0; 1; 1]; the
    function itself binds [labels] and [labels_sag] to the keys of the
    dictionary of [unify_lateralized_labels], which has a single key
    here, and the unpacking raises. *)
Example infer_mapping_from_lut_example :
  (forall read_csv,
      get_labels_from_lut read_csv lut_example ("Left-", "ctx-rh")%string
      = Ok ([0; 2; 41]%Z, [0; 41]%Z))
  /\ infer_mapping_loop (PyArray [0; 2; 41]%Z) (PyArray [0; 41]%Z) (repeat 0%Z 3) (seq 0 3)
     = Ok [0; 1; 1]%Z
  /\ (forall read_csv,
        unify_lateralized_labels read_csv lut_example ("Left-", "Right-")%string
        = Ok [(2, 41)]%Z)
  /\ (forall read_csv, infer_mapping_from_lut read_csv 2 lut_example = Raise ValueError)
  /\ (forall read_csv,
        map_prediction_sagittal2full read_csv (Prediction 2 [[7; 8]%Z]) 2 (Some lut_example)
        = Raise ValueError).
Proof. repeat split; intros; vm_compute; reflexivity. Qed.

(** C3. [infer_mapping_from_lut] never returns a table: whatever the
    LUT, unpacking the dictionary of [unify_lateralized_labels] into
    [labels, labels_sag] either raises (the dictionary does not have
    exactly two keys) or binds both names to integers, and [len(labels)]
    raises.  Hence [map_prediction_sagittal2full] raises for every
    [num_classes] other than 21, 51 and 96. *)
Theorem infer_mapping_from_lut_always_raises
  (read_csv : string -> string -> result DataFrame) (T : Type)
  (prediction_sag : prediction T) (num_classes : nat) (lut : lut_arg) :
  (exists e, infer_mapping_from_lut read_csv num_classes lut = Raise e)
  /\ ((num_classes =? 96) || (num_classes =? 51) || (num_classes =? 21) = false ->
      exists e, map_prediction_sagittal2full read_csv prediction_sag num_classes (Some lut)
                = Raise e).
Proof.
  assert (H : exists e, infer_mapping_from_lut read_csv num_classes lut = Raise e).
  { unfold infer_mapping_from_lut.
    destruct (unify_lateralized_labels read_csv lut _) as [d|e]; simpl; [|eexists; reflexivity].
    destruct d as [|[a x] [|[b y] [|? ?]]]; simpl; eexists; reflexivity. }
  split; [exact H|].
  intros Hn. apply orb_false_iff in Hn as [Hn H21]. apply orb_false_iff in Hn as [H96 H51].
  unfold map_prediction_sagittal2full. rewrite H96, H51, H21.
  destruct H as (e & ->). exists e. reflexivity.
Qed.

(** ** bbox_3d *)

Lemma elem_of_np_where r i : i ∈ np_where r <-> i < length r /\ nth i r false = true.
Proof.
  unfold np_where. rewrite list_elem_of_filter, elem_of_seq. split; intros [? ?]; split; auto; lia.
Qed.

(** The positions kept by a filter of [seq s n] come in ascending order:
    the first is the least and the last is the greatest. *)
Lemma filter_seq_head (P : nat -> Prop) `{!forall i, Decision (P i)} n : forall s x l,
  filter P (seq s n) = x :: l -> forall y, y ∈ x :: l -> x <= y.
Proof.
  induction n as [|n IH]; intros s x l; simpl; [discriminate|].
  rewrite filter_cons. destruct (decide (P s)).
  - intros [= <- <-] y Hy. apply elem_of_cons in Hy as [->|Hy]; [lia|].
    apply list_elem_of_filter in Hy as [_ Hy]. apply elem_of_seq in Hy. lia.
  - apply IH.
Qed.

Lemma filter_seq_last (P : nat -> Prop) `{!forall i, Decision (P i)} n s d :
  forall y, y ∈ filter P (seq s n) -> y <= List.last (filter P (seq s n)) d.
Proof.
  induction n as [|n IH]; intros y; [simpl; intros Hy; inversion Hy|].
  rewrite seq_S, list.filter_app, filter_cons, filter_nil.
  destruct (decide (P (s + n))).
  - rewrite last_last. intros Hy. apply elem_of_app in Hy as [Hy|Hy].
    + apply list_elem_of_filter in Hy as [_ Hy]. apply elem_of_seq in Hy. lia.
    + apply list_elem_of_singleton in Hy. lia.
  - rewrite app_nil_r. apply IH.
Qed.

Lemma last_elem_of {X} (l : list X) d : l <> [] -> List.last l d ∈ l.
Proof.
  induction l as [|x [|y l] IH]; intros Hne; [congruence|left|].
  right. apply IH. discriminate.
Qed.

(** [np.where(r)[0][[0, -1]]]: an [IndexError] when no entry is true,
    the least and the greatest true position otherwise. *)
Lemma first_last_where r :
  ((forall i, i < length r -> nth i r false = false) ->
   first_last (np_where r) = Raise IndexError)
  /\ (forall i0, i0 < length r -> nth i0 r false = true ->
      exists lo hi, first_last (np_where r) = Ok (lo, hi)
        /\ (lo < length r /\ nth lo r false = true)
        /\ (hi < length r /\ nth hi r false = true)
        /\ forall i, i < length r -> nth i r false = true -> lo <= i <= hi).
Proof.
  split.
  - intros Hall. destruct (np_where r) as [|x l] eqn:E; [reflexivity|].
    assert (Hx : x ∈ np_where r) by (rewrite E; left).
    apply elem_of_np_where in Hx as [Hlt Hx]. rewrite Hall in Hx by exact Hlt. discriminate.
  - intros i0 Hlt0 Hi0.
    assert (Hin0 : i0 ∈ np_where r) by (apply elem_of_np_where; auto).
    destruct (np_where r) as [|x l] eqn:E; [inversion Hin0|].
    exists x, (List.last (x :: l) x). split; [reflexivity|].
    assert (Hx : x ∈ np_where r) by (rewrite E; left).
    assert (Hl : List.last (x :: l) x ∈ np_where r).
    { rewrite E. apply last_elem_of. discriminate. }
    split; [apply elem_of_np_where, Hx|]. split; [apply elem_of_np_where, Hl|].
    intros i Hlt Hi.
    assert (Hin : i ∈ x :: l) by (rewrite <- E; apply elem_of_np_where; auto).
    split.
    + eapply (filter_seq_head _ _ 0 x l); [exact E|exact Hin].
    + rewrite <- E. unfold np_where. apply filter_seq_last. fold (np_where r).
      rewrite E. exact Hin.
Qed.

Lemma nth_map_seq (f : nat -> bool) n i : i < n -> nth i (map f (seq 0 n)) false = f i.
Proof.
  intros Hi. apply nth_lookup_Some with (d := false).
  rewrite lookup_map, lookup_seq_lt by exact Hi. reflexivity.
Qed.

Lemma existsb_seq (f : nat -> bool) n :
  existsb f (seq 0 n) = true <-> exists j, j < n /\ f j = true.
Proof.
  rewrite existsb_exists. split.
  - intros (j & Hj & Hf). apply in_seq in Hj. exists j. split; [lia|exact Hf].
  - intros (j & Hj & Hf). exists j. split; [apply in_seq; lia|exact Hf].
Qed.

Lemma first_last_axis (f : nat -> bool) n :
  ((forall i, i < n -> f i = false) ->
   first_last (np_where (map f (seq 0 n))) = Raise IndexError)
  /\ (forall i0, i0 < n -> f i0 = true ->
      exists lo hi, first_last (np_where (map f (seq 0 n))) = Ok (lo, hi)
        /\ (lo < n /\ f lo = true) /\ (hi < n /\ f hi = true)
        /\ forall i, i < n -> f i = true -> lo <= i <= hi).
Proof.
  destruct (first_last_where (map f (seq 0 n))) as [Hnone Hsome].
  rewrite length_map, length_seq in Hnone, Hsome. split.
  - intros Hall. apply Hnone. intros i Hi. rewrite nth_map_seq by exact Hi. auto.
  - intros i0 Hi0 Hf0.
    destruct (Hsome i0 Hi0) as (lo & hi & Heq & [Hlo Hflo] & [Hhi Hfhi] & Hall).
    { rewrite nth_map_seq by exact Hi0. exact Hf0. }
    rewrite nth_map_seq in Hflo by exact Hlo. rewrite nth_map_seq in Hfhi by exact Hhi.
    exists lo, hi. repeat split; auto; apply Hall; auto; rewrite nth_map_seq; auto.
Qed.

(** C7 (as stated, refuted). On an entirely zero volume [bbox_3d]
    returns no range: indexing the empty array of positions raises an
    [IndexError]. *)
Lemma bbox_3d_zero_counterexample :
  bbox_3d (NDArray (1, 1, 1) [0%Z]) = Raise IndexError
  /\ bbox_3d (NDArray (2, 2, 1) [0; 0; 0; 0]%Z) = Raise IndexError.
Proof. split; reflexivity. Qed.

(** C7 (amended). For every volume with at least one non-zero voxel,
    [bbox_3d] returns along each of the three axes the least and the
    greatest index of a non-zero voxel: every non-zero voxel lies within
    the six bounds, and each bound is attained by a non-zero voxel.  For
    an entirely zero volume it raises an [IndexError]. *)
Theorem bbox_3d_spec (img : ndarray Z) :
  ((forall i j k, in_volume img i j k -> voxel img i j k = 0%Z) ->
   bbox_3d img = Raise IndexError)
  /\ (forall i0 j0 k0, in_volume img i0 j0 k0 -> voxel img i0 j0 k0 <> 0%Z ->
      exists rmin rmax cmin cmax zmin zmax,
        bbox_3d img = Ok (rmin, rmax, cmin, cmax, zmin, zmax)
        /\ (forall i j k, in_volume img i j k -> voxel img i j k <> 0%Z ->
              rmin <= i <= rmax /\ cmin <= j <= cmax /\ zmin <= k <= zmax)
        /\ (exists j k, in_volume img rmin j k /\ voxel img rmin j k <> 0%Z)
        /\ (exists j k, in_volume img rmax j k /\ voxel img rmax j k <> 0%Z)
        /\ (exists i k, in_volume img i cmin k /\ voxel img i cmin k <> 0%Z)
        /\ (exists i k, in_volume img i cmax k /\ voxel img i cmax k <> 0%Z)
        /\ (exists i j, in_volume img i j zmin /\ voxel img i j zmin <> 0%Z)
        /\ (exists i j, in_volume img i j zmax /\ voxel img i j zmax <> 0%Z)).
Proof.
  unfold bbox_3d, any_axis12, any_axis02, any_axis01, in_volume.
  destruct (shape img) as [[h w] d] eqn:Hshape.
  set (fr := fun i => existsb (fun j => existsb (fun k => nonzero img i j k) (seq 0 d)) (seq 0 w)).
  set (fc := fun j => existsb (fun i => existsb (fun k => nonzero img i j k) (seq 0 d)) (seq 0 h)).
  set (fz := fun k => existsb (fun i => existsb (fun j => nonzero img i j k) (seq 0 w)) (seq 0 h)).
  assert (Hnz : forall i j k, nonzero img i j k = true <-> voxel img i j k <> 0%Z).
  { intros i j k. unfold nonzero. destruct (Z.eqb_spec (voxel img i j k) 0); simpl; split;
      intros; congruence. }
  assert (Hfr : forall i, fr i = true <-> exists j k, (j < w /\ k < d) /\ voxel img i j k <> 0%Z).
  { intros i. unfold fr. rewrite existsb_seq. split.
    - intros (j & Hj & He). apply existsb_seq in He as (k & Hk & He).
      exists j, k. split; [auto|apply Hnz, He].
    - intros (j & k & [Hj Hk] & He). exists j. split; [exact Hj|].
      apply existsb_seq. exists k. split; [exact Hk|apply Hnz, He]. }
  assert (Hfc : forall j, fc j = true <-> exists i k, (i < h /\ k < d) /\ voxel img i j k <> 0%Z).
  { intros j. unfold fc. rewrite existsb_seq. split.
    - intros (i & Hi & He). apply existsb_seq in He as (k & Hk & He).
      exists i, k. split; [auto|apply Hnz, He].
    - intros (i & k & [Hi Hk] & He). exists i. split; [exact Hi|].
      apply existsb_seq. exists k. split; [exact Hk|apply Hnz, He]. }
  assert (Hfz : forall k, fz k = true <-> exists i j, (i < h /\ j < w) /\ voxel img i j k <> 0%Z).
  { intros k. unfold fz. rewrite existsb_seq. split.
    - intros (i & Hi & He). apply existsb_seq in He as (j & Hj & He).
      exists i, j. split; [auto|apply Hnz, He].
    - intros (i & j & [Hi Hj] & He). exists i. split; [exact Hi|].
      apply existsb_seq. exists j. split; [exact Hj|apply Hnz, He]. }
  destruct (first_last_axis fr h) as [Hr0 Hr1], (first_last_axis fc w) as [_ Hc1],
    (first_last_axis fz d) as [_ Hz1].
  split.
  - intros Hzero. rewrite Hr0; [reflexivity|].
    intros i Hi. destruct (fr i) eqn:E; [|reflexivity].
    apply Hfr in E as (j & k & [Hj Hk] & Hv). exfalso. apply Hv, Hzero. auto.
  - intros i0 j0 k0 (Hi0 & Hj0 & Hk0) Hv0.
    destruct (Hr1 i0 Hi0) as (rmin & rmax & -> & [Hrlo Hflo] & [Hrhi Hfhi] & Hrall).
    { apply Hfr. exists j0, k0. auto. }
    destruct (Hc1 j0 Hj0) as (cmin & cmax & -> & [Hclo Hfclo] & [Hchi Hfchi] & Hcall).
    { apply Hfc. exists i0, k0. auto. }
    destruct (Hz1 k0 Hk0) as (zmin & zmax & -> & [Hzlo Hfzlo] & [Hzhi Hfzhi] & Hzall).
    { apply Hfz. exists i0, j0. auto. }
    exists rmin, rmax, cmin, cmax, zmin, zmax. split; [reflexivity|]. split.
    { intros i j k (Hi & Hj & Hk) Hv. repeat split.
      - apply Hrall; [exact Hi|]. apply Hfr. exists j, k. auto.
      - apply Hrall; [exact Hi|]. apply Hfr. exists j, k. auto.
      - apply Hcall; [exact Hj|]. apply Hfc. exists i, k. auto.
      - apply Hcall; [exact Hj|]. apply Hfc. exists i, k. auto.
      - apply Hzall; [exact Hk|]. apply Hfz. exists i, j. auto.
      - apply Hzall; [exact Hk|]. apply Hfz. exists i, j. auto. }
    apply Hfr in Hflo as (j1 & k1 & [? ?] & ?), Hfhi as (j2 & k2 & [? ?] & ?).
    apply Hfc in Hfclo as (i3 & k3 & [? ?] & ?), Hfchi as (i4 & k4 & [? ?] & ?).
    apply Hfz in Hfzlo as (i5 & j5 & [? ?] & ?), Hfzhi as (i6 & j6 & [? ?] & ?).
    split; [exists j1, k1; repeat split; assumption|].
    split; [exists j2, k2; repeat split; assumption|].
    split; [exists i3, k3; repeat split; assumption|].
    split; [exists i4, k4; repeat split; assumption|].
    split; [exists i5, j5; repeat split; assumption|].
    exists i6, j6; repeat split; assumption.
Qed.

(** ** get_largest_cc *)

Lemma map_const {X Y} (f : X -> Y) c l : (forall x, f x = c) -> map f l = repeat c (length l).
Proof. intros Hf. induction l as [|x l IH]; simpl; [reflexivity|]. rewrite Hf, IH. reflexivity. Qed.

Lemma foldl_max_repeat n : foldl Z.max 0%Z (repeat 0%Z n) = 0%Z.
Proof. induction n as [|n IH]; simpl; [reflexivity|exact IH]. Qed.

(** A volume without foreground is labelled 0 everywhere. *)
Lemma label_zero s n connectivity :
  label (NDArray s (repeat 0%Z n)) connectivity 0 = NDArray s (repeat 0%Z n).
Proof.
  unfold label. simpl. f_equal.
  rewrite (map_const _ 0%Z); [rewrite length_seq, repeat_length; reflexivity|].
  intros p. rewrite nth_repeat. reflexivity.
Qed.

Lemma np_bincount_zero n : np_bincount (repeat 0%Z (S n)) = [Z.of_nat (S n)].
Proof.
  change (repeat 0%Z (S n)) with (0%Z :: repeat 0%Z n).
  unfold np_bincount. rewrite foldl_max_repeat. cbn [Z.to_nat seq map]. do 2 f_equal.
  change (0%Z :: repeat 0%Z n) with (repeat 0%Z (S n)).
  induction (S n) as [|m IH]; [reflexivity|].
  cbn [repeat]. rewrite filter_cons_True by reflexivity. simpl. rewrite IH. reflexivity.
Qed.

(** Where the background outnumbers every component the largest one is
    found: blobs of 10 and 50 voxels among 61 background voxels. *)
Example get_largest_cc_wide :
  get_largest_cc two_blobs_wide
  = Ok (NDArray (1, 1, 121) (repeat false 71 ++ repeat true 50)).
Proof. vm_compute. reflexivity. Qed.

(** C6. [get_largest_cc] takes for the background the most frequent
    label, not label 0.  On an entirely empty mask (of at least one
    voxel) label 0 is the only one, it is both "background" and
    "largest", and the result is true everywhere; on a volume whose
    50-voxel blob outnumbers the background, that blob is taken for the
    background and the 10-voxel blob is returned. *)
Theorem get_largest_cc_background_by_count :
  (forall s n,
      get_largest_cc (NDArray s (repeat 0%Z (S n))) = Ok (NDArray s (repeat true (S n))))
  /\ get_largest_cc two_blobs_tight
     = Ok (NDArray (1, 1, 61) (repeat false 51 ++ repeat true 10)).
Proof.
  split; [|vm_compute; reflexivity].
  intros s n. unfold get_largest_cc. rewrite label_zero.
  cbn [data]. rewrite np_bincount_zero.
  cbn [np_argmax_int argmax_int_from rbind].
  change (<[0 := (-1)%Z]> [Z.of_nat (S n)]) with [(-1)%Z].
  cbn [np_argmax_int argmax_int_from rbind].
  unfold np_eq, amap. cbn [shape data]. rewrite map_repeat. reflexivity.
Qed.

(** ** More on clean_cortex_labels *)

Lemma clean_voxel_spec x :
  ((x ∉ noise_labels) /\ clean_voxel x = x)
  \/ (x ∈ noise_labels /\ clean_voxel x ∈ [77; 0; 41; 2; 24]%Z).
Proof.
  unfold clean_voxel.
  repeat match goal with
         | |- context [relabel ?v ?w x] =>
             destruct (Z.eq_dec x v) as [->|?];
             [right; split; apply list_elem_of_In; vm_compute; auto 10
             | rewrite (relabel_ne v w x) by assumption]
         end.
  left. split; [|reflexivity].
  intros Hin. apply list_elem_of_In in Hin. simpl in Hin. intuition congruence.
Qed.

(** X1. On every array of the store [clean_cortex_labels] succeeds and
    rewrites it in place: afterwards no voxel holds any of the nine
    noise IDs (no rewrite reintroduces one), a voxel that held one holds
    one of 77, 0, 41, 2, 24, and every other voxel is unchanged. *)
Theorem clean_cortex_labels_removes_noise (h : list (ndarray Z)) (aparc : nat)
  (a : ndarray Z) :
  h !! aparc = Some a ->
  exists a',
    clean_cortex_labels aparc h = (Ok aparc, <[aparc := a']> h) /\
    shape a' = shape a /\
    forall i v, data a !! i = Some v ->
      exists y, data a' !! i = Some y /\ (y ∉ noise_labels) /\
        (v ∉ noise_labels -> y = v) /\
        (v ∈ noise_labels -> y ∈ [77; 0; 41; 2; 24]%Z).
Proof.
  intros Ha. exists (amap clean_voxel a).
  split; [apply clean_cortex_labels_ok, Ha|]. split; [reflexivity|].
  intros i v Hv. exists (clean_voxel v). split.
  { simpl. rewrite lookup_map, Hv. reflexivity. }
  destruct (clean_voxel_spec v) as [[Hn Heq]|[Hin Ht]].
  - rewrite Heq. split; [exact Hn|]. split; [reflexivity|]. intros Hc. contradiction.
  - split; [|split; [intros Hc; contradiction|intros _; exact Ht]].
    intros Hc. apply list_elem_of_In in Hc, Ht. simpl in Hc, Ht.
    intuition congruence.
Qed.

Lemma clean_cortex_labels_removes_noise_witness :
  [NDArray (1, 1, 4) [80; 3; 1003; 42]%Z] !! 0 = Some (NDArray (1, 1, 4) [80; 3; 1003; 42]%Z)
  /\ exists a',
      clean_cortex_labels 0 [NDArray (1, 1, 4) [80; 3; 1003; 42]%Z]
      = (Ok 0, <[0 := a']> [NDArray (1, 1, 4) [80; 3; 1003; 42]%Z]) /\
      shape a' = (1, 1, 4) /\
      forall i v, [80; 3; 1003; 42]%Z !! i = Some v ->
        exists y, data a' !! i = Some y /\ (y ∉ noise_labels) /\
          (v ∉ noise_labels -> y = v) /\
          (v ∈ noise_labels -> y ∈ [77; 0; 41; 2; 24]%Z).
Proof.
  split; [reflexivity|].
  exact (clean_cortex_labels_removes_noise [NDArray (1, 1, 4) [80; 3; 1003; 42]%Z] 0
           (NDArray (1, 1, 4) [80; 3; 1003; 42]%Z) eq_refl).
Defined.

(** ** More on fill_unknown_labels_per_hemi *)

Lemma elem_of_gather_iff {X} (x : X) m xs :
  x ∈ gather m xs <-> exists i, m !! i = Some true /\ xs !! i = Some x.
Proof.
  revert xs. induction m as [|b m IH]; intros [|y xs]; simpl.
  - split; [intros H; inversion H|intros (i & H & _); discriminate].
  - split; [intros H; inversion H|intros (i & H & _); discriminate].
  - split; [intros H; inversion H|intros (i & _ & H); destruct i; discriminate].
  - destruct b.
    + rewrite elem_of_cons, IH. split.
      * intros [->|(i & Hm & Hx)]; [exists 0; auto|exists (S i); auto].
      * intros ([|i] & Hm & Hx); [left; simpl in Hx; congruence|right; exists i; auto].
    + rewrite IH. split.
      * intros (i & Hm & Hx). exists (S i). auto.
      * intros ([|i] & Hm & Hx); [discriminate|exists i; auto].
Qed.

Lemma nth_np_eq (xs : list Z) v q :
  nth q (map (fun x => (x =? v)%Z) xs) false = true <-> xs !! q = Some v.
Proof.
  destruct (xs !! q) as [x|] eqn:E.
  - rewrite (nth_lookup_Some _ _ false (x =? v)%Z) by (rewrite lookup_map, E; reflexivity).
    rewrite Z.eqb_eq. split; congruence.
  - rewrite nth_overflow; [split; discriminate|].
    rewrite length_map. apply lookup_ge_None, E.
Qed.

(** The parcels of [closest_parcels] are the IDs of the candidate
    voxels. *)
Lemma closest_parcels_spec g ul cs ps :
  closest_parcels g ul cs = Ok ps ->
  forall p, p ∈ ps <-> exists i, candidate_voxel g ul cs i p.
Proof.
  unfold closest_parcels, getitem_mask. simpl. rewrite shape_eqb_refl. simpl.
  intros [= <-] p. rewrite list_elem_of_filter, elem_of_np_unique, elem_of_gather_iff.
  unfold candidate_voxel. split.
  - intros [Hr (i & Hm & Hx)].
    apply Is_true_true, andb_true_iff in Hr as [H1 H2].
    apply Z.ltb_lt in H1. apply Z.ltb_lt in H2.
    exists i. split; [exact Hx|]. split; [lia|].
    rewrite lookup_zip_with in Hm.
    rewrite !lookup_map, length_map in Hm.
    rewrite lookup_seq_lt in Hm by (eapply lookup_lt_Some, Hx).
    rewrite Hx in Hm. simpl in Hm.
    destruct (Z.eqb_spec p ul) as [->|_]; [lia|].
    rewrite xorb_false_r in Hm. injection Hm as Hm.
    apply existsb_exists in Hm as (q & Hq & Hn). exists q.
    split; [apply list_elem_of_In, Hq|apply nth_np_eq, Hn].
  - intros (i & Hx & Hr & q & Hq & Hu). split.
    + apply Is_true_true, andb_true_iff. split; apply Z.ltb_lt; lia.
    + exists i. split; [|exact Hx].
      rewrite lookup_zip_with. rewrite !lookup_map, length_map.
      rewrite lookup_seq_lt by (eapply lookup_lt_Some, Hx).
      rewrite Hx. simpl.
      destruct (Z.eqb_spec p ul) as [->|_]; [lia|].
      rewrite xorb_false_r. f_equal.
      apply existsb_exists. exists q. split; [apply list_elem_of_In, Hq|apply nth_np_eq, Hu].
Qed.

(** X2. [fill_unknown_labels_per_hemi] returns exactly when the volume
    has a candidate voxel (an ID strictly between [unknown_label] and
    [cortex_stop] next to an unknown voxel).  Without one the arg-max
    over the empty list of parcels raises a [ValueError], and the array
    is left untouched. *)
Theorem fill_unknown_labels_per_hemi_outcome
  (gaussian_filter : ndarray Q -> Q -> ndarray Q) (h : list (ndarray Z)) (gt : nat)
  (g : ndarray Z) (unknown_label cortex_stop : Z) :
  h !! gt = Some g ->
  ((exists i p, candidate_voxel g unknown_label cortex_stop i p) ->
   exists g', fill_unknown_labels_per_hemi gaussian_filter gt unknown_label cortex_stop h
              = (Ok gt, <[gt := g']> h))
  /\ (~ (exists i p, candidate_voxel g unknown_label cortex_stop i p) ->
      fill_unknown_labels_per_hemi gaussian_filter gt unknown_label cortex_stop h
      = (Raise ValueError, h)).
Proof.
  intros Hg.
  destruct (fill_unknown_run gaussian_filter h gt g unknown_label cortex_stop Hg)
    as (ps & Hps & Hcases).
  pose proof (closest_parcels_spec g unknown_label cortex_stop ps Hps) as Hspec.
  split.
  - intros (i & p & Hc).
    destruct Hcases as [[-> _]|(_ & g' & Hok & _)].
    + exfalso. assert (Hin : p ∈ @nil Z) by (apply Hspec; exists i; exact Hc). inversion Hin.
    + exists g'. exact Hok.
  - intros Hno. destruct Hcases as [[_ Hr]|(Hne & _)]; [exact Hr|].
    exfalso. destruct ps as [|p ps]; [congruence|].
    apply Hno. destruct (proj1 (Hspec p)) as (i & Hc); [left|]. exists i, p. exact Hc.
Qed.

Lemma fill_unknown_labels_per_hemi_outcome_witness :
  candidate_voxel unknown_row 1000 2000 1 1003
  /\ exists g', fill_unknown_labels_per_hemi ident_filter 0 1000 2000 [unknown_row]
                = (Ok 0, <[0 := g']> [unknown_row]).
Proof.
  assert (Hc : candidate_voxel unknown_row 1000 2000 1 1003).
  { split; [reflexivity|]. split; [lia|]. exists 0.
    split; [apply list_elem_of_In; vm_compute; auto|reflexivity]. }
  split; [exact Hc|].
  apply (proj1 (fill_unknown_labels_per_hemi_outcome ident_filter [unknown_row] 0 unknown_row
                  1000 2000 eq_refl)).
  exists 1, 1003%Z. exact Hc.
Defined.

(** A volume in which every voxel is unknown has no candidate. *)
Example fill_unknown_all_unknown :
  forall gaussian_filter,
    fill_unknown_labels_per_hemi gaussian_filter 0 1000 2000
      [NDArray (1, 1, 2) [1000; 1000]%Z]
    = (Raise ValueError, [NDArray (1, 1, 2) [1000; 1000]%Z]).
Proof. intros gf. vm_compute. reflexivity. Qed.

(** ** More on fuse_cortex_labels *)

Lemma np_any_eq_true g v : np_any (np_eq g v) = true -> v ∈ data g.
Proof.
  unfold np_any, np_eq, amap. simpl. intros H.
  apply existsb_exists in H as (b & Hb & Hid). unfold id in Hid. subst b.
  apply in_map_iff in Hb as (x & Hx & Hin). apply Z.eqb_eq in Hx. subst x.
  apply list_elem_of_In, Hin.
Qed.

Section FuseRun.

Variable gaussian_filter : ndarray Q -> Q -> ndarray Q.

Lemma guarded_fill_cases (h : list (ndarray Z)) l g ul cs :
  h !! l = Some g ->
  let c := if np_any (np_eq g ul)
           then fill_unknown_labels_per_hemi gaussian_filter l ul cs
           else ret l in
  (np_any (np_eq g ul) = true /\ c h = (Raise ValueError, h))
  \/ exists g', c h = (Ok l, <[l := g']> h) /\ shape g' = shape g
                /\ Forall2 (fun v y => (v <> ul -> y = v) /\ (v = ul -> (ul < y < cs)%Z))
                     (data g) (data g').
Proof.
  intros Hg c. destruct (np_any (np_eq g ul)) eqn:Hany.
  - destruct (guarded_fill_run gaussian_filter h l g ul cs Hg) as [Hr|Hok];
      rewrite Hany in *; [left; split; [reflexivity|exact Hr]|right; exact Hok].
  - right. destruct (guarded_fill_run gaussian_filter h l g ul cs Hg) as [Hr|Hok];
      rewrite Hany in *; [discriminate|exact Hok].
Qed.

(** The two ways [fuse_cortex_labels] ends on an array of the store. *)
Lemma fuse_cortex_labels_run (h : list (ndarray Z)) l a :
  h !! l = Some a ->
  (exists h', fuse_cortex_labels gaussian_filter l h = (Raise ValueError, h')
              /\ (1000%Z ∈ data a \/ 2000%Z ∈ data a))
  \/ (exists a', fuse_cortex_labels gaussian_filter l h = (Ok l, <[l := a']> (h ++ [a]))
                 /\ shape a' = shape a /\ Forall2 fuse_trace (data a) (data a')).
Proof.
  intros Ha. unfold fuse_cortex_labels.
  assert (Hl : l < length (h ++ [a])).
  { rewrite length_app. apply lookup_lt_Some in Ha. lia. }
  assert (Hne : l <> length h) by (apply lookup_lt_Some in Ha; lia).
  assert (Ht : (h ++ [a]) !! length h = Some a) by apply list_lookup_middle, eq_refl.
  assert (Ha1 : (h ++ [a]) !! l = Some a).
  { rewrite lookup_app_l by (eapply lookup_lt_Some, Ha). exact Ha. }
  erewrite bind_ok by (unfold np_copy; rewrite Ha; reflexivity).
  set (h0 := h ++ [a]) in *.
  rewrite (bind_ok _ _ _ _ _ (clean_cortex_labels_ok h0 l a Ha1)).
  set (a1 := amap clean_voxel a).
  assert (H1 : <[l := a1]> h0 !! l = Some a1) by apply list_lookup_insert_eq, Hl.
  rewrite (bind_ok _ _ _ _ _ (load_ok _ _ _ H1)).
  destruct (guarded_fill_cases _ l a1 1000 2000 H1) as [[Hany Hr]|(a2 & Hr & Hs2 & HF2)];
    simpl in Hr.
  { left. eexists. split; [apply (bind_raise _ _ _ _ _ Hr)|]. left.
    apply np_any_eq_true in Hany. unfold a1 in Hany. simpl in Hany.
    apply list_elem_of_In, in_map_iff in Hany as (v & Hv & Hin).
    destruct (clean_voxel_spec v) as [[_ Heq]|[_ Ht']].
    - rewrite Heq in Hv. subst v. apply list_elem_of_In, Hin.
    - rewrite Hv in Ht'. apply list_elem_of_In in Ht'. simpl in Ht'. intuition discriminate. }
  rewrite (bind_ok _ _ _ _ _ Hr). rewrite list_insert_insert_eq. clear Hr H1.
  assert (H2 : <[l := a2]> h0 !! l = Some a2) by apply list_lookup_insert_eq, Hl.
  rewrite (bind_ok _ _ _ _ _ (load_ok _ _ _ H2)).
  destruct (guarded_fill_cases _ l a2 2000 3000 H2) as [[Hany Hr]|(a3 & Hr & Hs3 & HF3)];
    simpl in Hr.
  { left. eexists. split; [apply (bind_raise _ _ _ _ _ Hr)|]. right.
    apply np_any_eq_true, list_elem_of_lookup in Hany as (i & Hi).
    destruct (Forall2_lookup_r _ _ _ _ _ HF2 Hi) as (v1 & Hv1 & Hk & Hf).
    unfold a1 in Hv1. simpl in Hv1. rewrite lookup_map in Hv1.
    destruct (data a !! i) as [v|] eqn:Hv; [|discriminate]. injection Hv1 as <-.
    destruct (Z.eq_dec (clean_voxel v) 1000%Z) as [E|E]; [specialize (Hf E); lia|].
    specialize (Hk E).
    destruct (clean_voxel_spec v) as [[_ Heq]|[_ Ht']].
    - rewrite Heq in Hk. subst v. eapply list_elem_of_lookup_2, Hv.
    - rewrite <- Hk in Ht'. apply list_elem_of_In in Ht'. simpl in Ht'. intuition discriminate. }
  rewrite (bind_ok _ _ _ _ _ Hr). rewrite list_insert_insert_eq. clear Hr H2.
  assert (H3 : <[l := a3]> h0 !! l = Some a3) by apply list_lookup_insert_eq, Hl.
  rewrite (bind_ok _ _ _ tt _ (delateralize_ok _ l a3 H3)).
  rewrite list_insert_insert_eq. clear H3.
  assert (HF : Forall2 (fun v y => exists v2 v3,
                 ((clean_voxel v <> 1000 -> v2 = clean_voxel v)
                  /\ (clean_voxel v = 1000 -> 1000 < v2 < 2000))
                 /\ ((v2 <> 2000 -> v3 = v2) /\ (v2 = 2000 -> 2000 < v3 < 3000))
                 /\ y = delat_voxel v3)%Z (data a) (data (amap delat_voxel a3))).
  { apply Forall2_same_length_lookup_2.
    - assert (Hlen3 := HF3). apply Forall2_length in Hlen3.
      assert (Hlen2 := HF2). apply Forall2_length in Hlen2.
      simpl. rewrite length_map, <- Hlen3, <- Hlen2.
      unfold a1. simpl. rewrite length_map. reflexivity.
    - intros i v y Hv Hy. simpl in Hy. rewrite lookup_map in Hy.
      destruct (data a3 !! i) as [v3|] eqn:Hv3; [|discriminate]. injection Hy as <-.
      destruct (Forall2_lookup_r _ _ _ _ _ HF3 Hv3) as (v2 & Hv2 & Hf3).
      destruct (Forall2_lookup_r _ _ _ _ _ HF2 Hv2) as (v1 & Hv1 & Hf2).
      unfold a1 in Hv1. simpl in Hv1. rewrite lookup_map, Hv in Hv1. injection Hv1 as <-.
      exists v2, v3. split; [exact Hf2|]. split; [exact Hf3|reflexivity]. }
  assert (Hs : shape (amap delat_voxel a3) = shape a).
  { simpl. rewrite Hs3, Hs2. reflexivity. }
  revert HF Hs. generalize (amap delat_voxel a3). clear - Hl Hne Ht.
  intros x HF Hs.
  repeat match goal with
         | HF : Forall2 ?Rel (data a) (data ?x), Hs : shape ?x = shape a
           |- context [bind (setitem_eq l _ ?v ?v) (fun _ => ?k) (<[l := ?x]> h0)] =>
             let x' := fresh "x" in
             let Heq := fresh "Heq" in
             let HF' := fresh "HF" in
             let Hs' := fresh "Hs" in
             destruct (relateralize_step k h0 l (length h) a x v Rel Hl Hne Ht Hs HF)
               as (x' & Heq & Hs' & HF');
             rewrite Heq; clear Heq HF Hs; try clear x
         end.
  right.
  match goal with
  | HF : Forall2 _ (data a) (data ?x), Hs : shape ?x = shape a |- _ =>
      exists x; split; [reflexivity|]; split; [exact Hs|]; revert HF
  end.
  apply Forall2_impl. clear.
  intros v y H.
  repeat match goal with
         | H : exists _, _ |- _ => destruct H
         | H : _ /\ _ |- _ => destruct H
         end.
  subst. eexists _, _. split; [split; eassumption|]. split; [split; eassumption|]. split.
  - intros Hin. apply list_elem_of_In in Hin. simpl in Hin.
    repeat (destruct Hin as [<-|Hin]; [reflexivity|]). contradiction.
  - intros Hnin.
    repeat match goal with
           | |- context [(v =? ?c)%Z] =>
               destruct (Z.eqb_spec v c) as [->|_];
               [exfalso; apply Hnin, list_elem_of_In; simpl; tauto|]
           end.
    reflexivity.
Qed.

End FuseRun.

(** X3. Whenever [fuse_cortex_labels] returns, the array it rewrote
    holds none of the nine noise IDs, neither unknown label (1000,
    2000), and no right-cortex ID in [2000, 2999] other than an
    allow-listed one at a voxel that held that very ID before. *)
Theorem fuse_cortex_labels_output_labels
  (gaussian_filter : ndarray Q -> Q -> ndarray Q) (h h' : list (ndarray Z))
  (aparc r : nat) (a : ndarray Z) :
  h !! aparc = Some a ->
  fuse_cortex_labels gaussian_filter aparc h = (Ok r, h') ->
  exists a', h' !! aparc = Some a' /\
    forall i v, data a !! i = Some v ->
      exists y, data a' !! i = Some y /\
        (y ∉ noise_labels) /\ y <> 1000%Z /\ y <> 2000%Z /\
        ((2000 <= y <= 2999)%Z -> y ∈ relateralized /\ v = y).
Proof.
  intros Ha Hrun.
  destruct (fuse_cortex_labels_run gaussian_filter h aparc a Ha)
    as [(h1 & Hr & _)|(a' & Hok & _ & HF)]; [congruence|].
  rewrite Hok in Hrun. injection Hrun as <- <-.
  exists a'. split.
  { apply list_lookup_insert_eq. rewrite length_app. apply lookup_lt_Some in Ha. lia. }
  intros i v Hv. destruct (Forall2_lookup_l _ _ _ _ _ HF Hv) as (y & Hy & Htr).
  exists y. split; [exact Hy|].
  destruct Htr as (v2 & v3 & [Hc1 Hc2] & [Hd1 Hd2] & Hin & Hout).
  destruct (decide (v ∈ relateralized)) as [Hal|Hal].
  - rewrite (Hin Hal). clear - Hal.
    assert (Hcases := Hal). apply list_elem_of_In in Hcases. simpl in Hcases.
    repeat split; auto;
      try (intros Hc; try (apply list_elem_of_In in Hc; simpl in Hc); intuition lia).
  - rewrite (Hout Hal). clear Hin Hout Hy.
    assert (Hv3 : (v3 ∉ noise_labels) /\ v3 <> 1000%Z /\ v3 <> 2000%Z).
    { destruct (Z.eq_dec v2 2000%Z) as [E2|E2].
      - specialize (Hd2 E2). split; [|lia].
        intros Hc. apply list_elem_of_In in Hc. simpl in Hc. intuition lia.
      - rewrite (Hd1 E2). split; [|split; [|exact E2]].
        + destruct (Z.eq_dec (clean_voxel v) 1000%Z) as [E1|E1].
          * specialize (Hc2 E1). intros Hc. apply list_elem_of_In in Hc. simpl in Hc.
            intuition lia.
          * rewrite (Hc1 E1). destruct (clean_voxel_spec v) as [[Hn Heq]|[_ Ht]].
            -- rewrite Heq. exact Hn.
            -- intros Hc. apply list_elem_of_In in Hc, Ht. simpl in Hc, Ht.
               intuition congruence.
        + destruct (Z.eq_dec (clean_voxel v) 1000%Z) as [E1|E1];
            [specialize (Hc2 E1); lia|rewrite (Hc1 E1); exact E1]. }
    destruct Hv3 as (Hn3 & H31 & H32). unfold delat_voxel.
    destruct ((2000 <=? v3) && (v3 <=? 2999))%Z eqn:E.
    + apply andb_true_iff in E as [E1 E2]. apply Z.leb_le in E1, E2.
      repeat split; try lia.
      intros Hc. apply list_elem_of_In in Hc. simpl in Hc. intuition lia.
    + apply andb_false_iff in E. repeat split; auto; try lia.
      all: intros Hy; exfalso; destruct E as [E|E];
        [apply Z.leb_gt in E|apply Z.leb_gt in E]; lia.
Qed.

Lemma fuse_cortex_labels_output_labels_witness :
  [cortex_row] !! 0 = Some cortex_row
  /\ exists a', [NDArray (1, 1, 4) [1003; 2014; 1014; 5]%Z; cortex_row] !! 0 = Some a' /\
       forall i v, data cortex_row !! i = Some v ->
         exists y, data a' !! i = Some y /\
           (y ∉ noise_labels) /\ y <> 1000%Z /\ y <> 2000%Z /\
           ((2000 <= y <= 2999)%Z -> y ∈ relateralized /\ v = y).
Proof.
  split; [reflexivity|].
  exact (fuse_cortex_labels_output_labels ident_filter [cortex_row]
           [NDArray (1, 1, 4) [1003; 2014; 1014; 5]%Z; cortex_row] 0 0 cortex_row
           eq_refl eq_refl).
Defined.

(** X4. On an array of the store, [fuse_cortex_labels] either returns
    that array or raises a [ValueError] (an unknown label with no parcel
    around it); it can only raise when the volume holds an unknown
    label, so on a volume without 1000 and 2000 it always returns.  It
    allocates exactly one array, the copy of its input. *)
Theorem fuse_cortex_labels_outcome
  (gaussian_filter : ndarray Q -> Q -> ndarray Q) (h : list (ndarray Z)) (aparc : nat)
  (a : ndarray Z) :
  h !! aparc = Some a ->
  ((exists h', fuse_cortex_labels gaussian_filter aparc h = (Raise ValueError, h'))
   \/ (exists a', fuse_cortex_labels gaussian_filter aparc h
                  = (Ok aparc, <[aparc := a']> (h ++ [a]))))
  /\ ((1000%Z ∉ data a) -> (2000%Z ∉ data a) ->
      exists a', fuse_cortex_labels gaussian_filter aparc h
                 = (Ok aparc, <[aparc := a']> (h ++ [a]))).
Proof.
  intros Ha.
  destruct (fuse_cortex_labels_run gaussian_filter h aparc a Ha)
    as [(h1 & Hr & Hun)|(a' & Hok & _)].
  - split; [left; exists h1; exact Hr|].
    intros H1 H2. destruct Hun; contradiction.
  - split; [right|intros _ _]; exists a'; exact Hok.
Qed.

Lemma fuse_cortex_labels_outcome_witness :
  [NDArray (1, 1, 3) [85; 2003; 2014]%Z] !! 0 = Some (NDArray (1, 1, 3) [85; 2003; 2014]%Z)
  /\ ((exists h', fuse_cortex_labels ident_filter 0 [NDArray (1, 1, 3) [85; 2003; 2014]%Z]
                  = (Raise ValueError, h'))
      \/ (exists a', fuse_cortex_labels ident_filter 0 [NDArray (1, 1, 3) [85; 2003; 2014]%Z]
                     = (Ok 0, <[0 := a']> ([NDArray (1, 1, 3) [85; 2003; 2014]%Z]
                                             ++ [NDArray (1, 1, 3) [85; 2003; 2014]%Z]))))
  /\ ((1000%Z ∉ [85; 2003; 2014]%Z) -> (2000%Z ∉ [85; 2003; 2014]%Z) ->
      exists a', fuse_cortex_labels ident_filter 0 [NDArray (1, 1, 3) [85; 2003; 2014]%Z]
                 = (Ok 0, <[0 := a']> ([NDArray (1, 1, 3) [85; 2003; 2014]%Z]
                                         ++ [NDArray (1, 1, 3) [85; 2003; 2014]%Z]))).
Proof.
  split; [reflexivity|].
  exact (fuse_cortex_labels_outcome ident_filter [NDArray (1, 1, 3) [85; 2003; 2014]%Z] 0
           (NDArray (1, 1, 3) [85; 2003; 2014]%Z) eq_refl).
Defined.

(** ** fuse_cortex_labels: the parcel behind a filled voxel *)

Section FuseParcel.

Variable gaussian_filter : ndarray Q -> Q -> ndarray Q.

(** The guarded fill of [fuse_cortex_labels], with the candidate parcels
    it chose from. *)
Lemma guarded_fill_parcels (h : list (ndarray Z)) l g ul cs :
  h !! l = Some g ->
  let c := if np_any (np_eq g ul)
           then fill_unknown_labels_per_hemi gaussian_filter l ul cs
           else ret l in
  c h = (Raise ValueError, h)
  \/ exists g' ps, c h = (Ok l, <[l := g']> h) /\ shape g' = shape g
                   /\ closest_parcels g ul cs = Ok ps
                   /\ Forall2 (filled ul ps) (data g) (data g').
Proof.
  intros Hg c. subst c. destruct (np_any (np_eq g ul)) eqn:Hany.
  - destruct (fill_unknown_run gaussian_filter h l g ul cs Hg)
      as (ps & Hps & [[_ Hr]|(_ & g' & Hok & Hs & HF)]); [left; exact Hr|].
    right. exists g', ps. auto.
  - right. destruct (closest_parcels_ok g ul cs) as (ps & Hps & _).
    exists g, ps. rewrite (list_insert_id _ _ _ Hg). repeat split; auto.
    apply np_any_eq_false in Hany.
    apply Forall2_same_length_lookup_2; [reflexivity|].
    intros i x y Hx Hy. assert (x = y) as <- by congruence.
    split; [reflexivity|]. intros ->.
    exfalso. exact (Forall_lookup_1 _ _ _ _ Hany Hx eq_refl).
Qed.

(** A voxel that was 2000 ends as a candidate parcel of the original
    volume, shifted by 1000: the clean-up and the fill of the left
    unknown label leave the right-hemisphere cortex IDs and the label
    2000 where they were, so the candidates of the second fill are
    candidates of the original volume. *)
Lemma fuse_cortex_labels_unknown_parcel (h : list (ndarray Z)) l a r h' :
  h !! l = Some a ->
  fuse_cortex_labels gaussian_filter l h = (Ok r, h') ->
  exists a', h' = <[l := a']> (h ++ [a])
    /\ Forall2 (fun v y => v = 2000%Z ->
                  exists j, candidate_voxel a 2000 3000 j (y + 1000)%Z)
         (data a) (data a').
Proof.
  intros Ha. unfold fuse_cortex_labels.
  assert (Hl : l < length (h ++ [a])).
  { rewrite length_app. apply lookup_lt_Some in Ha. lia. }
  assert (Hne : l <> length h) by (apply lookup_lt_Some in Ha; lia).
  assert (Ht : (h ++ [a]) !! length h = Some a) by apply list_lookup_middle, eq_refl.
  assert (Ha1 : (h ++ [a]) !! l = Some a).
  { rewrite lookup_app_l by (eapply lookup_lt_Some, Ha). exact Ha. }
  erewrite bind_ok by (unfold np_copy; rewrite Ha; reflexivity).
  set (h0 := h ++ [a]) in *.
  rewrite (bind_ok _ _ _ _ _ (clean_cortex_labels_ok h0 l a Ha1)).
  set (a1 := amap clean_voxel a).
  assert (H1 : <[l := a1]> h0 !! l = Some a1) by apply list_lookup_insert_eq, Hl.
  rewrite (bind_ok _ _ _ _ _ (load_ok _ _ _ H1)).
  destruct (guarded_fill_run gaussian_filter _ l a1 1000 2000 H1)
    as [Hr|(a2 & Hr & Hs2 & HF2)]; simpl in Hr.
  { rewrite (bind_raise _ _ _ _ _ Hr). discriminate. }
  rewrite (bind_ok _ _ _ _ _ Hr). rewrite list_insert_insert_eq. clear Hr H1.
  assert (H2 : <[l := a2]> h0 !! l = Some a2) by apply list_lookup_insert_eq, Hl.
  rewrite (bind_ok _ _ _ _ _ (load_ok _ _ _ H2)).
  destruct (guarded_fill_parcels _ l a2 2000 3000 H2)
    as [Hr|(a3 & ps & Hr & Hs3 & Hps & HF3)]; simpl in Hr.
  { rewrite (bind_raise _ _ _ _ _ Hr). discriminate. }
  rewrite (bind_ok _ _ _ _ _ Hr). rewrite list_insert_insert_eq. clear Hr H2.
  assert (H3 : <[l := a3]> h0 !! l = Some a3) by apply list_lookup_insert_eq, Hl.
  rewrite (bind_ok _ _ _ tt _ (delateralize_ok _ l a3 H3)).
  rewrite list_insert_insert_eq. clear H3.
  (* the right-hemisphere cortex of the volume before the second fill is
     that of the original volume *)
  assert (Hback : forall i x, data a2 !! i = Some x -> (2000 <= x < 3000)%Z ->
                              data a !! i = Some x).
  { intros i x Hx Hr.
    destruct (Forall2_lookup_r _ _ _ _ _ HF2 Hx) as (v1 & Hv1 & Hk & Hf).
    unfold a1 in Hv1. cbn [amap data] in Hv1. rewrite lookup_map in Hv1.
    destruct (data a !! i) as [v|] eqn:Hv; [|discriminate]. injection Hv1 as <-.
    destruct (Z.eq_dec (clean_voxel v) 1000%Z) as [E|E]; [specialize (Hf E); lia|].
    specialize (Hk E). subst x.
    destruct (clean_voxel_spec v) as [[_ Heq]|[_ Hin]]; [congruence|].
    apply list_elem_of_In in Hin. simpl in Hin. intuition lia. }
  assert (Hcand : forall j p, candidate_voxel a2 2000 3000 j p ->
                              candidate_voxel a 2000 3000 j p).
  { intros j p (Hp & Hr & q & Hq & Hu).
    split; [apply Hback; [exact Hp|lia]|]. split; [exact Hr|].
    exists q. split; [|apply Hback; [exact Hu|lia]].
    rewrite Hs2 in Hq. exact Hq. }
  assert (HF : Forall2 (fun v y => v = 2000%Z ->
                          exists j, candidate_voxel a 2000 3000 j (y + 1000)%Z)
                 (data a) (data (amap delat_voxel a3))).
  { apply Forall2_same_length_lookup_2.
    - assert (Hlen3 := HF3). apply Forall2_length in Hlen3.
      assert (Hlen2 := HF2). apply Forall2_length in Hlen2.
      simpl. rewrite length_map, <- Hlen3, <- Hlen2.
      unfold a1. simpl. rewrite length_map. reflexivity.
    - intros i v y Hv Hy ->. simpl in Hy. rewrite lookup_map in Hy.
      destruct (data a3 !! i) as [v3|] eqn:Hv3; [|discriminate]. injection Hy as <-.
      destruct (Forall2_lookup_r _ _ _ _ _ HF3 Hv3) as (v2 & Hv2 & _ & Hf3).
      destruct (Forall2_lookup_r _ _ _ _ _ HF2 Hv2) as (v1 & Hv1 & Hk & _).
      unfold a1 in Hv1. simpl in Hv1. rewrite lookup_map, Hv in Hv1. injection Hv1 as <-.
      change (clean_voxel 2000) with 2000%Z in Hk.
      assert (v2 = 2000%Z) as -> by (apply Hk; lia).
      specialize (Hf3 eq_refl).
      apply (closest_parcels_spec a2 2000 3000 ps Hps) in Hf3 as (j & Hj).
      exists j. apply Hcand.
      assert (Hr : (2000 < v3 < 3000)%Z) by (destruct Hj as (_ & Hr & _); exact Hr).
      unfold delat_voxel.
      replace ((2000 <=? v3) && (v3 <=? 2999))%Z with true
        by (symmetry; apply andb_true_iff; split; apply Z.leb_le; lia).
      replace (v3 - 1000 + 1000)%Z with v3 by lia. exact Hj. }
  assert (Hs : shape (amap delat_voxel a3) = shape a).
  { simpl. rewrite Hs3, Hs2. reflexivity. }
  revert HF Hs. generalize (amap delat_voxel a3). clear - Hl Hne Ht.
  intros x HF Hs.
  repeat match goal with
         | HF : Forall2 ?Rel (data a) (data ?x), Hs : shape ?x = shape a
           |- context [bind (setitem_eq l _ ?v ?v) (fun _ => ?k) (<[l := ?x]> h0)] =>
             let x' := fresh "x" in
             let Heq := fresh "Heq" in
             let HF' := fresh "HF" in
             let Hs' := fresh "Hs" in
             destruct (relateralize_step k h0 l (length h) a x v Rel Hl Hne Ht Hs HF)
               as (x' & Heq & Hs' & HF');
             rewrite Heq; clear Heq HF Hs; try clear x
         end.
  unfold ret. intros [= <- <-].
  match goal with
  | HF : Forall2 _ (data a) (data ?x) |- _ => exists x; split; [reflexivity|]; revert HF
  end.
  apply Forall2_impl.
  intros v y H ->.
  repeat match goal with
         | H : exists _, _ |- _ => destruct H
         | H : _ /\ _ |- _ => destruct H
         end.
  subst. cbn [Z.eqb Pos.eqb]. auto.
Qed.

End FuseParcel.

(** C4 (amended). Whenever [fuse_cortex_labels] returns, it returns the
    array it was given, rewritten in place: every voxel whose original
    value is one of the fourteen allow-listed right-hemisphere parcels
    keeps that value; every voxel whose original value lies in
    [2001, 2999] outside the allow-list holds that value minus 1000; and
    a voxel that was 2000 (unknown) holds a value in [1001, 1999] that is
    a neighbouring parcel shifted by 1000: the value plus 1000 is the ID,
    strictly between 2000 and 3000, of a voxel of the original volume
    that has a voxel equal to 2000 among its neighbours under the
    connectivity-2 structuring element. *)
Theorem fuse_cortex_labels_delateralizes
  (gaussian_filter : ndarray Q -> Q -> ndarray Q) (h h' : list (ndarray Z)) (aparc r : nat)
  (a : ndarray Z) :
  h !! aparc = Some a ->
  fuse_cortex_labels gaussian_filter aparc h = (Ok r, h') ->
  r = aparc /\
  exists a', h' !! aparc = Some a' /\ shape a' = shape a /\
    forall i v, data a !! i = Some v ->
      exists y, data a' !! i = Some y /\
        (v ∈ relateralized -> y = v) /\
        (v ∉ relateralized -> (2001 <= v <= 2999)%Z -> y = (v - 1000)%Z) /\
        (v = 2000%Z ->
         (1001 <= y <= 1999)%Z
         /\ exists j, candidate_voxel a 2000 3000 j (y + 1000)%Z).
Proof.
  intros Ha Hrun.
  destruct (fuse_cortex_labels_ok gaussian_filter h aparc a r h' Ha Hrun)
    as (-> & a' & Hh' & Hs & HF).
  destruct (fuse_cortex_labels_unknown_parcel gaussian_filter h aparc a aparc h' Ha Hrun)
    as (a'' & Hh'' & HP).
  assert (Hlt : aparc < length (h ++ [a])).
  { rewrite length_app. apply lookup_lt_Some in Ha. lia. }
  assert (a'' = a') as ->.
  { assert (E : <[aparc := a'']> (h ++ [a]) !! aparc = <[aparc := a']> (h ++ [a]) !! aparc)
      by congruence.
    rewrite !list_lookup_insert_eq in E by exact Hlt. congruence. }
  split; [reflexivity|]. exists a'. split; [|split; [exact Hs|]].
  - rewrite Hh'. apply list_lookup_insert_eq, Hlt.
  - intros i v Hv. destruct (Forall2_lookup_l _ _ _ _ _ HF Hv) as (y & Hy & Hf1 & Hf2 & Hf3).
    destruct (Forall2_lookup_l _ _ _ _ _ HP Hv) as (y' & Hy' & Hp).
    assert (y' = y) as -> by congruence.
    exists y. split; [exact Hy|]. split; [exact Hf1|]. split; [exact Hf2|].
    intros Hv2. split; [apply Hf3, Hv2|apply Hp, Hv2].
Qed.

Lemma fuse_cortex_labels_delateralizes_witness :
  fuse_cortex_labels ident_filter 0 [cortex_row]
  = (Ok 0, [NDArray (1, 1, 4) [1003; 2014; 1014; 5]%Z; cortex_row])
  /\ candidate_voxel cortex_row 2000 3000 1 2014
  /\ exists a', [NDArray (1, 1, 4) [1003; 2014; 1014; 5]%Z; cortex_row] !! 0 = Some a' /\
       shape a' = shape cortex_row /\
       forall i v, data cortex_row !! i = Some v ->
         exists y, data a' !! i = Some y /\
           (v ∈ relateralized -> y = v) /\
           (v ∉ relateralized -> (2001 <= v <= 2999)%Z -> y = (v - 1000)%Z) /\
           (v = 2000%Z ->
            (1001 <= y <= 1999)%Z
            /\ exists j, candidate_voxel cortex_row 2000 3000 j (y + 1000)%Z).
Proof.
  split; [vm_compute; reflexivity|].
  split.
  { split; [reflexivity|]. split; [lia|]. exists 2.
    split; [apply list_elem_of_In; vm_compute; auto|reflexivity]. }
  exact (proj2 (fuse_cortex_labels_delateralizes ident_filter [cortex_row]
                  [NDArray (1, 1, 4) [1003; 2014; 1014; 5]%Z; cortex_row] 0 0 cortex_row
                  eq_refl eq_refl)).
Defined.

(** ** More on the look-up table mapping *)

Lemma rmapM_of_Forall2 {X Y} (f : X -> result Y) xs ys :
  Forall2 (fun x y => f x = Ok y) xs ys -> rmapM f xs = Ok ys.
Proof.
  induction 1 as [|x y xs ys Hxy _ IH]; simpl; [reflexivity|].
  rewrite Hxy. simpl. rewrite IH. reflexivity.
Qed.

(** What a successful look-up table mapping computed: a listed value
    goes to a position of it, an unlisted (non-negative) value to 0. *)
Lemma lut_mapping_inv labels a m :
  lut_mapping labels a = Ok m -> Forall (fun v => 0 <= v)%Z labels ->
  shape m = shape a /\
  Forall2 (fun v y => (0 <= v)%Z ->
             (v ∈ labels -> exists j, y = Z.of_nat j /\ labels !! j = Some v)
             /\ (v ∉ labels -> y = 0%Z))
    (data a) (data m).
Proof.
  unfold lut_mapping. intros Hrun Hpos.
  destruct (py_max labels) as [m0|] eqn:Hmax; simpl in Hrun; [|discriminate].
  pose proof (py_max_ge _ _ Hmax) as Hle.
  assert (Hm : (0 <= m0)%Z).
  { destruct labels as [|x l]; [discriminate|].
    inversion Hpos; subst. inversion Hle; subst. lia. }
  unfold np_zeros in Hrun. destruct (Z.ltb_spec (m0 + 1) 0); [lia|]. simpl in Hrun.
  destruct (fill_lut_spec labels (repeat 0%Z (Z.to_nat (m0 + 1))) 0) as (lut & Hfill & Hlen & Hspec).
  { rewrite repeat_length. rewrite Forall_forall in Hpos, Hle |- *.
    intros v Hv. specialize (Hpos v Hv). specialize (Hle v Hv). lia. }
  rewrite Hfill in Hrun. simpl in Hrun.
  destruct (np_take lut (data a)) as [out|] eqn:Htake; simpl in Hrun; [|discriminate].
  injection Hrun as <-. split; [reflexivity|]. simpl.
  unfold np_take in Htake. eapply rmapM_Forall2; [|exact Htake].
  intros v y Hy Hv. simpl in Hy.
  unfold np_index in Hy. destruct (Z.leb_spec 0 v); [|lia].
  destruct (Z.ltb_spec v (Z.of_nat (length lut))); simpl in Hy.
  2:{ destruct ((- Z.of_nat (length lut) <=? v) && (v <? 0))%Z eqn:E; simpl in Hy;
      [|discriminate]. apply andb_true_iff in E as [_ E]. apply Z.ltb_lt in E. lia. }
  injection Hy as <-. rewrite nth_lookup.
  destruct (Hspec v Hv) as [Hin Hnin]. split.
  - intros Hl. destruct (Hin Hl) as (j & Hj & ->). exists j. split; [reflexivity|exact Hj].
  - intros Hl. rewrite (Hnin Hl).
    destruct (repeat 0%Z (Z.to_nat (m0 + 1)) !! Z.to_nat v) as [z|] eqn:E; [|reflexivity].
    apply list_elem_of_lookup_2, list_elem_of_In, repeat_spec in E. subst z. reflexivity.
Qed.

Lemma amap_id (x : ndarray Z) : amap (fun v => v) x = x.
Proof. destruct x as [s d]. unfold amap. cbn [shape data]. rewrite map_id. reflexivity. Qed.

(** The loop over the dictionary rewrites the array voxel by voxel. *)
Lemma map_sagittal_labels_run items : forall (h : list (ndarray Z)) l x,
  h !! l = Some x ->
  map_sagittal_labels l items h
  = (Ok tt,
     <[l := amap (fun v => foldl (fun x '(left_, right_) => relabel left_ right_ x) v items) x]> h).
Proof.
  induction items as [|[v w] items IH]; intros h l x Hx; cbn [map_sagittal_labels foldl].
  - rewrite amap_id, (list_insert_id _ _ _ Hx). reflexivity.
  - rewrite (setitem_eq_self_then h l x v w _ Hx).
    rewrite (IH (<[l := amap (relabel v w) x]> h) l (amap (relabel v w) x))
      by (eapply insert_lookup_eq, Hx).
    rewrite list_insert_insert_eq, amap_amap. reflexivity.
Qed.

Section SagittalTail.

Variable gaussian_filter : ndarray Q -> Q -> ndarray Q.

(** The statements of [map_aparc_aseg2label] after the full-space
    mapping, with the volume they leave in the input array. *)
Lemma sagittal_tail_voxels (h : list (ndarray Z)) aseg a1 (processing : string) dict
  labels_sag (mapped : ndarray Z) :
  h !! aseg = Some a1 ->
  ((if String.eqb processing "aparc" then delateralize aseg else ret tt) ;;;
   map_sagittal_labels aseg dict ;;;
   a <- load aseg ;;
   mapped_aseg_sag <- lift (lut_mapping labels_sag a) ;;
   ret (mapped, mapped_aseg_sag)) h
  = (rbind (lut_mapping labels_sag (amap (sagittal_voxel processing dict) a1))
       (fun ms => Ok (mapped, ms)),
     <[aseg := amap (sagittal_voxel processing dict) a1]> h).
Proof.
  intros Ha1.
  set (a' := if String.eqb processing "aparc" then amap delat_voxel a1 else a1).
  assert (Hd : (if String.eqb processing "aparc" then delateralize aseg else ret tt) h
               = (Ok tt, <[aseg := a']> h)).
  { unfold a'. destruct (String.eqb processing "aparc").
    - apply delateralize_ok, Ha1.
    - rewrite (list_insert_id _ _ _ Ha1). reflexivity. }
  rewrite (bind_ok _ _ _ tt _ Hd).
  rewrite (bind_ok _ _ _ tt _
             (map_sagittal_labels_run dict (<[aseg := a']> h) aseg a'
                (insert_lookup_eq _ _ _ _ Ha1))).
  rewrite list_insert_insert_eq.
  assert (Ha2 : amap (fun v => foldl (fun x '(left_, right_) => relabel left_ right_ x) v dict) a'
                = amap (sagittal_voxel processing dict) a1).
  { unfold a', sagittal_voxel. destruct (String.eqb processing "aparc"); [|reflexivity].
    apply amap_amap. }
  rewrite Ha2.
  erewrite bind_ok by (apply load_ok; eapply insert_lookup_eq, Ha1).
  unfold bind, lift, ret. destruct (lut_mapping labels_sag _); reflexivity.
Qed.

End SagittalTail.

(** X5. When [map_aparc_aseg2label] returns, the preprocessing has
    returned, and the input array holds the preprocessed volume with
    every voxel taken to the sagittal label space: shifted by 1000 when
    it is a right-cortex ID in [aparc] mode, then rewritten by the
    entries of [sagittal_lut_dict] in their order.  The sagittal output
    is the table look-up of that volume, which no check guards: a
    non-negative ID that is in [labels_sag] goes to a position of it,
    and one that is not goes silently to 0. *)
Theorem map_aparc_aseg2label_sagittal_lookup
  (gaussian_filter : ndarray Q -> Q -> ndarray Q) (h h' : list (ndarray Z)) (aseg : nat)
  (labels labels_sag : list Z) (sagittal_lut_dict : list (Z * Z))
  (aseg_nocc : option nat) (processing : string) (mapped_aseg mapped_aseg_sag : ndarray Z) :
  map_aparc_aseg2label gaussian_filter aseg labels labels_sag sagittal_lut_dict
    aseg_nocc processing h = (Ok (mapped_aseg, mapped_aseg_sag), h') ->
  Forall (fun v => 0 <= v)%Z labels_sag ->
  exists h1 a1,
    preprocess_aseg gaussian_filter aseg aseg_nocc processing h = (Ok aseg, h1)
    /\ h1 !! aseg = Some a1
    /\ h' = <[aseg := amap (sagittal_voxel processing sagittal_lut_dict) a1]> h1
    /\ shape mapped_aseg_sag = shape a1
    /\ forall i v, data a1 !! i = Some v ->
         let s := sagittal_voxel processing sagittal_lut_dict v in
         (0 <= s)%Z ->
         exists y, data mapped_aseg_sag !! i = Some y /\
           (s ∈ labels_sag -> exists j, y = Z.of_nat j /\ labels_sag !! j = Some s) /\
           (s ∉ labels_sag -> y = 0%Z).
Proof.
  intros Hrun Hpos.
  destruct (preprocess_aseg gaussian_filter aseg aseg_nocc processing h)
    as [[l1|e] h1] eqn:Hpre.
  2:{ unfold map_aparc_aseg2label in Hrun.
      rewrite (bind_raise _ _ _ _ _ Hpre) in Hrun. discriminate. }
  assert (l1 = aseg) as -> by (eapply returns_preprocess, Hpre).
  unfold map_aparc_aseg2label in Hrun.
  rewrite (bind_ok _ _ _ _ _ Hpre) in Hrun.
  destruct (h1 !! aseg) as [a1|] eqn:Ha1.
  2:{ erewrite bind_raise in Hrun by (unfold load; rewrite Ha1; reflexivity).
      discriminate. }
  rewrite (bind_ok _ _ _ _ _ (load_ok _ _ _ Ha1)) in Hrun.
  destruct (issuperset labels a1).
  2:{ erewrite bind_raise in Hrun by reflexivity. discriminate. }
  erewrite (bind_ok _ _ _ tt) in Hrun by reflexivity.
  destruct (lut_mapping labels a1) as [mapped|e] eqn:Hmap.
  2:{ erewrite bind_raise in Hrun by reflexivity. discriminate. }
  erewrite bind_ok in Hrun by reflexivity.
  rewrite (sagittal_tail_voxels h1 aseg a1 processing sagittal_lut_dict labels_sag mapped Ha1)
    in Hrun.
  set (a2 := amap (sagittal_voxel processing sagittal_lut_dict) a1) in *.
  destruct (lut_mapping labels_sag a2) as [ms|] eqn:Hsag; [|discriminate].
  cbn [rbind] in Hrun. injection Hrun as <- <- <-.
  exists h1, a1. split; [reflexivity|]. split; [exact Ha1|]. split; [reflexivity|].
  destruct (lut_mapping_inv _ _ _ Hsag Hpos) as [Hs HF]. split; [exact Hs|].
  intros i v Hv s Hs0.
  assert (Hv2 : data a2 !! i = Some s).
  { unfold a2, amap. cbn [data]. rewrite lookup_map, Hv. reflexivity. }
  destruct (Forall2_lookup_l _ _ _ _ _ HF Hv2) as (y & Hy & Hf).
  exists y. split; [exact Hy|]. exact (Hf Hs0).
Qed.

Lemma map_aparc_aseg2label_sagittal_lookup_witness :
  map_aparc_aseg2label ident_filter 0 [0; 2; 17; 41]%Z [0; 41]%Z [(2, 41)]%Z None "aparc"
    [sagittal_gap_row]
  = (Ok (NDArray (1, 1, 3) [0; 1; 2]%Z, NDArray (1, 1, 3) [0; 1; 0]%Z),
     [NDArray (1, 1, 3) [0; 41; 17]%Z; sagittal_gap_row])
  /\ map (sagittal_voxel "aparc" [(2, 41)]%Z) [0; 2; 17]%Z = [0; 41; 17]%Z
  /\ exists h1 a1,
      preprocess_aseg ident_filter 0 None "aparc" [sagittal_gap_row] = (Ok 0, h1)
      /\ h1 !! 0 = Some a1
      /\ [NDArray (1, 1, 3) [0; 41; 17]%Z; sagittal_gap_row]
         = <[0 := amap (sagittal_voxel "aparc" [(2, 41)]%Z) a1]> h1
      /\ shape (NDArray (1, 1, 3) [0; 1; 0]%Z) = shape a1
      /\ forall i v, data a1 !! i = Some v ->
           let s := sagittal_voxel "aparc" [(2, 41)]%Z v in
           (0 <= s)%Z ->
           exists y, [0; 1; 0]%Z !! i = Some y /\
             (s ∈ [0; 41]%Z -> exists j, y = Z.of_nat j /\ [0; 41]%Z !! j = Some s) /\
             (s ∉ [0; 41]%Z -> y = 0%Z).
Proof.
  assert (Hpos : Forall (fun v => 0 <= v)%Z [0; 41]%Z) by (repeat constructor; lia).
  split; [vm_compute; reflexivity|]. split; [reflexivity|].
  exact (map_aparc_aseg2label_sagittal_lookup ident_filter [sagittal_gap_row]
           [NDArray (1, 1, 3) [0; 41; 17]%Z; sagittal_gap_row] 0 [0; 2; 17; 41]%Z [0; 41]%Z
           [(2, 41)]%Z None "aparc" (NDArray (1, 1, 3) [0; 1; 2]%Z)
           (NDArray (1, 1, 3) [0; 1; 0]%Z) eq_refl Hpos).
Defined.

(** X8. Whatever its outcome, [map_aparc_aseg2label] writes into the
    input segmentation only: every other array that the caller holds
    ([aseg_nocc] when it is a different array) is unchanged, and no array
    of the store is dropped. *)
Theorem map_aparc_aseg2label_frame
  (gaussian_filter : ndarray Q -> Q -> ndarray Q) (h h' : list (ndarray Z)) (aseg : nat)
  (labels labels_sag : list Z) (sagittal_lut_dict : list (Z * Z))
  (aseg_nocc : option nat) (processing : string) (r : result (ndarray Z * ndarray Z)) :
  map_aparc_aseg2label gaussian_filter aseg labels labels_sag sagittal_lut_dict
    aseg_nocc processing h = (r, h') ->
  length h <= length h' /\ forall k, k <> aseg -> k < length h -> h' !! k = h !! k.
Proof.
  intros Hrun.
  assert (Hw : writes_only aseg
                 (map_aparc_aseg2label gaussian_filter aseg labels labels_sag
                    sagittal_lut_dict aseg_nocc processing)).
  { unfold map_aparc_aseg2label.
    apply (writes_only_bind_val aseg _ _ aseg);
      [apply writes_only_preprocess|apply returns_preprocess|].
    repeat first [ apply writes_only_delateralize | apply writes_only_map_sagittal_labels
                 | frame_step ]. }
  exact (Hw h r h' Hrun).
Qed.

Lemma map_aparc_aseg2label_frame_witness :
  map_aparc_aseg2label ident_filter 0 [0; 2; 4; 41]%Z [0; 41]%Z [(2, 41)]%Z (Some 1) "aparc"
    [NDArray (1, 1, 2) [251; 2]%Z; NDArray (1, 1, 2) [4; 4]%Z]
  = (Ok (NDArray (1, 1, 2) [2; 1]%Z, NDArray (1, 1, 2) [0; 1]%Z),
     [NDArray (1, 1, 2) [4; 41]%Z; NDArray (1, 1, 2) [4; 4]%Z; NDArray (1, 1, 2) [4; 2]%Z])
  /\ 2 <= 3
  /\ forall k, k <> 0 -> k < 2 ->
       [NDArray (1, 1, 2) [4; 41]%Z; NDArray (1, 1, 2) [4; 4]%Z; NDArray (1, 1, 2) [4; 2]%Z]
         !! k
       = [NDArray (1, 1, 2) [251; 2]%Z; NDArray (1, 1, 2) [4; 4]%Z] !! k.
Proof.
  split; [vm_compute; reflexivity|].
  exact (map_aparc_aseg2label_frame ident_filter
           [NDArray (1, 1, 2) [251; 2]%Z; NDArray (1, 1, 2) [4; 4]%Z]
           [NDArray (1, 1, 2) [4; 41]%Z; NDArray (1, 1, 2) [4; 4]%Z;
            NDArray (1, 1, 2) [4; 2]%Z]
           0 [0; 2; 4; 41]%Z [0; 41]%Z [(2, 41)]%Z (Some 1) "aparc"
           (Ok (NDArray (1, 1, 2) [2; 1]%Z, NDArray (1, 1, 2) [0; 1]%Z)) eq_refl).
Defined.

(** ** Round trips between LUT IDs and label positions *)

(** X6. Mapping a volume whose IDs are all listed to the label space
    and back with [map_label2aparc_aseg] recovers the volume, for every
    non-empty list of non-negative labels (duplicates included). *)
Theorem lut_mapping_then_map_label2aparc_aseg (labels : list Z) (aseg : ndarray Z) :
  labels <> [] -> Forall (fun v => 0 <= v)%Z labels ->
  (forall v, v ∈ data aseg -> v ∈ labels) ->
  exists mapped_aseg,
    lut_mapping labels aseg = Ok mapped_aseg
    /\ map_label2aparc_aseg mapped_aseg labels = Ok aseg.
Proof.
  intros Hne Hpos Hin.
  destruct (lut_mapping_ok labels aseg Hne Hpos Hin) as (m & Hm & Hs & HF).
  exists m. split; [exact Hm|]. unfold map_label2aparc_aseg.
  assert (Htake : np_take labels (data m) = Ok (data aseg)).
  { unfold np_take. apply rmapM_of_Forall2.
    apply Forall2_flip. revert HF. apply Forall2_impl.
    intros v y (j & -> & Hj).
    rewrite np_index_nonneg by (apply lookup_lt_Some in Hj; lia). simpl.
    rewrite Nat2Z.id. f_equal. apply nth_lookup_Some with (d := 0%Z) in Hj. exact Hj. }
  rewrite Htake. simpl. rewrite Hs. destruct aseg. reflexivity.
Qed.

Lemma lut_mapping_then_map_label2aparc_aseg_witness :
  ([0; 2; 41; 1003]%Z <> [] /\ Forall (fun v => 0 <= v)%Z [0; 2; 41; 1003]%Z
   /\ (forall v, v ∈ [41; 0; 1003; 41]%Z -> v ∈ [0; 2; 41; 1003]%Z))
  /\ exists mapped_aseg,
      lut_mapping [0; 2; 41; 1003]%Z (NDArray (1, 2, 2) [41; 0; 1003; 41]%Z) = Ok mapped_aseg
      /\ map_label2aparc_aseg mapped_aseg [0; 2; 41; 1003]%Z
         = Ok (NDArray (1, 2, 2) [41; 0; 1003; 41]%Z).
Proof.
  assert (H1 : [0; 2; 41; 1003]%Z <> []) by discriminate.
  assert (H2 : Forall (fun v => 0 <= v)%Z [0; 2; 41; 1003]%Z) by (repeat constructor; lia).
  assert (H3 : forall v, v ∈ [41; 0; 1003; 41]%Z -> v ∈ [0; 2; 41; 1003]%Z).
  { intros v Hv. apply list_elem_of_In in Hv. apply list_elem_of_In. simpl in *. tauto. }
  split; [auto|].
  exact (lut_mapping_then_map_label2aparc_aseg [0; 2; 41; 1003]%Z
           (NDArray (1, 2, 2) [41; 0; 1003; 41]%Z) H1 H2 H3).
Defined.

(** X7. Conversely, for a non-empty list of distinct non-negative
    labels, taking the IDs of a volume of positions with
    [map_label2aparc_aseg] and mapping them back to the label space
    recovers the positions. *)
Theorem map_label2aparc_aseg_then_lut_mapping (labels : list Z) (mapped_aseg : ndarray Z) :
  labels <> [] -> NoDup labels -> Forall (fun v => 0 <= v)%Z labels ->
  Forall (fun y => 0 <= y < Z.of_nat (length labels))%Z (data mapped_aseg) ->
  exists aseg,
    map_label2aparc_aseg mapped_aseg labels = Ok aseg
    /\ lut_mapping labels aseg = Ok mapped_aseg.
Proof.
  intros Hne Hnd Hpos Hrange.
  set (ids := map (fun y => nth (Z.to_nat y) labels 0%Z) (data mapped_aseg)).
  assert (Htake : np_take labels (data mapped_aseg) = Ok ids).
  { unfold np_take, ids. apply rmapM_of_Forall2.
    induction Hrange as [|y ys Hy _ IH]; simpl; constructor; [|exact IH].
    rewrite np_index_nonneg by exact Hy. reflexivity. }
  unfold map_label2aparc_aseg. rewrite Htake. simpl.
  eexists. split; [reflexivity|].
  assert (Hin : forall v, v ∈ ids -> v ∈ labels).
  { intros v Hv. unfold ids in Hv. apply list_elem_of_In, in_map_iff in Hv as (y & <- & Hy).
    rewrite Forall_forall in Hrange. specialize (Hrange y Hy).
    apply list_elem_of_In, nth_In. lia. }
  destruct (lut_mapping_ok labels (NDArray (shape mapped_aseg) ids) Hne Hpos Hin)
    as (m & Hm & Hs & HF).
  rewrite Hm. f_equal. destruct m as [sm dm], mapped_aseg as [s d]. simpl in *.
  subst sm. f_equal.
  apply list_eq_same_length with (length d).
  - reflexivity.
  - apply Forall2_length in HF. unfold ids in HF. rewrite length_map in HF. auto.
  - intros i x y Hi Hx Hy.
    destruct (Forall2_lookup_r _ _ _ _ _ HF Hx) as (v & Hv & j & -> & Hj).
    unfold ids in Hv. rewrite lookup_map, Hy in Hv. injection Hv as Hv.
    rewrite Forall_forall in Hrange.
    assert (Hr : (0 <= y < Z.of_nat (length labels))%Z).
    { apply Hrange, list_elem_of_In. eapply list_elem_of_lookup_2, Hy. }
    assert (Hl : labels !! Z.to_nat y = Some v).
    { destruct (lookup_lt_is_Some_2 labels (Z.to_nat y)) as [w Hw]; [lia|].
      rewrite (nth_lookup_Some _ _ 0%Z _ Hw) in Hv. congruence. }
    rewrite (NoDup_lookup _ _ _ _ Hnd Hj Hl). lia.
Qed.

Lemma map_label2aparc_aseg_then_lut_mapping_witness :
  ([0; 2; 41; 1003]%Z <> [] /\ NoDup [0; 2; 41; 1003]%Z
   /\ Forall (fun v => 0 <= v)%Z [0; 2; 41; 1003]%Z
   /\ Forall (fun y => 0 <= y < Z.of_nat 4)%Z [2; 0; 3; 2]%Z)
  /\ exists aseg,
      map_label2aparc_aseg (NDArray (1, 2, 2) [2; 0; 3; 2]%Z) [0; 2; 41; 1003]%Z = Ok aseg
      /\ lut_mapping [0; 2; 41; 1003]%Z aseg = Ok (NDArray (1, 2, 2) [2; 0; 3; 2]%Z).
Proof.
  assert (H1 : [0; 2; 41; 1003]%Z <> []) by discriminate.
  assert (H2 : NoDup [0; 2; 41; 1003]%Z).
  { apply NoDup_ListNoDup. repeat constructor; simpl; intuition discriminate. }
  assert (H3 : Forall (fun v => 0 <= v)%Z [0; 2; 41; 1003]%Z) by (repeat constructor; lia).
  assert (H4 : Forall (fun y => 0 <= y < Z.of_nat 4)%Z [2; 0; 3; 2]%Z)
    by (repeat constructor; lia).
  split; [auto|].
  exact (map_label2aparc_aseg_then_lut_mapping [0; 2; 41; 1003]%Z
           (NDArray (1, 2, 2) [2; 0; 3; 2]%Z) H1 H2 H3 H4).
Defined.

(** ** Prefixes of label names *)

Lemma startswith_app pre rest : startswith (pre ++ rest) pre = true.
Proof.
  unfold startswith. induction pre as [|c pre IH]; simpl; [destruct rest; reflexivity|].
  destruct (ascii_dec c c); [exact IH|congruence].
Qed.

Lemma substring_skip pre rest :
  substring (String.length pre) (String.length rest) (pre ++ rest) = rest.
Proof.
  induction pre as [|c pre IH]; simpl; [|exact IH].
  induction rest as [|c rest IH]; simpl; [reflexivity|]. rewrite IH. reflexivity.
Qed.

Lemma length_append_string (s t : string) :
  String.length (s ++ t) = String.length s + String.length t.
Proof. induction s as [|c s IH]; simpl; [reflexivity|]. rewrite IH. reflexivity. Qed.

Lemma removeprefix_app pre rest : removeprefix (pre ++ rest) pre = rest.
Proof.
  unfold removeprefix. rewrite startswith_app, length_append_string.
  replace (String.length pre + String.length rest - String.length pre)
    with (String.length rest) by lia.
  apply substring_skip.
Qed.

Lemma startswith_inv s pre : startswith s pre = true -> exists rest, s = (pre ++ rest)%string.
Proof.
  unfold startswith. revert s. induction pre as [|c pre IH]; intros s.
  - intros _. exists s. reflexivity.
  - destruct s as [|c' s]; simpl; [discriminate|].
    destruct (ascii_dec c c') as [<-|]; [|discriminate].
    intros H. destruct (IH s H) as (rest & ->). exists rest. reflexivity.
Qed.

(** ** The dictionary of lateralized labels *)

Lemma dict_setitem_elem_of (d : list (Z * Z)) k v x y :
  (x, y) ∈ dict_setitem Z.eqb d k v -> (x, y) = (k, v) \/ (x, y) ∈ d.
Proof.
  induction d as [|[k' v'] d IH]; simpl.
  - intros H. apply list_elem_of_singleton in H. auto.
  - destruct (Z.eqb_spec k' k) as [->|Hne].
    + rewrite !elem_of_cons. tauto.
    + rewrite !elem_of_cons. intros [H|H]; [auto|]. destruct (IH H); auto.
Qed.

Lemma dict_setitem_keys (d : list (Z * Z)) k v x :
  x ∈ (dict_setitem Z.eqb d k v).*1 <-> x = k \/ x ∈ d.*1.
Proof.
  induction d as [|[k' v'] d IH]; simpl.
  - rewrite list_elem_of_singleton. split; [auto|]. intros [H|H]; [auto|inversion H].
  - destruct (Z.eqb_spec k' k) as [->|Hne]; simpl.
    + rewrite !elem_of_cons. tauto.
    + rewrite !elem_of_cons, IH. tauto.
Qed.

Lemma dict_setitem_NoDup (d : list (Z * Z)) k v :
  NoDup d.*1 -> NoDup (dict_setitem Z.eqb d k v).*1.
Proof.
  induction d as [|[k' v'] d IH]; simpl; intros Hnd.
  - apply list.NoDup_singleton.
  - apply list.NoDup_cons in Hnd as [Hk Hd].
    destruct (Z.eqb_spec k' k) as [->|Hne]; simpl.
    + apply list.NoDup_cons. auto.
    + apply list.NoDup_cons. split; [|auto].
      rewrite dict_setitem_keys. intros [?|?]; [congruence|contradiction].
Qed.

(** The dictionary built from a list of pairs: its keys are distinct,
    its entries are among the pairs, and every first component of a
    pair is a key. *)
Lemma to_dict_spec (pairs : list (Z * Z)) : forall d0,
  NoDup d0.*1 ->
  let d := foldl (fun d '(x, y) => dict_setitem Z.eqb d x y) d0 pairs in
  NoDup d.*1
  /\ (forall x y, (x, y) ∈ d -> (x, y) ∈ pairs \/ (x, y) ∈ d0)
  /\ (forall x, x ∈ pairs.*1 \/ x ∈ d0.*1 -> x ∈ d.*1).
Proof.
  induction pairs as [|[k v] pairs IH]; intros d0 Hnd; simpl.
  - split; [exact Hnd|]. split; [auto|]. intros x [H|H]; [inversion H|exact H].
  - destruct (IH (dict_setitem Z.eqb d0 k v) (dict_setitem_NoDup d0 k v Hnd))
      as (H1 & H2 & H3).
    split; [exact H1|]. split.
    + intros x y Hxy. destruct (H2 x y Hxy) as [H|H]; [left; right; exact H|].
      apply dict_setitem_elem_of in H as [->|H]; [left; left|right; exact H].
    + intros x Hx. apply H3. rewrite dict_setitem_keys.
      rewrite elem_of_cons in Hx. simpl in Hx. tauto.
Qed.

Lemma elem_of_merge_on_name l r x y :
  (x, y) ∈ merge_on_name l r <-> exists name, (x, name) ∈ l /\ (y, name) ∈ r.
Proof.
  unfold merge_on_name. rewrite list_elem_of_bind. split.
  - intros ([x' nx] & Hin & Hl). apply list_elem_of_bind in Hin as ([y' ny] & Hin & Hr).
    destruct (String.eqb_spec nx ny) as [->|]; [|inversion Hin].
    apply list_elem_of_singleton in Hin. inversion Hin; subst. exists ny. auto.
  - intros (name & Hl & Hr). exists (x, name). split; [|exact Hl].
    apply list_elem_of_bind. exists (y, name). split; [|exact Hr].
    rewrite String.eqb_refl. apply list_elem_of_singleton. reflexivity.
Qed.

(** The rows selected by a prefix, with the prefix removed from their
    names. *)
Lemma elem_of_select_prefix (df : DataFrame) (pre : string) x name :
  (x, name) ∈ map (fun r => (ID r, removeprefix (LabelName r) pre))
                (filter (fun r => Is_true (startswith (LabelName r) pre)) df)
  <-> exists r, r ∈ df /\ ID r = x /\ LabelName r = (pre ++ name)%string.
Proof.
  rewrite list_elem_of_In, in_map_iff. split.
  - intros (r & Heq & Hr). injection Heq as <- <-.
    apply list_elem_of_In, list_elem_of_filter in Hr as [Hp Hr].
    apply Is_true_true, startswith_inv in Hp as (rest & Hrest).
    exists r. split; [exact Hr|]. split; [reflexivity|].
    rewrite Hrest at 1. rewrite Hrest, removeprefix_app. reflexivity.
  - intros (r & Hr & <- & Hn). exists r. split.
    + rewrite Hn, removeprefix_app. reflexivity.
    + apply list_elem_of_In, list_elem_of_filter. split; [|exact Hr].
      rewrite Hn. apply Is_true_true, startswith_app.
Qed.

(** X9. On a loaded LUT, [unify_lateralized_labels] returns a dictionary
    with distinct keys in which every entry pairs the IDs of two rows
    whose names are the two prefixes followed by one and the same name,
    and in which every row with the first prefix that has such a
    counterpart is a key; rows without a counterpart are dropped
    without an error. *)
Theorem unify_lateralized_labels_spec
  (read_csv : string -> string -> result DataFrame) (df : DataFrame)
  (combi : string * string) :
  exists d,
    unify_lateralized_labels read_csv (LutFrame df) combi = Ok d
    /\ NoDup d.*1
    /\ (forall x y, (x, y) ∈ d ->
          exists rl rr name, rl ∈ df /\ rr ∈ df /\ ID rl = x /\ ID rr = y
            /\ LabelName rl = (fst combi ++ name)%string
            /\ LabelName rr = (snd combi ++ name)%string)
    /\ (forall rl rr name, rl ∈ df -> rr ∈ df ->
          LabelName rl = (fst combi ++ name)%string ->
          LabelName rr = (snd combi ++ name)%string ->
          ID rl ∈ d.*1).
Proof.
  unfold unify_lateralized_labels. cbn [load_lut rbind].
  match goal with
  | |- context [foldl _ [] ?pairs] =>
      destruct (to_dict_spec pairs []) as (H1 & H2 & H3); [constructor|]
  end.
  eexists. split; [reflexivity|]. split; [exact H1|]. split.
  - intros x y Hxy. destruct (H2 x y Hxy) as [H|H]; [|inversion H].
    apply elem_of_merge_on_name in H as (name & Hl & Hr).
    apply elem_of_select_prefix in Hl as (rl & Hrl & <- & Hnl).
    apply elem_of_select_prefix in Hr as (rr & Hrr & <- & Hnr).
    exists rl, rr, name. auto 10.
  - intros rl rr name Hrl Hrr Hnl Hnr. apply H3. left.
    apply list_elem_of_fmap. exists (ID rl, ID rr). split; [reflexivity|].
    apply elem_of_merge_on_name. exists name. split; apply elem_of_select_prefix; eauto.
Qed.

(** X10. With the default prefixes and a LUT whose IDs are distinct,
    the dictionary of [unify_lateralized_labels] sends IDs that are
    not sagittal labels to IDs that are: for every entry, the right ID
    is in the sagittal list of [get_labels_from_lut] and the left ID is
    not. The sagittal list is a sub-list of the full list. *)
Theorem unify_lateralized_labels_into_sagittal
  (read_csv : string -> string -> result DataFrame) (df : DataFrame) :
  exists d labels labels_sag,
    unify_lateralized_labels read_csv (LutFrame df) ("Left-", "Right-")%string = Ok d
    /\ get_labels_from_lut read_csv (LutFrame df) ("Left-", "ctx-rh")%string
       = Ok (labels, labels_sag)
    /\ labels = map ID df
    /\ sublist labels_sag labels
    /\ (forall x y, (x, y) ∈ d -> y ∈ labels_sag)
    /\ (NoDup (map ID df) -> forall x y, (x, y) ∈ d -> x ∉ labels_sag).
Proof.
  unfold unify_lateralized_labels, get_labels_from_lut. cbn [load_lut rbind fst snd].
  match goal with
  | |- context [foldl _ [] ?pairs] =>
      destruct (to_dict_spec pairs []) as (_ & Hd & _); [constructor|]
  end.
  assert (Hpairs : forall x y,
            (x, y) ∈ foldl (fun d '(x, y) => dict_setitem Z.eqb d x y) []
                       (merge_on_name
                          (map (fun r => (ID r, removeprefix (LabelName r) "Left-"))
                             (filter (fun r => Is_true (startswith (LabelName r) "Left-")) df))
                          (map (fun r => (ID r, removeprefix (LabelName r) "Right-"))
                             (filter (fun r => Is_true (startswith (LabelName r) "Right-")) df))) ->
            exists rl rr name, rl ∈ df /\ rr ∈ df /\ ID rl = x /\ ID rr = y
              /\ LabelName rl = ("Left-" ++ name)%string
              /\ LabelName rr = ("Right-" ++ name)%string).
  { intros x y Hxy. destruct (Hd x y Hxy) as [H|H]; [|inversion H].
    apply elem_of_merge_on_name in H as (name & Hl & Hr).
    apply elem_of_select_prefix in Hl as (rl & Hrl & <- & Hnl).
    apply elem_of_select_prefix in Hr as (rr & Hrr & <- & Hnr).
    exists rl, rr, name. auto 10. }
  eexists. eexists _, _. split; [reflexivity|]. split; [reflexivity|]. split; [reflexivity|].
  split; [|split].
  - apply (fmap_sublist ID). apply sublist_filter.
  - intros x y Hxy. destruct (Hpairs x y Hxy) as (rl & rr & name & _ & Hrr & _ & <- & _ & Hn).
    apply list_elem_of_fmap. exists rr. split; [reflexivity|].
    apply list_elem_of_filter. split; [|exact Hrr].
    rewrite Hn. simpl. exact I.
  - intros Hnd x y Hxy Hin.
    destruct (Hpairs x y Hxy) as (rl & rr & name & Hrl & _ & <- & _ & Hn & _).
    apply list_elem_of_fmap in Hin as (r & Hid & Hr).
    apply list_elem_of_filter in Hr as [Hp Hr].
    assert (r = rl) as ->.
    { apply list_elem_of_lookup in Hr as (i & Hi). apply list_elem_of_lookup in Hrl as (j & Hj).
      assert (i = j).
      { eapply NoDup_lookup; [exact Hnd| |].
        - rewrite lookup_map, Hi. reflexivity.
        - rewrite lookup_map, Hj. simpl. f_equal. auto. }
      congruence. }
    rewrite Hn in Hp. simpl in Hp.
    unfold startswith in Hp. destruct name; exact Hp.
Qed.

(** ** map_prediction_sagittal2full: the tables for 51 and 96 classes *)

Lemma idx_list_51_range : Forall (fun i => 0 <= i < 51)%Z idx_list_51.
Proof. unfold idx_list_51. repeat (constructor; [lia|]). constructor. Qed.

Lemma idx_list_96_range : Forall (fun i => 0 <= i < 51)%Z idx_list_96.
Proof. unfold idx_list_96. repeat (constructor; [lia|]). constructor. Qed.

Lemma idx_list_covers (idx_list : list Z) (n : nat) :
  forallb (fun c => existsb (Z.eqb (Z.of_nat c)) idx_list) (seq 0 n) = true ->
  forall c, c < n -> exists f, idx_list !! f = Some (Z.of_nat c).
Proof.
  intros H c Hc. rewrite forallb_forall in H.
  specialize (H c). rewrite in_seq in H. specialize (H ltac:(lia)).
  apply existsb_exists in H as (x & Hx & Heq). apply Z.eqb_eq in Heq. subst x.
  apply list_elem_of_In, list_elem_of_lookup in Hx. exact Hx.
Qed.

(** X11. With [num_classes] 51 or 96, [map_prediction_sagittal2full]
    returns on every prediction that has at least 51 sagittal classes,
    whatever the [lut] argument: the result has 79 resp. 96 classes, and
    class [f] of the result is class [idx_list[f]] of the argument in
    every sample.  Both tables read every one of the 51 sagittal classes
    at some full-space class, and neither reads a class above 50. *)
Theorem map_prediction_sagittal2full_51_96
  (read_csv : string -> string -> result DataFrame) (T : Type)
  (prediction_sag : prediction T) (lut : option lut_arg)
  (num_classes : nat) (idx_list : list Z) :
  (num_classes = 51 /\ idx_list = idx_list_51) \/
  (num_classes = 96 /\ idx_list = idx_list_96) ->
  Forall (fun s => length s = n_classes prediction_sag) (samples prediction_sag) ->
  51 <= n_classes prediction_sag ->
  (exists q,
     map_prediction_sagittal2full read_csv prediction_sag num_classes lut = Ok q
     /\ n_classes q = (if num_classes =? 51 then 79 else 96)
     /\ Forall2 (fun s s' : list T =>
                   forall f c, idx_list !! f = Some (Z.of_nat c) ->
                               is_Some (s !! c) /\ s' !! f = s !! c)
          (samples prediction_sag) (samples q))
  /\ (forall c, c < 51 -> exists f, idx_list !! f = Some (Z.of_nat c))
  /\ (forall f i, idx_list !! f = Some i -> (0 <= i <= 50)%Z).
Proof.
  intros Hcase Hwf Hn.
  assert (Hrange : Forall (fun i => 0 <= i < 51)%Z idx_list).
  { destruct Hcase as [[_ ->]|[_ ->]]; [apply idx_list_51_range|apply idx_list_96_range]. }
  assert (Hrun : map_prediction_sagittal2full read_csv prediction_sag num_classes lut
                 = take_classes prediction_sag idx_list).
  { destruct Hcase as [[-> ->]|[-> ->]]; reflexivity. }
  assert (Hlen : length idx_list = if num_classes =? 51 then 79 else 96).
  { destruct Hcase as [[-> ->]|[-> ->]]; reflexivity. }
  split; [|split].
  - destruct (take_classes_ok prediction_sag idx_list Hwf) as (q & Hq).
    { eapply list.Forall_impl; [exact Hrange|]. simpl. intros i Hi. lia. }
    exists q. rewrite Hrun. split; [exact Hq|].
    destruct (take_classes_spec _ _ _ Hq) as [Hnq HF]. rewrite Hnq. auto.
  - destruct Hcase as [[_ ->]|[_ ->]]; apply idx_list_covers; vm_compute; reflexivity.
  - intros f i Hf. rewrite Forall_forall in Hrange.
    apply list_elem_of_lookup_2, list_elem_of_In, Hrange in Hf. lia.
Qed.

Lemma map_prediction_sagittal2full_51_96_witness :
  exists q,
    map_prediction_sagittal2full (fun _ _ => Raise KeyError)
      (Prediction 51 [map Z.of_nat (seq 100 51)]) 51 None = Ok q
    /\ n_classes q = 79
    /\ samples q = [map (fun i => (100 + i)%Z) idx_list_51].
Proof.
  destruct (map_prediction_sagittal2full_51_96 (fun _ _ => Raise KeyError) Z
              (Prediction 51 [map Z.of_nat (seq 100 51)]) None 51 idx_list_51)
    as ((q & Hq & Hn & _) & _).
  - left. split; reflexivity.
  - repeat constructor.
  - simpl. lia.
  - exists q. split; [exact Hq|]. split; [exact Hn|].
    vm_compute in Hq. injection Hq as <-. reflexivity.
Defined.

(** ** Arrays built voxel by voxel *)

Lemma unflat_index_lt h w d p :
  p < h * w * d ->
  p / (w * d) < h /\ (p / d) mod w < w /\ p mod d < d.
Proof.
  intros Hp.
  assert (Hw : w <> 0) by (intros ->; lia).
  assert (Hd : d <> 0) by (intros ->; lia).
  split; [|split].
  - apply Nat.Div0.div_lt_upper_bound. lia.
  - apply Nat.mod_upper_bound, Hw.
  - apply Nat.mod_upper_bound, Hd.
Qed.

Lemma flat_unflat_index (w d p : nat) :
  (p / (w * d) * w + (p / d) mod w) * d + p mod d = p.
Proof.
  rewrite (Nat.mul_comm w d), <- Nat.Div0.div_div.
  pose proof (Nat.div_mod_eq (p / d) w) as H1.
  pose proof (Nat.div_mod_eq p d) as H2.
  nia.
Qed.

Lemma unflat_flat_index h w d i j k :
  j < w -> k < d ->
  unflat_index (h, w, d) (flat_index (h, w, d) i j k) = (i, j, k).
Proof.
  intros Hj Hk. unfold unflat_index, flat_index.
  assert (Hmod : ((i * w + j) * d + k) mod d = k).
  { symmetry. apply (Nat.mod_unique _ _ (i * w + j)); lia. }
  assert (Hdiv : ((i * w + j) * d + k) / d = i * w + j).
  { symmetry. apply (Nat.div_unique _ _ _ k); lia. }
  assert (Hdiv2 : ((i * w + j) * d + k) / (w * d) = i).
  { rewrite (Nat.mul_comm w d), <- Nat.Div0.div_div, Hdiv.
    symmetry. apply (Nat.div_unique _ _ _ j); lia. }
  rewrite Hmod, Hdiv, Hdiv2.
  replace ((i * w + j) mod w) with j; [reflexivity|].
  apply (Nat.mod_unique _ _ i); lia.
Qed.

Lemma flat_index_lt h w d i j k :
  i < h -> j < w -> k < d -> flat_index (h, w, d) i j k < h * w * d.
Proof.
  intros Hi Hj Hk. unfold flat_index.
  assert (H1 : i * w + j + 1 <= h * w) by nia.
  assert (H2 : (i * w + j + 1) * d <= h * w * d) by (apply Nat.mul_le_mono_r, H1).
  lia.
Qed.

Lemma length_np_build {A} s (f : nat -> nat -> nat -> A) :
  length (data (np_build s f)) = size3 s.
Proof. unfold np_build. simpl. rewrite length_map, length_seq. reflexivity. Qed.

(** Reading a built array inside its shape gives the voxel it was built
    from. *)
Lemma np_build_voxel {A} (dflt : A) h w d (f : nat -> nat -> nat -> A) i j k :
  i < h -> j < w -> k < d ->
  voxel_at dflt (np_build (h, w, d) f) i j k = f i j k.
Proof.
  intros Hi Hj Hk. unfold voxel_at, np_build.
  cbn [shape data].
  pose proof (flat_index_lt h w d i j k Hi Hj Hk) as Hlt.
  rewrite (nth_indep _ dflt (let '(i0, j0, k0) := unflat_index (h, w, d) 0 in f i0 j0 k0))
    by (rewrite length_map, length_seq; exact Hlt).
  rewrite (map_nth (fun p => let '(i0, j0, k0) := unflat_index (h, w, d) p in f i0 j0 k0)
             (seq 0 (size3 (h, w, d))) 0).
  rewrite seq_nth by exact Hlt. rewrite Nat.add_0_l.
  rewrite unflat_flat_index by assumption. reflexivity.
Qed.

Lemma np_build_ext {A} h w d (f g : nat -> nat -> nat -> A) :
  (forall i j k, i < h -> j < w -> k < d -> f i j k = g i j k) ->
  np_build (h, w, d) f = np_build (h, w, d) g.
Proof.
  intros Hfg. unfold np_build. f_equal. apply map_ext_in. intros p Hp.
  apply in_seq in Hp. simpl in Hp.
  destruct (unflat_index_lt h w d p) as (Hi & Hj & Hk); [lia|].
  unfold unflat_index. apply Hfg; assumption.
Qed.

(** A well-shaped array is the array built from its own voxels. *)
Lemma np_build_eta {A} (dflt : A) (a : ndarray A) :
  well_shaped a -> np_build (shape a) (voxel_at dflt a) = a.
Proof.
  destruct a as [[[h w] d] l]. unfold well_shaped, np_build, voxel_at. cbn [shape data size3].
  intros Hlen. f_equal.
  apply (list_eq_same_length _ _ (h * w * d)); [exact Hlen|rewrite length_map, length_seq; reflexivity|].
  intros p x y Hp Hx Hy.
  rewrite list_lookup_fmap, lookup_seq_lt in Hx by exact Hp. simpl in Hx.
  injection Hx as <-. unfold flat_index. rewrite flat_unflat_index.
  apply (nth_lookup_Some _ _ dflt) in Hy. exact Hy.
Qed.

Lemma voxel_voxel_at (a : ndarray Z) i j k : voxel a i j k = voxel_at 0%Z a i j k.
Proof. destruct a as [[[h w] d] l]. reflexivity. Qed.

(** ** transform_axial, transform_sagittal *)

Lemma transform_axial_true_eq h w d l :
  transform_axial (NDArray (h, w, d) l) true
  = np_build (d, h, w) (fun a b c => voxel (NDArray (h, w, d) l) b c a).
Proof. reflexivity. Qed.

Lemma transform_axial_false_eq h w d l :
  transform_axial (NDArray (h, w, d) l) false
  = np_build (w, d, h) (fun a b c => voxel (NDArray (h, w, d) l) c a b).
Proof. reflexivity. Qed.

Lemma transform_sagittal_eq h w d l b :
  transform_sagittal (NDArray (h, w, d) l) b
  = np_build (d, w, h) (fun a b c => voxel (NDArray (h, w, d) l) c b a).
Proof. destruct b; reflexivity. Qed.

(** X12. [transform_axial] turns a volume of shape [(h, w, d)] into one
    of shape [(d, h, w)] whose voxel [(k, i, j)] is voxel [(i, j, k)] of
    the argument, and with [coronal2axial=False] into one of shape
    [(w, d, h)] whose voxel [(j, k, i)] is voxel [(i, j, k)]; the two
    directions undo each other, in either order. *)
Theorem transform_axial_round_trip (vol : ndarray Z) (h w d : nat) :
  shape vol = (h, w, d) ->
  well_shaped vol ->
  shape (transform_axial vol true) = (d, h, w)
  /\ shape (transform_axial vol false) = (w, d, h)
  /\ (forall i j k, i < h -> j < w -> k < d ->
        voxel (transform_axial vol true) k i j = voxel vol i j k
        /\ voxel (transform_axial vol false) j k i = voxel vol i j k)
  /\ transform_axial (transform_axial vol true) false = vol
  /\ transform_axial (transform_axial vol false) true = vol.
Proof.
  destruct vol as [s l]. cbn [shape]. intros -> Hwf.
  rewrite transform_axial_true_eq, transform_axial_false_eq.
  split; [reflexivity|]. split; [reflexivity|]. split; [|split].
  - intros i j k Hi Hj Hk. rewrite !voxel_voxel_at.
    rewrite !np_build_voxel by assumption. rewrite !voxel_voxel_at. split; reflexivity.
  - unfold np_build at 1. rewrite transform_axial_false_eq.
    etransitivity; [|exact (np_build_eta 0%Z (NDArray (h, w, d) l) Hwf)]. cbn [shape].
    apply np_build_ext. intros i j k Hi Hj Hk.
    match goal with |- voxel ?x _ _ _ = _ =>
      change x with (np_build (d, h, w) (fun a b c => voxel (NDArray (h, w, d) l) b c a)) end.
    rewrite voxel_voxel_at, np_build_voxel by assumption. apply voxel_voxel_at.
  - unfold np_build at 1. rewrite transform_axial_true_eq.
    etransitivity; [|exact (np_build_eta 0%Z (NDArray (h, w, d) l) Hwf)]. cbn [shape].
    apply np_build_ext. intros i j k Hi Hj Hk.
    match goal with |- voxel ?x _ _ _ = _ =>
      change x with (np_build (w, d, h) (fun a b c => voxel (NDArray (h, w, d) l) c a b)) end.
    rewrite voxel_voxel_at, np_build_voxel by assumption. apply voxel_voxel_at.
Qed.

Lemma transform_axial_round_trip_witness :
  transform_axial (NDArray (1, 2, 3) [1; 2; 3; 4; 5; 6]%Z) true
  = NDArray (3, 1, 2) [1; 4; 2; 5; 3; 6]%Z
  /\ transform_axial (transform_axial (NDArray (1, 2, 3) [1; 2; 3; 4; 5; 6]%Z) true) false
     = NDArray (1, 2, 3) [1; 2; 3; 4; 5; 6]%Z.
Proof.
  split; [reflexivity|].
  apply (transform_axial_round_trip (NDArray (1, 2, 3) [1; 2; 3; 4; 5; 6]%Z) 1 2 3);
    reflexivity.
Defined.

(** X13. [transform_sagittal] does the same whatever its flag: it swaps
    the first and the last axis (voxel [(k, j, i)] of the result is voxel
    [(i, j, k)] of the argument), so it is its own inverse and the flag
    gives no way back other than applying it again. *)
Theorem transform_sagittal_involution (vol : ndarray Z) (h w d : nat) (b b' : bool) :
  shape vol = (h, w, d) ->
  well_shaped vol ->
  transform_sagittal vol b = transform_sagittal vol b'
  /\ shape (transform_sagittal vol b) = (d, w, h)
  /\ (forall i j k, i < h -> j < w -> k < d ->
        voxel (transform_sagittal vol b) k j i = voxel vol i j k)
  /\ transform_sagittal (transform_sagittal vol b) b' = vol.
Proof.
  destruct vol as [s l]. cbn [shape]. intros -> Hwf.
  rewrite !transform_sagittal_eq.
  split; [reflexivity|]. split; [reflexivity|]. split.
  - intros i j k Hi Hj Hk. rewrite !voxel_voxel_at.
    rewrite !np_build_voxel by assumption. rewrite !voxel_voxel_at. reflexivity.
  - unfold np_build at 1. rewrite transform_sagittal_eq.
    etransitivity; [|exact (np_build_eta 0%Z (NDArray (h, w, d) l) Hwf)]. cbn [shape].
    apply np_build_ext. intros i j k Hi Hj Hk.
    match goal with |- voxel ?x _ _ _ = _ =>
      change x with (np_build (d, w, h) (fun a b c => voxel (NDArray (h, w, d) l) c b a)) end.
    rewrite voxel_voxel_at, np_build_voxel by assumption. apply voxel_voxel_at.
Qed.

Lemma transform_sagittal_involution_witness :
  transform_sagittal (NDArray (1, 2, 3) [1; 2; 3; 4; 5; 6]%Z) false
  = NDArray (3, 2, 1) [1; 4; 2; 5; 3; 6]%Z
  /\ transform_sagittal (transform_sagittal (NDArray (1, 2, 3) [1; 2; 3; 4; 5; 6]%Z) false) true
     = NDArray (1, 2, 3) [1; 2; 3; 4; 5; 6]%Z.
Proof.
  split; [reflexivity|].
  apply (transform_sagittal_involution (NDArray (1, 2, 3) [1; 2; 3; 4; 5; 6]%Z) 1 2 3 false true);
    reflexivity.
Defined.

(** ** cortex_border_mask *)

Lemma scatter_repeat_lookup {X Y} (P : X -> bool) (w : Y) (ts : list X) (xs : list Y) p :
  length ts = length xs ->
  scatter (map P ts) (repeat w (count_true (map P ts))) xs !! p
  = match ts !! p with
    | Some t => if P t then Some w else xs !! p
    | None => None
    end.
Proof.
  revert xs p. induction ts as [|t ts IH]; intros [|x xs] p Hlen; try discriminate.
  - destruct p; reflexivity.
  - cbn [map]. rewrite count_true_cons. simpl in Hlen.
    destruct (P t) eqn:HP; simpl; destruct p as [|p]; simpl; try rewrite HP; try reflexivity;
      apply IH; lia.
Qed.

Lemma ravel_unravel s p : ravel s (shift (unravel s p) (0, 0, 0)%Z) = p.
Proof.
  destruct s as [[h w] d]. unfold unravel, shift, ravel.
  rewrite !Z.add_0_r, <- !Nat2Z.inj_mul, <- !Nat2Z.inj_add, <- Nat2Z.inj_mul, <- Nat2Z.inj_add.
  rewrite Nat2Z.id. apply flat_unflat_index.
Qed.

Lemma forallb_false {X} (f : X -> bool) l :
  forallb f l = false <-> exists x, x ∈ l /\ f x = false.
Proof.
  induction l as [|x l IH]; simpl.
  - split; [discriminate|]. intros (x & Hx & _). inversion Hx.
  - rewrite andb_false_iff, IH. split.
    + intros [Hx|(y & Hy & Hf)]; [exists x; split; [left|exact Hx]|exists y; split; [right; exact Hy|exact Hf]].
    + intros (y & Hy & Hf). apply elem_of_cons in Hy as [->|Hy]; [left; exact Hf|right; exists y; auto].
Qed.

Lemma brain_mask_nth (label : ndarray Z) q :
  nth q (data (np_truth (np_clip label 0 1))) false = true
  <-> exists u, data label !! q = Some u /\ (1 <= u)%Z.
Proof.
  unfold np_truth, np_clip, amap. cbn [data shape]. rewrite map_map.
  destruct (data label !! q) as [u|] eqn:Hq.
  - rewrite (nth_lookup_Some _ _ _ (negb (Z.min 1 (Z.max 0 u) =? 0)%Z))
      by (rewrite lookup_map, Hq; reflexivity).
    rewrite negb_true_iff, Z.eqb_neq. split.
    + intros Hu. exists u. split; [reflexivity|lia].
    + intros (u' & [= <-] & Hu). lia.
  - rewrite nth_overflow by (rewrite length_map; apply lookup_ge_None, Hq).
    split; [discriminate|]. intros (u & [=] & _).
Qed.

(** X14. For a structuring element that contains its centre,
    [cortex_border_mask] marks exactly the voxels whose label is above
    [ctx_thresh], positive, and that have, at some offset of the
    structuring element, a position outside the volume or without a
    positive label; the mask has the shape of the label volume.  Voxels
    on the faces of the volume are therefore marked whenever they carry a
    cortex label and the structuring element points outwards. *)
Theorem cortex_border_mask_spec (label : ndarray Z) (structure : list coord)
  (ctx_thresh : Z) :
  (0, 0, 0)%Z ∈ structure ->
  shape (cortex_border_mask label structure ctx_thresh) = shape label
  /\ length (data (cortex_border_mask label structure ctx_thresh)) = length (data label)
  /\ forall p v, data label !! p = Some v ->
       (data (cortex_border_mask label structure ctx_thresh) !! p = Some true
        <-> (ctx_thresh < v)%Z /\ (1 <= v)%Z
            /\ exists o, o ∈ structure
                 /\ ~ labelled_at label (shift (unravel (shape label) p) o)).
Proof.
  intros Horigin.
  set (bm := np_truth (np_clip label 0 1)).
  assert (Hlen_bm : length (data bm) = length (data label)).
  { unfold bm, np_truth, np_clip, amap. cbn [data]. rewrite !length_map. reflexivity. }
  set (g := fun p o =>
              let c := shift (unravel (shape label) p) o in
              in_bounds (shape label) c && nth (ravel (shape label) c) (data bm) false).
  assert (Hdata : data (cortex_border_mask label structure ctx_thresh)
                  = scatter (map (fun x => (x <=? ctx_thresh)%Z) (data label))
                      (repeat false (count_true (map (fun x => (x <=? ctx_thresh)%Z) (data label))))
                      (zip_with xorb (map (fun p => forallb (g p) structure)
                                        (seq 0 (length (data bm)))) (data bm))).
  { reflexivity. }
  split; [reflexivity|]. split.
  { rewrite Hdata, length_scatter, length_zip_with, length_map, length_seq. lia. }
  intros p v Hp. rewrite Hdata.
  assert (Hlt : p < length (data label)) by (eapply lookup_lt_Some, Hp).
  rewrite scatter_repeat_lookup
    by (rewrite length_zip_with, length_map, length_seq; lia).
  rewrite Hp.
  assert (Hbm : data bm !! p = Some (1 <=? v)%Z).
  { unfold bm, np_truth, np_clip, amap. cbn [data]. rewrite !lookup_map, Hp. simpl. f_equal.
    destruct (Z.leb_spec 1 v); [apply negb_true_iff, Z.eqb_neq|apply negb_false_iff, Z.eqb_eq]; lia. }
  assert (Hg : forall o, g p o = true <-> labelled_at label (shift (unravel (shape label) p) o)).
  { intros o. unfold g, labelled_at. cbv zeta. rewrite andb_true_iff.
    unfold bm. rewrite brain_mask_nth. reflexivity. }
  destruct (Z.leb_spec v ctx_thresh) as [Hle|Hgt].
  { split; [discriminate|]. intros [? _]. lia. }
  rewrite lookup_zip_with, lookup_map, lookup_seq_lt by lia.
  rewrite Hbm. cbn [fmap option_fmap option_map mbind option_bind Nat.add]. split.
  - intros [= Hx]. split; [exact Hgt|].
    destruct (Z.leb_spec 1 v) as [H1|H1].
    + split; [exact H1|]. rewrite xorb_true_r, negb_true_iff in Hx.
      apply forallb_false in Hx as (o & Ho & Hgo). exists o. split; [exact Ho|].
      rewrite <- Hg, Hgo. discriminate.
    + exfalso. rewrite xorb_false_r in Hx. rewrite forallb_forall in Hx.
      specialize (Hx _ (proj1 (list_elem_of_In _ _) Horigin)).
      unfold g in Hx. cbv zeta in Hx. apply andb_true_iff in Hx as [_ Hx].
      rewrite ravel_unravel in Hx.
      rewrite (nth_lookup_Some _ _ _ _ Hbm) in Hx.
      discriminate Hx.
  - intros (_ & H1 & o & Ho & Hno). f_equal.
    rewrite (proj2 (Z.leb_le 1 v) H1), xorb_true_r, negb_true_iff.
    apply forallb_false. exists o. split; [exact Ho|].
    destruct (g p o) eqn:Hgo; [|reflexivity]. exfalso. apply Hno, Hg, Hgo.
Qed.

Lemma cortex_border_mask_spec_witness :
  data (cortex_border_mask (NDArray (1, 1, 4) [40; 40; 40; 0]%Z) offsets3 33) !! 2 = Some true
  /\ data (cortex_border_mask (NDArray (1, 1, 4) [40; 40; 40; 0]%Z) [(0, 0, 0); (0, 0, 1)]%Z 33) !! 1
     <> Some true.
Proof.
  split.
  - apply (proj2 (proj2 (cortex_border_mask_spec (NDArray (1, 1, 4) [40; 40; 40; 0]%Z) offsets3 33
                           (list_elem_of_lookup_2 offsets3 13 _ eq_refl))) 2 40%Z eq_refl).
    split; [lia|]. split; [lia|].
    exists (0, 0, 1)%Z. split; [exact (list_elem_of_lookup_2 offsets3 14 _ eq_refl)|].
    intros [_ (u & Hu & H1)]. vm_compute in Hu. injection Hu as <-. lia.
  - vm_compute. discriminate.
Defined.

(** ** get_thick_slices *)

(** X15. [get_thick_slices] raises a [ValueError] for a negative
    thickness and for a volume without slices.  Otherwise it returns, for
    a volume of shape [(h, w, d)], one window of [2 t + 1] values per
    voxel: entry [m] of the window of voxel [(i, j, k)] is the voxel
    [(i, j, k + m - t)], the slice index clamped to [0, d - 1] (the first
    and the last slice are repeated), and the middle entry is the voxel
    itself. *)
Theorem get_thick_slices_spec (img_data : ndarray Z) (slice_thickness : Z) (h w d : nat) :
  shape img_data = (h, w, d) ->
  ((slice_thickness < 0)%Z \/ d = 0 ->
   get_thick_slices img_data slice_thickness = Raise ValueError)
  /\ ((0 <= slice_thickness)%Z -> 1 <= d ->
      exists out,
        get_thick_slices img_data slice_thickness = Ok out
        /\ shape out = (h, w, d)
        /\ forall i j k, i < h -> j < w -> k < d ->
             let t := Z.to_nat slice_thickness in
             let window := voxel_at [] out i j k in
             length window = 2 * t + 1
             /\ (forall m, m < 2 * t + 1 ->
                   window !! m = Some (voxel img_data i j (Nat.min (k + m - t) (d - 1))))
             /\ window !! t = Some (voxel img_data i j k)).
Proof.
  intros Hs. unfold get_thick_slices, np_pad_edge_axis2. rewrite Hs. split.
  - intros [Ht | ->].
    + rewrite (proj2 (Z.ltb_lt _ _) Ht). reflexivity.
    + destruct (Z.ltb_spec slice_thickness 0); [reflexivity|].
      destruct (Z.eqb_spec slice_thickness 0) as [->|Hne]; [|reflexivity].
      reflexivity.
  - intros Ht Hd.
    rewrite (proj2 (Z.ltb_ge _ _) Ht).
    replace (d =? 0) with false by (symmetry; apply Nat.eqb_neq; lia).
    cbn [andb rbind]. unfold sliding_window_view_axis2. cbn [shape np_build].
    rewrite (proj2 (Z.ltb_ge _ _)) by lia.
    set (t := Z.to_nat slice_thickness).
    replace (Z.to_nat (2 * slice_thickness + 1)) with (2 * t + 1) by lia.
    replace (d + 2 * t <? 2 * t + 1) with false by (symmetry; apply Nat.ltb_ge; lia).
    replace (d + 2 * t - (2 * t + 1) + 1) with d by lia.
    eexists. split; [reflexivity|]. split; [reflexivity|].
    intros i j k Hi Hj Hk. cbv zeta.
    rewrite np_build_voxel by assumption.
    assert (Hent : forall m, m < 2 * t + 1 ->
              map (fun m0 => voxel (np_build (h, w, d + 2 * t)
                                      (fun i0 j0 k0 => voxel img_data i0 j0 (Nat.min (k0 - t) (d - 1))))
                               i j (k + m0)) (seq 0 (2 * t + 1)) !! m
              = Some (voxel img_data i j (Nat.min (k + m - t) (d - 1)))).
    { intros m Hm. rewrite lookup_map, lookup_seq_lt by exact Hm. cbn [fmap option_fmap option_map Nat.add].
      rewrite voxel_voxel_at, np_build_voxel by (try assumption; lia). reflexivity. }
    split; [rewrite length_map, length_seq; reflexivity|]. split; [exact Hent|].
    rewrite Hent by lia. do 2 f_equal. lia.
Qed.

Lemma get_thick_slices_spec_witness :
  get_thick_slices (NDArray (1, 1, 3) [7; 8; 9]%Z) 1
  = Ok (NDArray (1, 1, 3) [[7; 7; 8]; [7; 8; 9]; [8; 9; 9]]%Z)
  /\ get_thick_slices (NDArray (1, 1, 0) []) 0 = Raise ValueError.
Proof.
  split; [reflexivity|].
  apply (get_thick_slices_spec (NDArray (1, 1, 0) []) 0 1 1 0 eq_refl). right. reflexivity.
Defined.

(** ** filter_blank_slices_thick *)

Lemma filter_ext_elem {X} (P1 P2 : X -> Prop) `{!forall x, Decision (P1 x)}
  `{!forall x, Decision (P2 x)} (l : list X) :
  (forall x, x ∈ l -> P1 x <-> P2 x) -> filter P1 l = filter P2 l.
Proof.
  induction l as [|x l IH]; intros Hext; [reflexivity|].
  rewrite !filter_cons.
  assert (Hx : P1 x <-> P2 x) by (apply Hext; left).
  rewrite IH by (intros y Hy; apply Hext; right; exact Hy).
  destruct (decide (P1 x)), (decide (P2 x)); tauto.
Qed.

Lemma np_where_map_seq (f : nat -> bool) n :
  np_where (map f (seq 0 n)) = filter (fun k => f k = true) (seq 0 n).
Proof.
  unfold np_where. rewrite length_map, length_seq.
  apply filter_ext_elem. intros k Hk. apply elem_of_seq in Hk.
  rewrite nth_map_seq by lia. reflexivity.
Qed.

Lemma select_axis2_ok {A} (dflt : A) (a : ndarray A) (f : nat -> bool) h w d :
  shape a = (h, w, d) ->
  exists out,
    select_axis2 dflt a (map f (seq 0 d)) = Ok out
    /\ shape out = (h, w, length (filter (fun k => f k = true) (seq 0 d)))
    /\ forall n k, filter (fun k => f k = true) (seq 0 d) !! n = Some k ->
         forall i j, i < h -> j < w -> voxel_at dflt out i j n = voxel_at dflt a i j k.
Proof.
  intros Hs. unfold select_axis2. rewrite Hs, length_map, length_seq, Nat.eqb_refl.
  rewrite np_where_map_seq.
  eexists. split; [reflexivity|]. split; [reflexivity|].
  intros n k Hn i j Hi Hj.
  rewrite np_build_voxel; [|assumption|assumption|eapply lookup_lt_Some, Hn].
  rewrite (nth_lookup_Some _ _ _ _ Hn). reflexivity.
Qed.

Lemma select_axis2_raises {A} (dflt : A) (a : ndarray A) (select : list bool) h w d :
  shape a = (h, w, d) -> length select <> d ->
  select_axis2 dflt a select = Raise IndexError.
Proof.
  intros Hs Hne. unfold select_axis2. rewrite Hs.
  apply Nat.eqb_neq in Hne. rewrite Hne. reflexivity.
Qed.

(** X16. [filter_blank_slices_thick] keeps, in ascending order, the
    slices [k] whose label values add up to more than [threshold] (the
    sum [np.sum(label_vol, axis=(0, 1))] of the label values, not the
    number of labelled voxels): when the three volumes have the same
    number of slices, the three results have one slice per kept slice,
    and slice [n] of each result is the [n]-th kept slice of the
    corresponding argument.  When the image or the weight volume has
    another number of slices than the label volume, the call raises an
    [IndexError]. *)
Theorem filter_blank_slices_thick_spec (img_vol : ndarray (list Z)) (label_vol : ndarray Z)
  (weight_vol : ndarray Q) (threshold : Z) (h w d h1 w1 d1 h2 w2 d2 : nat) :
  shape label_vol = (h, w, d) ->
  shape img_vol = (h1, w1, d1) ->
  shape weight_vol = (h2, w2, d2) ->
  let keep := filter (fun k => (threshold < nth k (np_sum_axis01 label_vol) 0)%Z) (seq 0 d) in
  (d1 = d -> d2 = d ->
   exists img' label' weight',
     filter_blank_slices_thick img_vol label_vol weight_vol threshold
     = Ok (img', label', weight')
     /\ shape img' = (h1, w1, length keep)
     /\ shape label' = (h, w, length keep)
     /\ shape weight' = (h2, w2, length keep)
     /\ forall n k, keep !! n = Some k ->
          (forall i j, i < h1 -> j < w1 ->
             voxel_at [] img' i j n = voxel_at [] img_vol i j k)
          /\ (forall i j, i < h -> j < w ->
                voxel_at 0%Z label' i j n = voxel_at 0%Z label_vol i j k)
          /\ (forall i j, i < h2 -> j < w2 ->
                voxel_at 0%Q weight' i j n = voxel_at 0%Q weight_vol i j k))
  /\ (d1 <> d \/ d2 <> d ->
      filter_blank_slices_thick img_vol label_vol weight_vol threshold = Raise IndexError).
Proof.
  intros Hl Hi Hw keep.
  set (f := fun k => (threshold <? nth k (np_sum_axis01 label_vol) 0)%Z).
  assert (Hsel : map (fun s => (threshold <? s)%Z) (np_sum_axis01 label_vol) = map f (seq 0 d)).
  { unfold f, np_sum_axis01. rewrite Hl, !map_map. apply map_ext_in. intros k Hk.
    apply in_seq in Hk.
    match goal with |- context [nth k (map ?g (seq 0 d)) 0%Z] =>
      rewrite (nth_indep _ 0%Z (g 0)) by (rewrite length_map, length_seq; lia);
      rewrite (map_nth g (seq 0 d) 0 k), seq_nth by lia end.
    reflexivity. }
  assert (Hkeep : keep = filter (fun k => f k = true) (seq 0 d)).
  { unfold keep, f. apply list_filter_iff. intros k. rewrite Z.ltb_lt. reflexivity. }
  unfold filter_blank_slices_thick. rewrite Hsel. split.
  - intros -> ->.
    destruct (select_axis2_ok [] img_vol f _ _ _ Hi) as (img' & -> & Hsi & Hvi).
    destruct (select_axis2_ok 0%Z label_vol f _ _ _ Hl) as (label' & -> & Hsl & Hvl).
    destruct (select_axis2_ok 0%Q weight_vol f _ _ _ Hw) as (weight' & -> & Hsw & Hvw).
    exists img', label', weight'. rewrite Hkeep. cbn [rbind].
    split; [reflexivity|]. split; [exact Hsi|]. split; [exact Hsl|]. split; [exact Hsw|].
    intros n k Hn. split; [|split]; intros i j Hi' Hj'; eauto.
  - intros Hne.
    destruct (Nat.eq_dec d1 d) as [->|Hd1].
    + destruct (select_axis2_ok [] img_vol f _ _ _ Hi) as (img' & -> & _).
      destruct (select_axis2_ok 0%Z label_vol f _ _ _ Hl) as (label' & -> & _).
      cbn [rbind].
      rewrite (select_axis2_raises 0%Q weight_vol _ _ _ _ Hw)
        by (rewrite length_map, length_seq; lia).
      reflexivity.
    + rewrite (select_axis2_raises [] img_vol _ _ _ _ Hi)
        by (rewrite length_map, length_seq; lia).
      reflexivity.
Qed.

Lemma filter_blank_slices_thick_spec_witness :
  filter_blank_slices_thick (NDArray (1, 1, 3) [[1]; [2]; [3]]%Z)
    (NDArray (1, 1, 3) [51; 2; 60]%Z) (NDArray (1, 1, 3) [1; 2; 3]%Q) 50
  = Ok (NDArray (1, 1, 2) [[1]; [3]]%Z, NDArray (1, 1, 2) [51; 60]%Z,
        NDArray (1, 1, 2) [1; 3]%Q)
  /\ filter_blank_slices_thick (NDArray (1, 1, 2) [[1]; [2]]%Z)
       (NDArray (1, 1, 3) [51; 2; 60]%Z) (NDArray (1, 1, 3) [1; 2; 3]%Q) 50
     = Raise IndexError.
Proof.
  split; [reflexivity|].
  apply (filter_blank_slices_thick_spec (NDArray (1, 1, 2) [[1]; [2]]%Z)
           (NDArray (1, 1, 3) [51; 2; 60]%Z) (NDArray (1, 1, 3) [1; 2; 3]%Q) 50
           1 1 3 1 1 2 1 1 3 eq_refl eq_refl eq_refl).
  left. lia.
Defined.

(** ** deep_sulci_and_wm_strand_mask *)

Lemma unravel_flat_index h w d i j k :
  j < w -> k < d ->
  unravel (h, w, d) (flat_index (h, w, d) i j k)
  = (Z.of_nat i, Z.of_nat j, Z.of_nat k).
Proof.
  intros Hj Hk. pose proof (unflat_flat_index h w d i j k Hj Hk) as H.
  unfold unflat_index, flat_index in H. injection H as H1 H2 H3.
  unfold unravel, flat_index. rewrite H1, H2, H3. reflexivity.
Qed.

Lemma ravel_nat h w d i j k :
  ravel (h, w, d) (Z.of_nat i, Z.of_nat j, Z.of_nat k) = flat_index (h, w, d) i j k.
Proof.
  unfold ravel, flat_index.
  rewrite <- !Nat2Z.inj_mul, <- !Nat2Z.inj_add, <- Nat2Z.inj_mul, <- Nat2Z.inj_add.
  apply Nat2Z.id.
Qed.

Lemma in_bounds_nat h w d i j k :
  in_bounds (h, w, d) (Z.of_nat i, Z.of_nat j, Z.of_nat k) = true <-> i < h /\ j < w /\ k < d.
Proof.
  unfold in_bounds. rewrite !andb_true_iff, !Z.leb_le, !Z.ltb_lt. lia.
Qed.

Lemma nth_map_seq_bool (f : nat -> bool) n p : p < n -> nth p (map f (seq 0 n)) false = f p.
Proof.
  intros Hp. apply nth_lookup_Some with (d := false).
  rewrite lookup_map, lookup_seq_lt by exact Hp. reflexivity.
Qed.

Lemma binary_erosion_voxel (a : ndarray bool) (structure : list coord) h w d i j k :
  shape a = (h, w, d) -> length (data a) = h * w * d ->
  i < h -> j < w -> k < d ->
  voxel_at false (binary_erosion a structure) i j k
  = forallb (fun o =>
               let c := shift (Z.of_nat i, Z.of_nat j, Z.of_nat k) o in
               in_bounds (h, w, d) c && nth (ravel (h, w, d) c) (data a) false)
      structure.
Proof.
  intros Hs Hl Hi Hj Hk. unfold voxel_at, binary_erosion. cbn [shape data].
  rewrite Hs, Hl, nth_map_seq_bool by (apply flat_index_lt; assumption).
  rewrite unravel_flat_index by assumption. reflexivity.
Qed.

Lemma binary_dilation_voxel (a : ndarray bool) (structure : list coord) h w d i j k :
  shape a = (h, w, d) -> length (data a) = h * w * d ->
  i < h -> j < w -> k < d ->
  voxel_at false (binary_dilation a structure) i j k
  = existsb (fun q => nth q (data a) false)
      (map (ravel (h, w, d))
         (filter (fun c => Is_true (in_bounds (h, w, d) c))
            (map (shift (Z.of_nat i, Z.of_nat j, Z.of_nat k)) structure))).
Proof.
  intros Hs Hl Hi Hj Hk. unfold voxel_at, binary_dilation, neighbours. cbn [shape data].
  rewrite Hs, Hl, nth_map_seq_bool by (apply flat_index_lt; assumption).
  rewrite unravel_flat_index by assumption. reflexivity.
Qed.

Lemma iter_shape (f : ndarray bool -> ndarray bool) n a :
  (forall x, shape (f x) = shape x) ->
  (forall x, length (data (f x)) = length (data x)) ->
  shape (Nat.iter n f a) = shape a /\ length (data (Nat.iter n f a)) = length (data a).
Proof.
  intros Hs Hl. induction n as [|n [IH1 IH2]]; [split; reflexivity|].
  cbn [Nat.iter nat_rect]. rewrite Hs, Hl. split; assumption.
Qed.

Lemma length_binary_erosion a structure :
  length (data (binary_erosion a structure)) = length (data a).
Proof. unfold binary_erosion. cbn [data]. rewrite length_map, length_seq. reflexivity. Qed.

Lemma length_binary_dilation a structure :
  length (data (binary_dilation a structure)) = length (data a).
Proof. unfold binary_dilation. cbn [data]. rewrite length_map, length_seq. reflexivity. Qed.

(** [n] dilations followed by [n] erosions keep every voxel that is set
    and lies at least [n] voxels away from the faces of the volume. *)
Lemma closing_keeps_interior (structure : list coord) h w d :
  within_3x3x3 structure ->
  forall n (a : ndarray bool) i j k,
    shape a = (h, w, d) -> length (data a) = h * w * d ->
    n <= i -> i + n < h -> n <= j -> j + n < w -> n <= k -> k + n < d ->
    voxel_at false a i j k = true ->
    voxel_at false
      (Nat.iter n (fun x => binary_erosion x structure)
         (Nat.iter n (fun x => binary_dilation x (map reflect structure)) a)) i j k = true.
Proof.
  intros Hst. induction n as [|n IH]; intros a i j k Hs Hl Hi1 Hi2 Hj1 Hj2 Hk1 Hk2 Ha.
  - exact Ha.
  - rewrite (Nat.iter_succ_r n (fun x => binary_dilation x (map reflect structure)) a).
    rewrite Nat.iter_succ.
    set (da := binary_dilation a (map reflect structure)).
    assert (Hsd : shape da = (h, w, d)) by exact Hs.
    assert (Hld : length (data da) = h * w * d)
      by (unfold da; rewrite length_binary_dilation; exact Hl).
    set (inner := Nat.iter n (fun x => binary_erosion x structure)
                    (Nat.iter n (fun x => binary_dilation x (map reflect structure)) da)).
    assert (Hin : shape inner = (h, w, d) /\ length (data inner) = h * w * d).
    { unfold inner.
      destruct (iter_shape (fun x => binary_erosion x structure) n
                  (Nat.iter n (fun x => binary_dilation x (map reflect structure)) da))
        as [E1 E2]; [reflexivity|intros x; apply length_binary_erosion|].
      destruct (iter_shape (fun x => binary_dilation x (map reflect structure)) n da)
        as [D1 D2]; [reflexivity|intros x; apply length_binary_dilation|].
      rewrite E1, E2, D1, D2. split; assumption. }
    destruct Hin as [Hsi Hli].
    rewrite (binary_erosion_voxel inner structure h w d i j k) by (try assumption; lia).
    apply forallb_forall. intros [[di dj] dk] Ho. apply list_elem_of_In in Ho.
    destruct (Hst di dj dk Ho) as (Hdi & Hdj & Hdk).
    cbn [shift]. cbv zeta.
    replace (Z.of_nat i + di)%Z with (Z.of_nat (Z.to_nat (Z.of_nat i + di))) by lia.
    replace (Z.of_nat j + dj)%Z with (Z.of_nat (Z.to_nat (Z.of_nat j + dj))) by lia.
    replace (Z.of_nat k + dk)%Z with (Z.of_nat (Z.to_nat (Z.of_nat k + dk))) by lia.
    set (i' := Z.to_nat (Z.of_nat i + di)).
    set (j' := Z.to_nat (Z.of_nat j + dj)).
    set (k' := Z.to_nat (Z.of_nat k + dk)).
    assert (Hi' : n <= i' /\ i' + n < h) by (unfold i'; lia).
    assert (Hj' : n <= j' /\ j' + n < w) by (unfold j'; lia).
    assert (Hk' : n <= k' /\ k' + n < d) by (unfold k'; lia).
    apply andb_true_iff. split; [apply in_bounds_nat; lia|].
    rewrite ravel_nat.
    change (nth (flat_index (h, w, d) i' j' k') (data inner) false)
      with (voxel_at false (NDArray (h, w, d) (data inner)) i' j' k').
    replace (NDArray (h, w, d) (data inner)) with inner
      by (destruct inner as [si li]; cbn [shape data] in *; subst si; reflexivity).
    unfold inner. apply IH; try assumption; try lia.
    unfold da.
    rewrite (binary_dilation_voxel a (map reflect structure) h w d i' j' k')
      by (try assumption; lia).
    apply existsb_exists. exists (flat_index (h, w, d) i j k). split.
    + apply in_map_iff. exists (Z.of_nat i, Z.of_nat j, Z.of_nat k).
      split; [apply ravel_nat|].
      apply list_elem_of_In, list_elem_of_filter. split.
      * apply Is_true_true, in_bounds_nat. lia.
      * apply list_elem_of_In, in_map_iff. exists (reflect (di, dj, dk)). split.
        -- cbn [reflect shift]. unfold i', j', k'. f_equal; [f_equal|]; lia.
        -- apply in_map, list_elem_of_In, Ho.
    + unfold voxel_at in Ha. rewrite Hs in Ha. exact Ha.
Qed.

(** X19. With a 3x3x3 structuring element and [iteration >= 1],
    [deep_sulci_and_wm_strand_mask] returns a mask of the shape of the
    volume in which every marked voxel that lies at least [iteration]
    voxels away from all six faces of the volume is a voxel below or at
    [ctx_thresh]: inside the volume the mask never marks a cortex voxel
    (the closing only adds voxels there; cortex voxels can be marked
    near the faces only, where the erosion treats the outside as
    background). *)
Theorem deep_sulci_and_wm_strand_mask_interior
  (binary_closing_until_stable : ndarray bool -> list coord -> ndarray bool)
  (volume : ndarray Z) (structure : list coord) (iteration ctx_thresh : Z)
  (h w d i j k : nat) :
  shape volume = (h, w, d) ->
  well_shaped volume ->
  within_3x3x3 structure ->
  (1 <= iteration)%Z ->
  let n := Z.to_nat iteration in
  let mask :=
    deep_sulci_and_wm_strand_mask binary_closing_until_stable volume structure iteration
      ctx_thresh in
  shape mask = shape volume
  /\ (n <= i -> i + n < h -> n <= j -> j + n < w -> n <= k -> k + n < d ->
      voxel_at false mask i j k = true ->
      (voxel volume i j k <= ctx_thresh)%Z).
Proof.
  intros Hs Hwf Hst Hit n mask. split; [reflexivity|].
  intros Hi1 Hi2 Hj1 Hj2 Hk1 Hk2 Hm.
  destruct (Z.ltb_spec ctx_thresh (voxel volume i j k)) as [Hlt|Hge]; [exfalso|lia].
  set (empty_im := amap (fun x => (ctx_thresh <? x)%Z) volume).
  assert (Hse : shape empty_im = (h, w, d)) by exact Hs.
  assert (Hle : length (data empty_im) = h * w * d).
  { unfold empty_im, amap. cbn [data]. rewrite length_map.
    unfold well_shaped in Hwf. rewrite Hs in Hwf. exact Hwf. }
  assert (Hp : flat_index (h, w, d) i j k < h * w * d) by (apply flat_index_lt; lia).
  assert (Hv : data volume !! flat_index (h, w, d) i j k = Some (voxel volume i j k)).
  { unfold voxel. rewrite Hs.
    unfold well_shaped in Hwf. rewrite Hs in Hwf. cbn [size3] in Hwf.
    destruct (lookup_lt_is_Some_2 (data volume) (flat_index (h, w, d) i j k) ltac:(lia))
      as (x & Hx).
    unfold flat_index in Hx |- *. rewrite (nth_lookup_Some _ _ _ _ Hx). exact Hx. }
  assert (He : voxel_at false empty_im i j k = true).
  { unfold voxel_at. rewrite Hse.
    apply nth_lookup_Some with (d := false).
    unfold empty_im, amap. cbn [data]. rewrite lookup_map, Hv. cbn [fmap option_fmap option_map].
    f_equal. apply Z.ltb_lt, Hlt. }
  pose proof (closing_keeps_interior structure h w d Hst n empty_im i j k Hse Hle
                Hi1 Hi2 Hj1 Hj2 Hk1 Hk2 He) as Hc.
  unfold mask, deep_sulci_and_wm_strand_mask, binary_closing in Hm.
  rewrite (proj2 (Z.ltb_ge iteration 1) Hit) in Hm. fold empty_im in Hm. fold n in Hm.
  set (closed := Nat.iter n (fun a => binary_erosion a structure)
                   (Nat.iter n (fun a => binary_dilation a (map reflect structure)) empty_im))
    in *.
  assert (Hsc : shape closed = (h, w, d) /\ length (data closed) = h * w * d).
  { unfold closed.
    destruct (iter_shape (fun x => binary_erosion x structure) n
                (Nat.iter n (fun x => binary_dilation x (map reflect structure)) empty_im))
      as [E1 E2]; [reflexivity|intros x; apply length_binary_erosion|].
    destruct (iter_shape (fun x => binary_dilation x (map reflect structure)) n empty_im)
      as [D1 D2]; [reflexivity|intros x; apply length_binary_dilation|].
    rewrite E1, E2, D1, D2. split; assumption. }
  destruct Hsc as [Hsc Hlc].
  unfold voxel_at, np_xor in Hm, He, Hc. cbn [shape data] in Hm.
  rewrite Hse in Hm, He. rewrite Hsc in Hc.
  destruct (lookup_lt_is_Some_2 (data empty_im) (flat_index (h, w, d) i j k) ltac:(lia))
    as (x & Hx).
  destruct (lookup_lt_is_Some_2 (data closed) (flat_index (h, w, d) i j k) ltac:(lia))
    as (y & Hy).
  rewrite (nth_lookup_Some _ _ _ _ Hx) in He.
  rewrite (nth_lookup_Some _ _ _ _ Hy) in Hc.
  rewrite (nth_lookup_Some _ _ _ (xorb x y)) in Hm
    by (rewrite lookup_zip_with, Hx, Hy; reflexivity).
  subst x y. discriminate Hm.
Qed.

Lemma deep_sulci_and_wm_strand_mask_interior_witness :
  deep_sulci_and_wm_strand_mask (fun a _ => a) sulcus_block offsets3 1 33
  = NDArray (3, 3, 5)
      (repeat true 20 ++ [true; false; true; false; true] ++ repeat true 20)
  /\ (voxel sulcus_block 1 1 2 <= 33)%Z.
Proof.
  split; [vm_compute; reflexivity|].
  apply (deep_sulci_and_wm_strand_mask_interior (fun a _ => a) sulcus_block
           offsets3 1 33 3 3 5 1 1 2 eq_refl eq_refl).
  - intros di dj dk Ho. apply list_elem_of_In in Ho. vm_compute in Ho.
    repeat (destruct Ho as [[= <- <- <-]|Ho]; [lia|]). contradiction.
  - lia.
  - vm_compute. lia.
  - vm_compute. lia.
  - vm_compute. lia.
  - vm_compute. lia.
  - vm_compute. lia.
  - vm_compute. lia.
  - vm_compute. reflexivity.
Defined.

(** ** sagittal_coronal_remap_lookup *)


(** ** split_cortex_labels *)

Lemma runs_ret l t (P : ndarray Z -> Prop) : P t -> runs_from l t (ret tt) P.
Proof.
  intros HP h Ht. exists t. split; [|exact HP].
  unfold ret. rewrite list_insert_id by exact Ht. reflexivity.
Qed.

Lemma runs_bind l t (c1 c2 : M unit) (Q P : ndarray Z -> Prop) :
  runs_from l t c1 Q -> (forall t', Q t' -> runs_from l t' c2 P) ->
  runs_from l t (c1 ;;; c2) P.
Proof.
  intros H1 H2 h Ht. destruct (H1 h Ht) as (t1 & E1 & HQ).
  rewrite (bind_ok _ _ _ _ _ E1).
  destruct (H2 t1 HQ (<[l := t1]> h)) as (t2 & E2 & HP).
  { apply list_lookup_insert_eq. eapply lookup_lt_Some, Ht. }
  exists t2. rewrite E2, list_insert_insert_eq. split; [reflexivity|exact HP].
Qed.

Lemma runs_load l t (k : ndarray Z -> M unit) (P : ndarray Z -> Prop) :
  runs_from l t (k t) P -> runs_from l t (a <- load l ;; k a) P.
Proof.
  intros H h Ht. rewrite (bind_ok _ _ _ _ _ (load_ok _ _ _ Ht)). exact (H h Ht).
Qed.

Lemma runs_write l t m w (P : ndarray Z -> Prop) :
  shape m = shape t ->
  P (NDArray (shape t) (scatter (data m) (repeat w (count_true (data m))) (data t))) ->
  runs_from l t (setitem_mask_scalar l m w) P.
Proof.
  intros Hs HP h Ht. eexists. split; [apply setitem_mask_scalar_ok; eassumption|exact HP].
Qed.

Lemma scatter_mask_lookup {Y} (m : list bool) (w : Y) (xs : list Y) (p : nat) :
  length m = length xs ->
  scatter m (repeat w (count_true m)) xs !! p
  = match m !! p with
    | Some true => Some w
    | Some false => xs !! p
    | None => None
    end.
Proof.
  intros Hlen. rewrite <- (map_id m) at 1 2. apply (scatter_repeat_lookup id w m xs p Hlen).
Qed.

(** A masked write of a scalar keeps a pointwise relation when the new
    value is fine wherever the mask holds. *)
Lemma pointwise_write (R : nat -> Z -> Z -> Prop) a t m w :
  pointwise R a t ->
  length (data m) = length (data t) ->
  (forall p v c, data a !! p = Some v -> data t !! p = Some c ->
                 data m !! p = Some true -> R p v w) ->
  pointwise R a (NDArray (shape t) (scatter (data m) (repeat w (count_true (data m))) (data t))).
Proof.
  intros (Hs & Hl & HR) Hm Hw. split; [exact Hs|]. split.
  { cbn [data]. rewrite length_scatter. exact Hl. }
  intros p v c Hv. cbn [data]. rewrite scatter_mask_lookup by exact Hm.
  destruct (data t !! p) as [c0|] eqn:Hc0.
  - destruct (data m !! p) as [[]|] eqn:Hb; [| |discriminate].
    + intros [= <-]. eapply Hw; eassumption.
    + intros [= <-]. apply HR; assumption.
  - apply lookup_ge_None in Hc0. rewrite <- Hm in Hc0. apply lookup_ge_None in Hc0.
    rewrite Hc0. discriminate.
Qed.

Lemma pointwise_impl (R R' : nat -> Z -> Z -> Prop) a t :
  (forall p v c, R p v c -> R' p v c) -> pointwise R a t -> pointwise R' a t.
Proof. intros H (Hs & Hl & HR). repeat split; eauto. Qed.

(** *** The label image *)

Lemma shape_label seg c bg : shape (label seg c bg) = shape seg.
Proof. reflexivity. Qed.

Lemma length_label seg c bg : length (data (label seg c bg)) = length (data seg).
Proof. unfold label. cbn [data]. rewrite length_map, length_seq. reflexivity. Qed.

(** A voxel with a label other than 0 is not a background voxel. *)
Lemma label_nonzero seg c bg p r :
  data (label seg c bg) !! p = Some r -> r <> 0%Z -> nth p (data seg) 0%Z <> bg.
Proof.
  intros Hp Hr.
  assert (Hlt : p < length (data seg)).
  { rewrite <- (length_label seg c bg). eapply lookup_lt_Some, Hp. }
  unfold label in Hp. cbn [data] in Hp.
  rewrite lookup_map, lookup_seq_lt in Hp by exact Hlt.
  cbn [fmap option_fmap option_map Nat.add] in Hp.
  destruct (Z.eqb_spec (nth p (data seg) 0%Z) bg) as [_|Hne]; [|exact Hne].
  injection Hp as <-. contradiction.
Qed.

Lemma labels_list_range v : v ∈ labels_list -> (1000 < v < 2000)%Z.
Proof.
  intros Hv. assert (H : Forall (fun x => 1000 < x < 2000)%Z labels_list).
  { unfold labels_list. repeat (constructor; [lia|]). constructor. }
  rewrite Forall_forall in H. apply H, list_elem_of_In, Hv.
Qed.

Section SplitRun.

Variable gaussian_filter : ndarray Q -> Q -> ndarray Q.
Variable point : Type.
Variable centroid : ndarray Z -> Z -> point.
Variable closer : point -> point -> point -> bool.

(** The inner loop: the regions of one label move to the right
    hemisphere or stay. *)
Lemma split_regions_run l a label_img label_current crh clh regions :
  label_current ∈ labels_list ->
  shape label_img = shape a ->
  length (data label_img) = length (data a) ->
  (forall p r, data label_img !! p = Some r -> r <> 0%Z ->
               data a !! p = Some label_current) ->
  forall t, pointwise (fun _ => moved_right) a t ->
  runs_from l t (split_regions point centroid closer l label_img label_current crh clh regions)
    (pointwise (fun _ => moved_right) a).
Proof.
  intros Hlc Hsh Hlen Himg. induction regions as [|region rest IH]; intros t Ht.
  - apply runs_ret, Ht.
  - cbn [split_regions]. eapply runs_bind; [|exact IH].
    destruct (Z.eqb_spec region 0) as [->|Hne]; cbn [negb]; [apply runs_ret, Ht|].
    destruct (closer _ crh clh); [|apply runs_ret, Ht].
    destruct Ht as (Hs & Hl & HR).
    apply runs_write; [cbn [np_eq amap shape]; congruence|].
    apply pointwise_write; [repeat split; assumption| |].
    + unfold np_eq, amap. cbn [data]. rewrite length_map. congruence.
    + intros p v c Hv Hc Hm. unfold np_eq, amap in Hm. cbn [data] in Hm.
      rewrite lookup_map in Hm.
      destruct (data label_img !! p) as [r|] eqn:Hr; [|discriminate].
      injection Hm as Hm. apply Z.eqb_eq in Hm. subst r.
      specialize (Himg p region Hr Hne). rewrite Hv in Himg. injection Himg as ->.
      right. split; [exact Hlc|reflexivity].
Qed.

(** The first loop. *)
Lemma split_labels_run l a crh clh ls :
  (forall x, x ∈ ls -> x ∈ labels_list) ->
  forall t, pointwise (fun _ => moved_right) a t ->
  runs_from l t (split_labels point centroid closer l crh clh ls)
    (pointwise (fun _ => moved_right) a).
Proof.
  induction ls as [|lc rest IH]; intros Hls t Ht.
  - apply runs_ret, Ht.
  - cbn [split_labels]. apply runs_load.
    eapply runs_bind; [|intros t' Ht'; apply IH; [intros x Hx; apply Hls; right; exact Hx|exact Ht']].
    assert (Hlc : lc ∈ labels_list) by (apply Hls; left).
    destruct Ht as (Hs & Hl & HR).
    apply split_regions_run; [exact Hlc| | | |repeat split; assumption].
    + rewrite shape_label. cbn [as_int np_eq amap shape]. exact Hs.
    + rewrite length_label. unfold as_int, np_eq, amap. cbn [data]. rewrite !length_map. exact Hl.
    + intros p r Hr Hne. pose proof (label_nonzero _ _ _ _ _ Hr Hne) as Hnz.
      assert (Hlt : p < length (data t)).
      { apply lookup_lt_Some in Hr. rewrite length_label in Hr.
        unfold as_int, np_eq, amap in Hr. cbn [data] in Hr. rewrite !length_map in Hr. exact Hr. }
      destruct (lookup_lt_is_Some_2 (data t) p Hlt) as (c & Hc).
      destruct (lookup_lt_is_Some_2 (data a) p ltac:(lia)) as (v & Hv).
      rewrite Hv. f_equal.
      assert (Hclc : c = lc).
      { unfold as_int, np_eq, amap in Hnz. cbn [data] in Hnz. rewrite map_map in Hnz.
        rewrite (nth_lookup_Some _ _ _ (if (c =? lc)%Z then 1%Z else 0%Z)) in Hnz
          by (rewrite lookup_map, Hc; reflexivity).
        destruct (Z.eqb_spec c lc); [assumption|contradiction]. }
      subst c. destruct (HR p v lc Hv Hc) as [->|[Hvl ->]]; [reflexivity|].
      apply labels_list_range in Hvl, Hlc. lia.
Qed.

(** The second loop, one class after the other. *)
Lemma split_prob_classes_run l a (R : nat -> Z -> Z -> Prop) (sp : ndarray nat) cs :
  shape sp = shape a -> length (data sp) = length (data a) ->
  forall t, pointwise R a t ->
  runs_from l t (split_prob_classes l sp cs)
    (pointwise (fun p v c' =>
                  exists c, R p v c
                            /\ c' = foldl (fun c k => resplit k (nth p (data sp) 0) c) c cs) a).
Proof.
  intros Hsp Hlsp. revert R. induction cs as [|k rest IH]; intros R t Ht.
  - apply runs_ret. eapply pointwise_impl; [|exact Ht]. intros p v c Hc. exists c. auto.
  - cbn [split_prob_classes]. apply runs_load.
    set (R1 := fun p v c' => exists c, R p v c /\ c' = resplit k (nth p (data sp) 0) c).
    assert (Hstep : runs_from l t
              (setitem_mask_scalar l
                 (np_and (np_or (np_eq t k) (np_eq t (k + 1000)))
                    (amap (fun i => i =? 0) sp)) k ;;;
               setitem_mask_scalar l
                 (np_and (np_or (np_eq t k) (np_eq t (k + 1000)))
                    (amap (fun i => i =? 1) sp)) (k + 1000))
              (pointwise R1 a)).
    { destruct Ht as (Hs & Hl & HR). intros h Hh.
      set (m0 := np_and (np_or (np_eq t k) (np_eq t (k + 1000))) (amap (fun i => i =? 0) sp)).
      set (m1 := np_and (np_or (np_eq t k) (np_eq t (k + 1000))) (amap (fun i => i =? 1) sp)).
      rewrite (bind_ok _ (fun _ => setitem_mask_scalar l m1 (k + 1000)%Z) h tt _
                 (setitem_mask_scalar_ok h l t m0 k Hh eq_refl)).
      erewrite (setitem_mask_scalar_ok _ l _ m1 (k + 1000)%Z);
        [|apply list_lookup_insert_eq; eapply lookup_lt_Some, Hh|reflexivity].
      subst m0 m1.
      rewrite list_insert_insert_eq. eexists. split; [reflexivity|].
      split; [exact Hs|]. split.
      { cbn [data shape]. rewrite !length_scatter. exact Hl. }
      intros p v c' Hv. cbn [data shape].
      assert (Hlt : p < length (data a)) by (eapply lookup_lt_Some, Hv).
      destruct (lookup_lt_is_Some_2 (data t) p ltac:(lia)) as (c & Hc).
      destruct (lookup_lt_is_Some_2 (data sp) p ltac:(lia)) as (i & Hi).
      assert (Hmask : forall j,
                zip_with andb (zip_with orb (map (fun x => (x =? k)%Z) (data t))
                                 (map (fun x => (x =? k + 1000)%Z) (data t)))
                  (map (fun i => i =? j) (data sp)) !! p
                = Some (((c =? k) || (c =? k + 1000))%Z && (i =? j))).
      { intros j. rewrite !lookup_zip_with, !lookup_map, Hc, Hi. reflexivity. }
      assert (Hlm : forall j,
                length (zip_with andb (zip_with orb (map (fun x => (x =? k)%Z) (data t))
                                         (map (fun x => (x =? k + 1000)%Z) (data t)))
                          (map (fun i => i =? j) (data sp))) = length (data t)).
      { intros j. rewrite !length_zip_with, !length_map. lia. }
      rewrite scatter_mask_lookup by (rewrite length_scatter; apply Hlm).
      unfold np_and, np_or, np_eq, amap. cbn [data shape]. rewrite (Hmask 1).
      rewrite scatter_mask_lookup by apply Hlm. rewrite (Hmask 0), Hc.
      intros Hc'. exists c. split; [apply (HR p v c Hv Hc)|].
      rewrite (nth_lookup_Some _ _ _ _ Hi). unfold resplit.
      destruct ((c =? k) || (c =? k + 1000))%Z; cbn [andb] in Hc' |- *; [|congruence].
      destruct i as [|[|i]]; cbn [Nat.eqb] in Hc' |- *; congruence. }
    intros h Hh. destruct (Hstep h Hh) as (t1 & E1 & Ht1).
    unfold bind at 1. unfold bind at 1 in E1.
    destruct (setitem_mask_scalar l _ k h) as [[[]|e] h1] eqn:E0.
    + unfold bind at 1. rewrite E1.
      destruct (IH R1 t1 Ht1 (<[l := t1]> h)) as (t2 & E2 & Ht2).
      { apply list_lookup_insert_eq. eapply lookup_lt_Some, Hh. }
      exists t2. rewrite E2, list_insert_insert_eq. split; [reflexivity|].
      eapply pointwise_impl; [|exact Ht2].
      intros p v c' (c1 & (c & Hc & ->) & ->). exists c. split; [exact Hc|reflexivity].
    + discriminate E1.
Qed.

Lemma resplit_other k i c : c <> k -> c <> (k + 1000)%Z -> resplit k i c = c.
Proof.
  intros H1 H2. unfold resplit.
  destruct (Z.eqb_spec c k); [contradiction|].
  destruct (Z.eqb_spec c (k + 1000)); [contradiction|]. reflexivity.
Qed.

Lemma resplit_all (i : nat) (c : Z) :
  i < 2 ->
  foldl (fun c k => resplit k i c) c [1011; 1019; 1026; 1029]%Z
  = match find (fun k => ((c =? k) || (c =? k + 1000))%Z) [1011; 1019; 1026; 1029]%Z with
    | Some k => if i =? 0 then k else (k + 1000)%Z
    | None => c
    end.
Proof.
  intros Hi. assert (Hi' : i = 0 \/ i = 1) by lia.
  assert (Hcase : (c = 1011 \/ c = 2011 \/ c = 1019 \/ c = 2019 \/ c = 1026 \/ c = 2026
                   \/ c = 1029 \/ c = 2029
                   \/ (c <> 1011 /\ c <> 2011 /\ c <> 1019 /\ c <> 2019 /\ c <> 1026
                       /\ c <> 2026 /\ c <> 1029 /\ c <> 2029))%Z) by lia.
  destruct Hcase as [-> | [-> | [-> | [-> | [-> | [-> | [-> | [-> | Hne]]]]]]]];
    try (destruct Hi' as [-> | ->]; reflexivity).
  cbn [foldl find].
  rewrite (resplit_other 1011 i c), (resplit_other 1019 i c), (resplit_other 1026 i c),
    (resplit_other 1029 i c) by lia.
  repeat match goal with
         | |- context [(c =? ?y)%Z] => destruct (Z.eqb_spec c y); [lia|]; cbn [orb]
         end.
  reflexivity.
Qed.

Lemma bind_lift_ok {X Y} (r : result X) (k : X -> M Y) (h : heap) x :
  r = Ok x -> bind (lift r) k h = k x h.
Proof. intros ->. reflexivity. Qed.

Lemma bind_lift_raise {X Y} (r : result X) (k : X -> M Y) (h : heap) e :
  r = Raise e -> bind (lift r) k h = (Raise e, h).
Proof. intros ->. reflexivity. Qed.

Lemma first_centroid_cases label_img :
  first_centroid point centroid label_img = Raise IndexError
  \/ exists c, first_centroid point centroid label_img = Ok c.
Proof. unfold first_centroid. destruct (regionprops label_img); eauto. Qed.

Lemma get_largest_cc_cases seg :
  get_largest_cc seg = Raise ValueError \/ exists m, get_largest_cc seg = Ok m.
Proof.
  unfold get_largest_cc.
  destruct (np_bincount (data (label seg 3 0))) as [|x l] eqn:E; [left; reflexivity|].
  right. cbn [np_argmax_int rbind].
  destruct (<[argmax_int_from 0 x 1 l := (-1)%Z]> (x :: l)) as [|y l'] eqn:E'.
  - apply (f_equal length) in E'. rewrite length_insert in E'. discriminate.
  - cbn [np_argmax_int rbind]. eexists. reflexivity.
Qed.

(** X18. [split_cortex_labels] either raises before it has written
    anything (an [IndexError] when a white-matter mask has no region, a
    [ValueError] on an empty volume), or returns its argument, rewritten
    in place, with every other array untouched.  In the result a voxel of
    one of the four classes 1011, 1019, 1026, 1029 (in either
    hemisphere) carries the left ID when the smoothed left white matter
    at the voxel is at least the smoothed right white matter, and the
    right ID otherwise, whatever the centroids say; a voxel of another
    class of the list of split classes keeps its ID or gets it shifted
    by 1000; every other voxel keeps its value. *)
Theorem split_cortex_labels_outcome (h : heap) (aparc : loc) (a : ndarray Z) :
  h !! aparc = Some a ->
  let blur v :=
    gaussian_filter (amap (fun b : bool => (1000 * (if b then 1 else 0))%Q) (np_eq a v)) 3%Q in
  (exists e, (e = IndexError \/ e = ValueError)
             /\ split_cortex_labels gaussian_filter point centroid closer aparc h
                = (Raise e, h))
  \/ (exists a',
        split_cortex_labels gaussian_filter point centroid closer aparc h
        = (Ok aparc, <[aparc := a']> h)
        /\ shape a' = shape a
        /\ length (data a') = length (data a)
        /\ forall p v v', data a !! p = Some v -> data a' !! p = Some v' ->
             split_voxel (nth p (data (blur 2%Z)) 0%Q) (nth p (data (blur 41%Z)) 0%Q) v v').
Proof.
  intros Ha blur. unfold split_cortex_labels.
  rewrite (bind_ok _ _ _ _ _ (load_ok _ _ _ Ha)).
  destruct (get_largest_cc_cases (as_int (np_eq a 41))) as [E|(rh_wm & E)].
  { left. exists ValueError. split; [right; reflexivity|]. apply bind_lift_raise, E. }
  rewrite (bind_lift_ok _ _ _ _ E).
  destruct (get_largest_cc_cases (as_int (np_eq a 2))) as [E2|(lh_wm & E2)].
  { left. exists ValueError. split; [right; reflexivity|]. apply bind_lift_raise, E2. }
  rewrite (bind_lift_ok _ _ _ _ E2).
  destruct (first_centroid_cases (label (as_int rh_wm) 3 0)) as [E3|(crh & E3)].
  { left. exists IndexError. split; [left; reflexivity|]. apply bind_lift_raise, E3. }
  rewrite (bind_lift_ok _ _ _ _ E3).
  destruct (first_centroid_cases (label (as_int lh_wm) 3 0)) as [E4|(clh & E4)].
  { left. exists IndexError. split; [left; reflexivity|]. apply bind_lift_raise, E4. }
  rewrite (bind_lift_ok _ _ _ _ E4).
  right.
  assert (H0 : pointwise (fun _ => moved_right) a a).
  { repeat split. intros p v c Hv Hc. left. congruence. }
  destruct (split_labels_run aparc a crh clh labels_list (fun _ H => H) a H0 h Ha)
    as (t1 & E5 & Ht1).
  rewrite (bind_ok _ _ _ _ _ E5).
  assert (Hh1 : <[aparc := t1]> h !! aparc = Some t1).
  { apply list_lookup_insert_eq. eapply lookup_lt_Some, Ha. }
  rewrite (bind_ok _ _ _ _ _ (load_ok _ _ _ Hh1)).
  destruct Ht1 as (Hs1 & Hl1 & HR1).
  assert (Heq : forall x, x = 2%Z \/ x = 41%Z -> np_eq t1 x = np_eq a x).
  { intros x Hx. unfold np_eq, amap. rewrite Hs1. f_equal.
    apply (list_eq_same_length _ _ (length (data a))); [rewrite length_map; reflexivity|rewrite length_map; exact Hl1|].
    intros p b1 b2 Hp. rewrite !lookup_map.
    destruct (data t1 !! p) as [c|] eqn:Hc; [|discriminate].
    destruct (data a !! p) as [v|] eqn:Hv; [|discriminate].
    intros [= <-] [= <-].
    destruct (HR1 p v c Hv Hc) as [->|[Hvl ->]]; [reflexivity|].
    apply labels_list_range in Hvl.
    destruct (Z.eqb_spec (v + 1000) x), (Z.eqb_spec v x); try reflexivity; lia. }
  rewrite (Heq 2%Z) by auto. rewrite (Heq 41%Z) by auto.
  cbn [np_argmax_axis3]. rewrite (bind_lift_ok _ _ _ _ eq_refl).
  set (sp := NDArray (shape t1)
               (map (fun p => argmax (map (fun b => nth p (data b) 0%Q) [blur 2%Z; blur 41%Z]))
                  (seq 0 (length (data t1))))).
  destruct (split_prob_classes_run aparc a (fun _ => moved_right) sp [1011; 1019; 1026; 1029]%Z
              Hs1 ltac:(unfold sp; cbn [data]; rewrite length_map, length_seq; exact Hl1)
              t1 ltac:(repeat split; assumption) _ Hh1) as (a' & E6 & Ha').
  fold (blur 2%Z) (blur 41%Z). fold sp.
  rewrite (bind_ok _ _ _ _ _ E6). rewrite list_insert_insert_eq.
  exists a'. split; [reflexivity|].
  destruct Ha' as (Hs' & Hl' & HR'). split; [exact Hs'|]. split; [exact Hl'|].
  intros p v v' Hv Hv'. destruct (HR' p v v' Hv Hv') as (c & Hc & ->).
  assert (Hlt : p < length (data a)) by (eapply lookup_lt_Some, Hv).
  assert (Hsp : nth p (data sp) 0
                = if Qle_bool (nth p (data (blur 41%Z)) 0%Q) (nth p (data (blur 2%Z)) 0%Q)
                  then 0 else 1).
  { unfold sp. cbn [data].
    rewrite (nth_lookup_Some _ _ _ (argmax (map (fun b => nth p (data b) 0%Q) [blur 2%Z; blur 41%Z])))
      by (rewrite lookup_map, lookup_seq_lt by lia; reflexivity).
    cbn [map argmax argmax_from]. destruct (Qle_bool _ _); reflexivity. }
  rewrite resplit_all by (rewrite Hsp; destruct (Qle_bool _ _); lia).
  unfold split_voxel.
  assert (Hfind : find (fun k => ((c =? k) || (c =? k + 1000))%Z) [1011; 1019; 1026; 1029]%Z
                  = find (fun k => ((v =? k) || (v =? k + 1000))%Z) [1011; 1019; 1026; 1029]%Z).
  { destruct Hc as [->|[Hvl ->]]; [reflexivity|].
    apply list_elem_of_In in Hvl. unfold labels_list in Hvl. cbn [In] in Hvl.
    repeat (destruct Hvl as [<-|Hvl]; [reflexivity|]). contradiction. }
  rewrite Hfind.
  destruct (find (fun k => ((v =? k) || (v =? k + 1000))%Z) [1011; 1019; 1026; 1029]%Z)
    as [k|] eqn:Hk.
  - rewrite Hsp. subst blur. cbv beta. destruct (Qle_bool _ _); reflexivity.
  - split.
    + intros _. destruct Hc as [->|[_ ->]]; auto.
    + intros Hn. destruct Hc as [->|[Hvl _]]; [reflexivity|contradiction].
Qed.

End SplitRun.

Lemma split_cortex_labels_outcome_witness :
  split_cortex_labels ident_filter unit (fun _ _ => tt) (fun _ _ _ => true) 0
    [NDArray (1, 1, 8) [2; 2; 0; 41; 1003; 1011; 2011; 1003]%Z]
  = (Ok 0, [NDArray (1, 1, 8) [2; 2; 0; 41; 2003; 1011; 1011; 2003]%Z])
  /\ split_voxel 0 0 1011 1011.
Proof.
  split; [vm_compute; reflexivity|].
  destruct (split_cortex_labels_outcome ident_filter unit (fun _ _ => tt) (fun _ _ _ => true)
              [NDArray (1, 1, 8) [2; 2; 0; 41; 1003; 1011; 2011; 1003]%Z] 0 _ eq_refl)
    as [(e & _ & He)|(a' & Ha' & _ & _ & Hv)].
  - vm_compute in He. discriminate He.
  - vm_compute in Ha'. injection Ha' as <-.
    exact (Hv 5 1011%Z 1011%Z eq_refl eq_refl).
Defined.
